(** * bd-dialogue-bubble-editor: shape synthesis, safe text zone, font fitting
      and the pointer-driven transform engine

    A shallow embedding of
      - [types.ts]                 (the data model and its constants),
      - [utils/bubbleUtils.ts]     ([generateBubblePaths]),
      - [utils/textBoundsCalculator.ts] ([calculateTextBounds]),
      - [utils/textAutoFit.ts]     ([getTextBounds], [measureText],
                                    [calculateOptimalFontSize], [autoFitBubbleText]),
      - the [handleMouseMove] gesture handler of [BubbleItem] and
        [handleAddBubble] of [App.tsx],
      - the other handlers of [App.tsx] and [BubbleItem] on the list of
        bubbles, the font size and the text, and the wrapping and placing
        steps of [utils/richTextRenderer.ts] ([drawRichText]).

    Conventions of the embedding.
      - A JavaScript [number] is an exact rational ([Q]); the rounding of IEEE
        doubles, [NaN] and the infinities are not modelled, except the
        [-Infinity] that [Math.max()] of no argument returns ([xnum]) and the
        [NaN] that the toolbar stores for an emptied number field ([jsnum]).
        Division by zero follows [Qdiv] (it yields 0), where the code yields
        an infinity or [NaN].
      - [===] on numbers is [Qeq_bool]; [<], [<=] are [Qltb], [Qle_bool].
      - A template literal is the list of its literal chunks and interpolated
        numbers ([tok]); [render] gives the string for a number printer.
      - What the host provides ([Math.sin], the canvas text metrics, the SVG
        path geometry) is an interface ([MathLib], [Canvas], [SvgDom]). *)

From Stdlib Require Import QArith Qminmax Qround Qabs Lqa Lia ZArith.
From Stdlib Require Import List String Ascii Bool Arith.
From Stdlib Require Import DecimalString.
Import ListNotations.

Local Open Scope string_scope.
Local Open Scope list_scope.
Local Open Scope Q_scope.

(* ================================================================= *)
(** ** Numbers *)

Definition Qltb (a b : Q) : bool := negb (Qle_bool b a).

(** [Math.floor], as a rational again. *)
Definition Math_floor (q : Q) : Q := inject_Z (Qfloor q).

Definition Math_min (a b : Q) : Q := Qmin a b.
Definition Math_max (a b : Q) : Q := Qmax a b.
Definition Math_abs (a : Q) : Q := Qabs a.

(** [a || b] on numbers: [0] is falsy. *)
Definition num_or (a b : Q) : Q := if Qeq_bool a 0 then b else a.

(** A number that may be [-Infinity] (the value of [Math.max()] on an empty
    argument list). *)
Inductive xnum : Type :=
| NegInfinity
| Num (q : Q).

Definition xmax (a b : xnum) : xnum :=
  match a, b with
  | NegInfinity, _ => b
  | _, NegInfinity => a
  | Num p, Num q => Num (Qmax p q)
  end.

(** [Math.max(...xs)]. *)
Definition Math_max_list (xs : list Q) : xnum :=
  fold_left (fun acc q => xmax acc (Num q)) xs NegInfinity.

(** [Math.min(...xs)] and [Math.max(...xs)] of a list known to be non-empty
    (the head is passed apart). *)
Definition min_of (x : Q) (xs : list Q) : Q := fold_left Qmin xs x.
Definition max_of (x : Q) (xs : list Q) : Q := fold_left Qmax xs x.

(** [a <= b] where [a] may be [-Infinity]. *)
Definition xle_bool (a : xnum) (b : Q) : bool :=
  match a with
  | NegInfinity => true
  | Num q => Qle_bool q b
  end.

Definition xgt_bool (a : xnum) (b : Q) : bool := negb (xle_bool a b).

(* ================================================================= *)
(** ** types.ts *)

Inductive BubbleType : Type :=
| SpeechDown | SpeechUp | Thought | Shout | Descriptive | Whisper | TextOnly.

Inductive FontName : Type :=
| Comic | Bangers | Indie | Marker | Arial.

Record SpeechTailPart : Type := mkTail {
  tail_id : string;
  baseCX : Q;
  baseCY : Q;
  baseWidth : Q;
  tipX : Q;
  tipY : Q;
  initialLength : Q;
  initialBaseWidth : Q }.

Record ThoughtDotPart : Type := mkDot {
  dot_id : string;
  offsetX : Q;
  offsetY : Q;
  size : Q }.

(** [BubblePart = SpeechTailPart | ThoughtDotPart]; the [type] tag
    (['speech-tail'], ['thought-dot']) is the constructor. *)
Inductive BubblePart : Type :=
| SpeechTail (p : SpeechTailPart)
| ThoughtDot (p : ThoughtDotPart).

Definition part_id (p : BubblePart) : string :=
  match p with
  | SpeechTail t => tail_id t
  | ThoughtDot d => dot_id d
  end.

Record Bubble : Type := mkBubble {
  id : string;
  type : BubbleType;
  text : string;
  x : Q;
  y : Q;
  width : Q;
  height : Q;
  fontFamily : FontName;
  fontSize : Q;
  textColor : string;
  borderColor : string;
  zIndex : Z;
  parts : list BubblePart;
  shapeVariant : option Q }.

(** The tool settings whose number fields hold numbers. The toolbar can
    also store NaN in the four defaults of new bubbles (an emptied field,
    see [StoredDefaults] below); a property that reads these defaults says
    so by [holdsTailNumbers] or [holdsDotNumbers]. *)
Record ToolSettings : Type := mkToolSettings {
  activeBubbleType : BubbleType;
  activeFontFamily : FontName;
  activeFontSize : Q;
  activeTextColor : string;
  activeBorderColor : string;
  defaultTailLength : Q;
  defaultTailBaseWidth : Q;
  defaultDotCount : nat;
  defaultDotSize : Q }.

Definition MIN_BUBBLE_WIDTH : Q := 50.
Definition MIN_BUBBLE_HEIGHT : Q := 30.

Definition MIN_TAIL_LENGTH : Q := 10.
Definition MIN_TAIL_BASE_WIDTH : Q := 10.
Definition MIN_DOT_SIZE : Q := 5.
Definition MIN_DOT_COUNT : nat := 1.

Definition BubbleType_eqb (a b : BubbleType) : bool :=
  match a, b with
  | SpeechDown, SpeechDown | SpeechUp, SpeechUp | Thought, Thought
  | Shout, Shout | Descriptive, Descriptive | Whisper, Whisper
  | TextOnly, TextOnly => true
  | _, _ => false
  end.

Definition BUBBLE_REQUIRES_PARTS : list BubbleType :=
  [SpeechDown; SpeechUp; Thought; Whisper].

(** The three types whose outline is the pill with an optional tail. *)
Definition isSpeech (t : BubbleType) : bool :=
  match t with
  | SpeechDown | SpeechUp | Whisper => true
  | _ => false
  end.

(* ================================================================= *)
(** ** utils/bubbleUtils.ts *)

(** One piece of a template literal: a literal chunk or an interpolated
    number. *)
Inductive tok : Type :=
| T (s : string)
| V (q : Q).

(** The string a template literal evaluates to, for the host's
    number-to-string conversion [show]. *)
Definition render (show : Q -> string) (p : list tok) : string :=
  concat "" (map (fun t => match t with T s => s | V q => show q end) p).

Record Circle : Type := mkCircle {
  c_id : string;
  c_cx : Q;
  c_cy : Q;
  c_r : Q }.

Record BubblePaths : Type := mkPaths {
  bodyPath : list tok;
  partsCircles : list Circle }.

(** [parts.find(p => p.type === 'speech-tail')]. *)
Fixpoint findTail (ps : list BubblePart) : option SpeechTailPart :=
  match ps with
  | [] => None
  | SpeechTail t :: _ => Some t
  | ThoughtDot _ :: ps' => findTail ps'
  end.

(** The rounded rectangle
    [M r,0 L w-r,0 A r,r 0 0 1 w,r L w,h-r A r,r 0 0 1 w-r,h L r,h
     A r,r 0 0 1 0,h-r L 0,r A r,r 0 0 1 r,0 Z]
    written out three times in the source (no tail part, tail base in the
    middle, Descriptive). *)
Definition roundedRect (r w h : Q) : list tok :=
  [T "M"; V r; T ",0 L"; V (w - r); T ",0 A"; V r; T ","; V r; T " 0 0 1 ";
   V w; T ","; V r; T " L"; V w; T ","; V (h - r); T " A"; V r; T ","; V r;
   T " 0 0 1 "; V (w - r); T ","; V h; T " L"; V r; T ","; V h; T " A"; V r;
   T ","; V r; T " 0 0 1 0,"; V (h - r); T " L0,"; V r; T " A"; V r; T ",";
   V r; T " 0 0 1 "; V r; T ",0 Z"].

(** The closure [createTailPath] of [generateBubblePaths]; it captures
    [clampedBaseCY], [tipX] and [tipY]. *)
Definition createTailPath (clampedBaseCY tipX tipY : Q)
    (startPt endPt : Q * Q) : list tok :=
  let midY := clampedBaseCY + (tipY - clampedBaseCY) * 0.5 in
  [T "L "; V (fst startPt); T ","; V (snd startPt);
   T " Q "; V (fst startPt + (tipX - fst startPt) * 0.25); T ","; V midY;
   T " "; V tipX; T ","; V tipY;
   T " Q "; V (fst endPt + (tipX - fst endPt) * 0.25); T ","; V midY;
   T " "; V (fst endPt); T ","; V (snd endPt)].

(** The speech branch (SpeechDown, SpeechUp, Whisper): the pill, one edge
    cut by the tail when the clamped base is on that edge. *)
Definition speechBodyPath (w h : Q) (ps : list BubblePart) : list tok :=
  let r := Math_min w h / 2 in
  match findTail ps with
  | Some tail =>
      let halfBase := baseWidth tail / 2 in
      let clampedBaseCX := Math_max 0 (Math_min w (baseCX tail)) in
      let clampedBaseCY := Math_max 0 (Math_min h (baseCY tail)) in
      let createTailPath :=
        createTailPath clampedBaseCY (tipX tail) (tipY tail) in
      if Qeq_bool clampedBaseCY h then
        let leftBaseX := Math_max r (clampedBaseCX - halfBase) in
        let rightBaseX := Math_min (w - r) (clampedBaseCX + halfBase) in
        [T "M"; V r; T ",0 L"; V (w - r); T ",0 A"; V r; T ","; V r;
         T " 0 0 1 "; V w; T ","; V r; T " L"; V w; T ","; V (h - r);
         T " A"; V r; T ","; V r; T " 0 0 1 "; V (w - r); T ","; V h;
         T " L"; V rightBaseX; T ","; V h; T " "]
        ++ createTailPath (rightBaseX, h) (leftBaseX, h)
        ++ [T " L"; V r; T ","; V h; T " A"; V r; T ","; V r;
            T " 0 0 1 0,"; V (h - r); T " L0,"; V r; T " A"; V r; T ",";
            V r; T " 0 0 1 "; V r; T ",0 Z"]
      else if Qeq_bool clampedBaseCY 0 then
        let leftBaseX := Math_max r (clampedBaseCX - halfBase) in
        let rightBaseX := Math_min (w - r) (clampedBaseCX + halfBase) in
        [T "M"; V r; T ",0 L"; V leftBaseX; T ",0 "]
        ++ createTailPath (leftBaseX, 0) (rightBaseX, 0)
        ++ [T " L"; V (w - r); T ",0 A"; V r; T ","; V r; T " 0 0 1 ";
            V w; T ","; V r; T " L"; V w; T ","; V (h - r); T " A"; V r;
            T ","; V r; T " 0 0 1 "; V (w - r); T ","; V h; T " L"; V r;
            T ","; V h; T " A"; V r; T ","; V r; T " 0 0 1 0,"; V (h - r);
            T " L0,"; V r; T " A"; V r; T ","; V r; T " 0 0 1 "; V r;
            T ",0 Z"]
      else if Qeq_bool clampedBaseCX w then
        let topBaseY := Math_max r (clampedBaseCY - halfBase) in
        let bottomBaseY := Math_min (h - r) (clampedBaseCY + halfBase) in
        [T "M"; V r; T ",0 L"; V (w - r); T ",0 A"; V r; T ","; V r;
         T " 0 0 1 "; V w; T ","; V r; T " L"; V w; T ","; V topBaseY;
         T " "]
        ++ createTailPath (w, topBaseY) (w, bottomBaseY)
        ++ [T " L"; V w; T ","; V (h - r); T " A"; V r; T ","; V r;
            T " 0 0 1 "; V (w - r); T ","; V h; T " L"; V r; T ","; V h;
            T " A"; V r; T ","; V r; T " 0 0 1 0,"; V (h - r); T " L0,";
            V r; T " A"; V r; T ","; V r; T " 0 0 1 "; V r; T ",0 Z"]
      else if Qeq_bool clampedBaseCX 0 then
        let topBaseY := Math_max r (clampedBaseCY - halfBase) in
        let bottomBaseY := Math_min (h - r) (clampedBaseCY + halfBase) in
        [T "M"; V r; T ",0 L"; V (w - r); T ",0 A"; V r; T ","; V r;
         T " 0 0 1 "; V w; T ","; V r; T " L"; V w; T ","; V (h - r);
         T " A"; V r; T ","; V r; T " 0 0 1 "; V (w - r); T ","; V h;
         T " L"; V r; T ","; V h; T " A"; V r; T ","; V r;
         T " 0 0 1 0,"; V (h - r); T " L0,"; V bottomBaseY; T " "]
        ++ createTailPath (0, bottomBaseY) (0, topBaseY)
        ++ [T " L0,"; V r; T " A"; V r; T ","; V r; T " 0 0 1 "; V r;
            T ",0 Z"]
      else
        roundedRect r w h
  | None => roundedRect r w h
  end.

(** What [Math] contributes to the silhouettes. [Math.sin] and [Math.cos]
    return doubles, which are rationals. *)
Class MathLib : Type := {
  Math_sin : Q -> Q;
  Math_cos : Q -> Q;
  Math_PI : Q }.

(** The seeded generator: a computation that reads and advances
    [randomState]. *)
Definition Rand (A : Type) : Type := Q -> A * Q.

Definition ret {A : Type} (a : A) : Rand A := fun st => (a, st).

Definition bind {A B : Type} (c : Rand A) (k : A -> Rand B) : Rand B :=
  fun st => let (a, st') := c st in k a st'.

Notation "x <- c ;; k" := (bind c (fun x => k))
  (at level 61, c at next level, right associativity).

Definition evalRand {A : Type} (c : Rand A) (seed : Q) : A := fst (c seed).

(** [bubble.id.split('').reduce((acc, char) => acc + char.charCodeAt(0), 0)]. *)
Fixpoint charCodeSum (acc : Q) (s : string) : Q :=
  match s with
  | EmptyString => acc
  | String c s' => charCodeSum (acc + inject_Z (Z.of_nat (nat_of_ascii c))) s'
  end.

Definition seedOf (b : Bubble) : Q :=
  charCodeSum 0 (id b)
  + match shapeVariant b with
    | Some v => num_or v 0
    | None => 0
    end.

(** [parts.forEach(part => { if (part.type === 'thought-dot') ... push })]. *)
Fixpoint dotCircles (ps : list BubblePart) : list Circle :=
  match ps with
  | [] => []
  | ThoughtDot d :: ps' =>
      mkCircle (dot_id d) (offsetX d) (offsetY d) (size d / 2) :: dotCircles ps'
  | SpeechTail _ :: ps' => dotCircles ps'
  end.

Section Silhouettes.
Context {M : MathLib}.

(** [const random = () => { const x = Math.sin(randomState++) * 10000;
                           return x - Math.floor(x); }]. *)
Definition random : Rand Q :=
  fun randomState =>
    let x := Math_sin randomState * 10000 in
    (x - Math_floor x, randomState + 1).

(** The body of the Thought loop at index [i], given the bulge factor drawn
    for this lobe. *)
Definition thoughtLobe (cx cy rx ry lobes : Q) (i : nat) (bulgeFactor : Q)
  : list tok :=
  let i := inject_Z (Z.of_nat i) in
  let angle := (i / lobes) * Math_PI * 2 - Math_PI / 2 in
  let nextAngle := ((i + 1) / lobes) * Math_PI * 2 - Math_PI / 2 in
  let x1 := cx + rx * Math_cos angle in
  let y1 := cy + ry * Math_sin angle in
  let x2 := cx + rx * Math_cos nextAngle in
  let y2 := cy + ry * Math_sin nextAngle in
  let midAngle := (angle + nextAngle) / 2 in
  let cpx := cx + rx * bulgeFactor * Math_cos midAngle in
  let cpy := cy + ry * bulgeFactor * Math_sin midAngle in
  (if Qeq_bool i 0 then [T "M"; V x1; T ","; V y1] else [])
  ++ [T " Q"; V cpx; T ","; V cpy; T " "; V x2; T ","; V y2].

(** [for (let i = 0; i < lobes; i++)]: [n] iterations are left, the next
    index is [i]. *)
Fixpoint thoughtLoop (cx cy rx ry lobes : Q) (n i : nat) : Rand (list tok) :=
  match n with
  | O => ret []
  | S n' =>
      bulgeFactor <- (r <- random ;; ret (1.3 + r * 0.3)) ;;
      rest <- thoughtLoop cx cy rx ry lobes n' (S i) ;;
      ret (thoughtLobe cx cy rx ry lobes i bulgeFactor ++ rest)
  end.

(** [const lobes = Math.floor(random() * 6) + 7], as an integer. *)
Definition drawLobes : Rand Z :=
  r <- random ;; ret (Qfloor (r * 6) + 7)%Z.

Definition thoughtBodyPath (w h : Q) : Rand (list tok) :=
  let cx := w / 2 in
  let cy := h / 2 in
  let rx := w * 0.30 in
  let ry := h * 0.30 in
  lobes <- drawLobes ;;
  path <- thoughtLoop cx cy rx ry (inject_Z lobes) (Z.to_nat lobes) 0 ;;
  ret (path ++ [T " Z"]).

(** The body of the Shout loop at index [i]. *)
Definition shoutPoint (w h : Q) (i : nat) : Rand (list tok) :=
  let points := 14 in
  let cx := w / 2 in
  let cy := h / 2 in
  let outerRx := w / 2 in
  let outerRy := h / 2 in
  let innerRx := w / 3.5 in
  let innerRy := h / 3.5 in
  let angle := (inject_Z (Z.of_nat i) * Math_PI) / points - Math_PI / 2 in
  let isOuter := Nat.eqb (i mod 2) 0 in
  randomFactor <-
    (if isOuter then r <- random ;; ret (0.6 + r * 0.8)
     else r <- random ;; ret (0.9 + r * 0.2)) ;;
  let currRx := (if isOuter then outerRx else innerRx) * randomFactor in
  let currRy := (if isOuter then outerRy else innerRy) * randomFactor in
  let px := cx + currRx * Math_cos angle in
  let py := cy + currRy * Math_sin angle in
  ret [T (if Nat.eqb i 0 then "M" else "L"); V px; T ","; V py; T " "].

(** [for (let i = 0; i < points * 2; i++)]. *)
Fixpoint shoutLoop (w h : Q) (n i : nat) : Rand (list tok) :=
  match n with
  | O => ret []
  | S n' =>
      p <- shoutPoint w h i ;;
      rest <- shoutLoop w h n' (S i) ;;
      ret (p ++ rest)
  end.

Definition shoutBodyPath (w h : Q) : Rand (list tok) :=
  path <- shoutLoop w h (14 * 2) 0 ;;
  ret (path ++ [T "Z"]).

Definition generateBubblePaths (bubble : Bubble) : BubblePaths :=
  let w := width bubble in
  let h := height bubble in
  if isSpeech (type bubble) then
    mkPaths (speechBodyPath w h (parts bubble)) []
  else
    let seed := seedOf bubble in
    match type bubble with
    | Descriptive => mkPaths (roundedRect 5 w h) []
    | Thought =>
        mkPaths (evalRand (thoughtBodyPath w h) seed) (dotCircles (parts bubble))
    | Shout => mkPaths (evalRand (shoutBodyPath w h) seed) []
    | _ => mkPaths [] []
    end.

End Silhouettes.

(* ================================================================= *)
(** ** utils/textBoundsCalculator.ts *)

(** The geometry the browser reports for the [<path>] element built from a
    path string: [path.getTotalLength()] and [path.getPointAtLength(d)]. *)
Class SvgDom : Type := {
  getTotalLength : list tok -> Q;
  getPointAtLength : list tok -> Q -> Q * Q }.

Section TextBoundsCalculator.
Context {M : MathLib} {D : SvgDom}.

(** The loop of [findIntersectionsAtY]: [n] iterations are left, the next
    index is [i]; [wasAbove], [lastPoint] and [intersections] are the
    loop's variables. *)
Fixpoint findIntersectionsLoop (path : list tok) (targetY pathLength : Q)
    (n i : nat) (wasAbove : bool) (lastPoint : option (Q * Q))
    (intersections : list Q) : list Q :=
  match n with
  | O => intersections
  | S n' =>
      let precision := 100 in
      let distance := (inject_Z (Z.of_nat i) / precision) * pathLength in
      let point := getPointAtLength path distance in
      match lastPoint with
      | Some last =>
          let isAbove := Qltb (snd point) targetY in
          let intersections :=
            if negb (Bool.eqb wasAbove isAbove) then
              let t := (targetY - snd last) / (snd point - snd last) in
              let intersectionX := fst last + t * (fst point - fst last) in
              intersections ++ [intersectionX]
            else intersections in
          findIntersectionsLoop path targetY pathLength n' (S i)
            isAbove (Some point) intersections
      | None =>
          findIntersectionsLoop path targetY pathLength n' (S i)
            (Qltb (snd point) targetY) (Some point) intersections
      end
  end.

(** [for (let i = 0; i <= precision; i++)], with [precision = 100]. *)
Definition findIntersectionsAtY (path : list tok) (targetY pathLength : Q)
  : list Q :=
  findIntersectionsLoop path targetY pathLength 101 0 false None [].

(** One turn of the loop of [samplePathAtYPositions]. *)
Definition sampleAt (path : list tok) (totalHeight pathLength : Q)
    (numSamples : nat) (i : nat) : Q :=
  let y :=
    (inject_Z (Z.of_nat i) / (inject_Z (Z.of_nat numSamples) - 1))
    * totalHeight in
  let intersections := findIntersectionsAtY path y pathLength in
  match intersections with
  | x0 :: (_ :: _) as rest =>
      let minX := min_of x0 rest in
      let maxX := max_of x0 rest in
      let availableWidth := maxX - minX in
      availableWidth * 0.70
  | _ => totalHeight * 0.5
  end.

Definition samplePathAtYPositions (pathString : list tok) (totalHeight : Q)
    (numSamples : nat) : list Q :=
  let pathLength := getTotalLength pathString in
  map (sampleAt pathString totalHeight pathLength numSamples)
      (seq 0 numSamples).

Definition calculateTextBounds (bubble : Bubble) : Q -> Q :=
  let width := width bubble in
  let height := height bubble in
  match type bubble with
  | Descriptive | TextOnly =>
      let safeWidth := width * 0.92 in
      fun _ => safeWidth
  | _ =>
      let bodyPath := bodyPath (generateBubblePaths bubble) in
      let samples := samplePathAtYPositions bodyPath height 20 in
      fun y =>
        let relativeY := y / height in
        let sampleIndex :=
          Qfloor (relativeY * (inject_Z (Z.of_nat (List.length samples)) - 1)) in
        if (sampleIndex <? 0)%Z || (Z.of_nat (List.length samples) <=? sampleIndex)%Z
        then width * 0.5
        else nth (Z.to_nat sampleIndex) samples 0
  end.

End TextBoundsCalculator.

(* ================================================================= *)
(** ** utils/textAutoFit.ts *)

Record SafeZone : Type := mkSafeZone {
  widthFactor : Q;
  heightFactor : Q }.

(** The table is total on [BubbleType]; the lookup is an [option] because
    the source guards it with [||]. *)
Definition SAFE_TEXT_ZONES (t : BubbleType) : option SafeZone :=
  match t with
  | Shout => Some (mkSafeZone 0.50 0.775)
  | Thought => Some (mkSafeZone 0.50 0.825)
  | SpeechDown => Some (mkSafeZone 0.83 0.915)
  | SpeechUp => Some (mkSafeZone 0.83 0.915)
  | Whisper => Some (mkSafeZone 0.80 0.90)
  | Descriptive => Some (mkSafeZone 0.90 0.925)
  | TextOnly => Some (mkSafeZone 0.95 0.95)
  end.

Definition getLineHeightOffset (size : Q) : Q :=
  let reduction :=
    if Qltb size 10 then 0.2 + (size - 5) * 0.02
    else 0.3 + (size - 10) * 0.01 in
  size * (1 - Math_min 0.8 reduction).

Record TextFitResult : Type := mkFit {
  fit_fontSize : Q;
  textWidth : xnum;
  textHeight : Q;
  fits : bool;
  scaleFactor : Q }.

Record TextBounds : Type := mkBounds {
  tb_width : Q;
  tb_height : Q;
  tb_x : Q;
  tb_y : Q }.

Definition getTextBounds (bubble : Bubble) : TextBounds :=
  let safeZone :=
    match SAFE_TEXT_ZONES (type bubble) with
    | Some z => z
    | None => mkSafeZone 0.80 0.75
    end in
  let width_ := width bubble * widthFactor safeZone in
  let height_ := height bubble * heightFactor safeZone in
  let x_ := (width bubble - width_) / 2 in
  let y_ := (height bubble - height_) / 2 in
  mkBounds width_ height_ x_ y_.

(** Strings are sequences of code units below 256. [\s] on them: tab, line
    feed, vertical tab, form feed, carriage return, space, no-break space. *)
Definition isSpace (c : ascii) : bool :=
  let n := nat_of_ascii c in
  ((9 <=? n) && (n <=? 13))%nat || (n =? 32)%nat || (n =? 160)%nat.

Fixpoint hasGt (s : string) : bool :=
  match s with
  | EmptyString => false
  | String c s' => Ascii.eqb c ">" || hasGt s'
  end.

(** [text.replace(/<[^>]*>/g, '')]: [inTag] holds between a ['<'] that has a
    ['>'] after it and that ['>']. *)
Fixpoint stripTagsFrom (inTag : bool) (s : string) : string :=
  match s with
  | EmptyString => EmptyString
  | String c s' =>
      if inTag then
        if Ascii.eqb c ">" then stripTagsFrom false s' else stripTagsFrom true s'
      else if Ascii.eqb c "<" && hasGt s' then stripTagsFrom true s'
      else String c (stripTagsFrom false s')
  end.

Definition stripTags (s : string) : string := stripTagsFrom false s.

(** [plainText.split(/\s+/)]: [cur] is the piece being read, [inSep] holds
    inside a run of white space. *)
Fixpoint splitWsFrom (inSep : bool) (cur : string) (s : string) : list string :=
  match s with
  | EmptyString => [cur]
  | String c s' =>
      if isSpace c then
        if inSep then splitWsFrom true cur s'
        else cur :: splitWsFrom true EmptyString s'
      else splitWsFrom false (cur ++ String c EmptyString)%string s'
  end.

Definition splitWs (s : string) : list string := splitWsFrom false EmptyString s.

(** A string is truthy when it is not empty. *)
Definition truthy (s : string) : bool :=
  match s with
  | EmptyString => false
  | _ => true
  end.

Record Dimensions : Type := mkDim {
  dim_width : xnum;
  dim_height : Q;
  dim_lines : nat }.

(** The 2D context of a fresh canvas, when the host gives one: after
    [ctx.font = `${fontSize}px ${fontFamily}`], [ctx.measureText(s).width] is
    [m fontSize fontFamily s]. *)
Class Canvas : Type := {
  getContext2d : option (Q -> string -> string -> Q) }.

Section TextAutoFit.
Context {C : Canvas}.

(** The [for (const word of words)] loop of [measureText] over the loop's
    variables [lines] and [currentLine]. *)
Fixpoint wrapWords (measure : string -> Q) (maxWidth : Q)
    (words : list string) (lines : list string) (currentLine : string)
  : list string * string :=
  match words with
  | [] => (lines, currentLine)
  | word :: words' =>
      let testLine :=
        if truthy currentLine then (currentLine ++ " " ++ word)%string
        else word in
      let metrics := measure testLine in
      if Qltb maxWidth metrics && truthy currentLine then
        wrapWords measure maxWidth words' (lines ++ [currentLine]) word
      else
        wrapWords measure maxWidth words' lines testLine
  end.

Definition measureText (text fontFamily : string) (fontSize maxWidth : Q)
  : Dimensions :=
  match getContext2d with
  | None => mkDim (Num maxWidth) (fontSize * 1.4) 1
  | Some ctx =>
      let measure := ctx fontSize fontFamily in
      let plainText := stripTags text in
      let words := splitWs plainText in
      let (lines, currentLine) := wrapWords measure maxWidth words [] "" in
      let lines :=
        if truthy currentLine then lines ++ [currentLine] else lines in
      let lineHeight := fontSize + getLineHeightOffset fontSize in
      let totalHeight := inject_Z (Z.of_nat (List.length lines)) * lineHeight in
      let maxLineWidth := Math_max_list (map measure lines) in
      mkDim maxLineWidth totalHeight (List.length lines)
  end.

(** [dimensions.height <= textBounds.height &&
     dimensions.width <= textBounds.width]. *)
Definition fitsBounds (dimensions : Dimensions) (textBounds : TextBounds)
  : bool :=
  Qle_bool (dim_height dimensions) (tb_height textBounds)
  && xle_bool (dim_width dimensions) (tb_width textBounds).

(** The [while (fontSize >= minFontSize && iterations < maxIterations)] loop
    of [calculateOptimalFontSize]; [fuel] is [maxIterations - iterations].
    [Some] is the [return] inside the loop, [None] leaving the loop. *)
Fixpoint fitLoop (text fontFamily : string) (textBounds : TextBounds)
    (targetFontSize minFontSize : Q) (fuel : nat) (fontSize : Q)
  : option TextFitResult :=
  match fuel with
  | O => None
  | S fuel' =>
      if Qle_bool minFontSize fontSize then
        let dimensions :=
          measureText text fontFamily fontSize (tb_width textBounds) in
        if fitsBounds dimensions textBounds then
          Some (mkFit fontSize (dim_width dimensions) (dim_height dimensions)
                      true (fontSize / targetFontSize))
        else
          fitLoop text fontFamily textBounds targetFontSize minFontSize
                  fuel' (Math_max minFontSize (fontSize - 1))
      else None
  end.

Definition calculateOptimalFontSize (text : string) (bubble : Bubble)
    (fontFamily : string) (minFontSize maxFontSize : Q) : TextFitResult :=
  let textBounds := getTextBounds bubble in
  let targetFontSize := fontSize bubble in
  let fontSize := Math_min targetFontSize maxFontSize in
  let maxIterations := 20%nat in
  match fitLoop text fontFamily textBounds targetFontSize minFontSize
                maxIterations fontSize with
  | Some result => result
  | None =>
      let dimensions :=
        measureText text fontFamily minFontSize (tb_width textBounds) in
      mkFit minFontSize (dim_width dimensions) (dim_height dimensions)
            (Qle_bool (dim_height dimensions) (tb_height textBounds))
            (minFontSize / targetFontSize)
  end.

(** The test the loop makes at font size [s]. *)
Definition fitsAt (text : string) (bubble : Bubble) (fontFamily : string)
    (s : Q) : bool :=
  fitsBounds (measureText text fontFamily s (tb_width (getTextBounds bubble)))
             (getTextBounds bubble).

(** What [calculateOptimalFontSize] returns once the loop is left. *)
Definition fallbackFit (text : string) (bubble : Bubble) (fontFamily : string)
    (minFontSize : Q) : TextFitResult :=
  let textBounds := getTextBounds bubble in
  let dimensions :=
    measureText text fontFamily minFontSize (tb_width textBounds) in
  mkFit minFontSize (dim_width dimensions) (dim_height dimensions)
        (Qle_bool (dim_height dimensions) (tb_height textBounds))
        (minFontSize / fontSize bubble).

Definition detectTextOverflow (text : string) (bubble : Bubble)
    (fontFamily : string) : bool :=
  let textBounds := getTextBounds bubble in
  let dimensions :=
    measureText text fontFamily (fontSize bubble) (tb_width textBounds) in
  Qltb (tb_height textBounds) (dim_height dimensions)
  || xgt_bool (dim_width dimensions) (tb_width textBounds).

(** [{ ...bubble, fontSize: v }]. *)
Definition with_fontSize (bubble : Bubble) (v : Q) : Bubble :=
  mkBubble (id bubble) (type bubble) (text bubble) (x bubble) (y bubble)
           (width bubble) (height bubble) (fontFamily bubble) v
           (textColor bubble) (borderColor bubble) (zIndex bubble)
           (parts bubble) (shapeVariant bubble).

(** The default arguments [minFontSize = 8], [maxFontSize = 40] are those
    [autoFitBubbleText] calls [calculateOptimalFontSize] with. *)
Definition autoFitBubbleText (bubble : Bubble) (fontFamily : string) : Bubble :=
  if BubbleType_eqb (type bubble) TextOnly
     || negb (truthy (text bubble))
     || String.eqb (text bubble) "Votre texte ici"
  then bubble
  else
    let result := calculateOptimalFontSize (text bubble) bubble fontFamily 8 40 in
    if Qeq_bool (fit_fontSize result) (fontSize bubble) then bubble
    else with_fontSize bubble (fit_fontSize result).

End TextAutoFit.

(** Two bubbles that agree on every field but, possibly, [fontSize]. *)
Definition sameExceptFontSize (a b : Bubble) : Prop :=
  id a = id b /\ type a = type b /\ text a = text b
  /\ x a = x b /\ y a = y b /\ width a = width b /\ height a = height b
  /\ fontFamily a = fontFamily b
  /\ textColor a = textColor b /\ borderColor a = borderColor b
  /\ zIndex a = zIndex b /\ parts a = parts b
  /\ shapeVariant a = shapeVariant b.

(* ================================================================= *)
(** ** The gesture handler of BubbleItem ([handleMouseMove]) *)

Inductive InteractionMode : Type :=
| Move | Resize | MovePart | MoveTailTip | MoveTailBase.

Inductive ActiveHandle : Type :=
| tl | tc | tr | ml | mr | bl | bc | br.

(** [activeHandle?.includes('l')] and its three siblings. *)
Definition includes_l (h : option ActiveHandle) : bool :=
  match h with Some tl | Some ml | Some bl => true | _ => false end.
Definition includes_r (h : option ActiveHandle) : bool :=
  match h with Some tr | Some mr | Some br => true | _ => false end.
Definition includes_t (h : option ActiveHandle) : bool :=
  match h with Some tl | Some tc | Some tr => true | _ => false end.
Definition includes_b (h : option ActiveHandle) : bool :=
  match h with Some bl | Some bc | Some br => true | _ => false end.

(** The snapshot taken by [handleBubbleMouseDown]. The six optional numbers
    are read under a non-null assertion and only in the modes whose snapshot
    sets them, so they are plain numbers here. *)
Record Interaction : Type := mkInteraction {
  mode : option InteractionMode;
  activeHandle : option ActiveHandle;
  activePartId : option string;
  startX : Q;
  startY : Q;
  initialBubbleX : Q;
  initialBubbleY : Q;
  initialBubbleWidth : Q;
  initialBubbleHeight : Q;
  initialPartOffsetX : Q;
  initialPartOffsetY : Q;
  initialTipX : Q;
  initialTipY : Q;
  initialBaseCX : Q;
  initialBaseCY : Q;
  initialParts : option (list BubblePart) }.

(** [{ ...bubble, x, y, width, height, parts }]. *)
Definition with_geometry (bubble : Bubble) (x_ y_ width_ height_ : Q)
    (parts_ : list BubblePart) : Bubble :=
  mkBubble (id bubble) (type bubble) (text bubble) x_ y_ width_ height_
           (fontFamily bubble) (fontSize bubble) (textColor bubble)
           (borderColor bubble) (zIndex bubble) parts_ (shapeVariant bubble).

Definition with_parts (bubble : Bubble) (parts_ : list BubblePart) : Bubble :=
  with_geometry bubble (x bubble) (y bubble) (width bubble) (height bubble) parts_.

(** The callback of [origParts.map] in the resize case. The two scale
    factors divide by the width and the height of the snapshot; the
    embedding follows the code for a snapshot of non-zero size (at zero the
    code computes with Infinity and NaN, which the rationals do not hold, and
    a property of the scaled parts assumes the size is not zero). *)
Definition resizePart (origW origH newWidth newHeight : Q) (p : BubblePart)
  : BubblePart :=
  let scaleX := newWidth / origW in
  let scaleY := newHeight / origH in
  let eps := 0.0001 in
  match p with
  | SpeechTail partOrig =>
      let anchoredBottom := Qltb (Math_abs (baseCY partOrig - origH)) eps in
      let anchoredTop := Qltb (Math_abs (baseCY partOrig)) eps in
      let anchoredRight := Qltb (Math_abs (baseCX partOrig - origW)) eps in
      let anchoredLeft := Qltb (Math_abs (baseCX partOrig)) eps in
      let baseCX_ :=
        if anchoredRight then newWidth
        else if anchoredLeft then 0
        else Math_max 0 (Math_min newWidth (baseCX partOrig * scaleX)) in
      let baseCY_ :=
        if anchoredBottom then newHeight
        else if anchoredTop then 0
        else Math_max 0 (Math_min newHeight (baseCY partOrig * scaleY)) in
      let dx := tipX partOrig - baseCX partOrig in
      let dy := tipY partOrig - baseCY partOrig in
      SpeechTail
        (mkTail (tail_id partOrig) baseCX_ baseCY_
                (Math_max 1 (baseWidth partOrig * scaleX))
                (baseCX_ + dx * scaleX) (baseCY_ + dy * scaleY)
                (initialLength partOrig)
                (Math_max 1 (initialBaseWidth partOrig * scaleX)))
  | ThoughtDot partOrig =>
      ThoughtDot
        (mkDot (dot_id partOrig)
               (Math_max 0 (Math_min newWidth ((offsetX partOrig / origW) * newWidth)))
               (Math_max 0 (Math_min newHeight ((offsetY partOrig / origH) * newHeight)))
               (Math_max 2 (size partOrig * ((scaleX + scaleY) / 2))))
  end.

(** [findIndex(p => p.id === activePartId)] followed by the replacement of
    the part found, when [f] accepts its type. *)
Fixpoint updatePart (pid : option string) (f : BubblePart -> option BubblePart)
    (ps : list BubblePart) : list BubblePart :=
  match ps with
  | [] => []
  | p :: ps' =>
      if match pid with Some i => String.eqb (part_id p) i | None => false end
      then match f p with Some p' => p' :: ps' | None => p :: ps' end
      else p :: updatePart pid f ps'
  end.

Definition moveTailBase (interaction : Interaction) (w h deltaX deltaY : Q)
    (part : SpeechTailPart) : SpeechTailPart :=
  let localMouseX := initialBaseCX interaction + deltaX in
  let localMouseY := initialBaseCY interaction + deltaY in
  let dx := localMouseX - w / 2 in
  let dy := localMouseY - h / 2 in
  let initBaseCX := initialBaseCX interaction in
  let initBaseCY := initialBaseCY interaction in
  let eps := 0.001 in
  let anchoredBottom := Qltb (Math_abs (initBaseCY - h)) eps in
  let anchoredTop := Qltb (Math_abs initBaseCY) eps in
  let anchoredRight := Qltb (Math_abs (initBaseCX - w)) eps in
  let anchoredLeft := Qltb (Math_abs initBaseCX) eps in
  let '(baseCX_, baseCY_) :=
    if anchoredBottom || anchoredTop then
      (Math_max 0 (Math_min w localMouseX), if anchoredBottom then h else 0)
    else if anchoredLeft || anchoredRight then
      (if anchoredRight then w else 0, Math_max 0 (Math_min h localMouseY))
    else if Qltb (Math_abs (dy / h)) (Math_abs (dx / w)) then
      (if Qltb 0 dx then w else 0,
       h / 2 + dy * (w / (2 * Math_abs (num_or dx 1))))
    else
      (w / 2 + dx * (h / (2 * Math_abs (num_or dy 1))),
       if Qltb 0 dy then h else 0) in
  let relDX := initialTipX interaction - initBaseCX in
  let relDY := initialTipY interaction - initBaseCY in
  mkTail (tail_id part)
         (Math_max 0 (Math_min baseCX_ w)) (Math_max 0 (Math_min baseCY_ h))
         (baseWidth part) (baseCX_ + relDX) (baseCY_ + relDY)
         (initialLength part) (initialBaseWidth part).

(** The bubble [handleMouseMove] hands to [onUpdate] for a pointer at
    [(clientX, clientY)]. *)
Definition handleMouseMove (interaction : Interaction) (bubble : Bubble)
    (clientX clientY : Q) : Bubble :=
  let deltaX := clientX - startX interaction in
  let deltaY := clientY - startY interaction in
  match mode interaction with
  | Some Move =>
      with_geometry bubble (initialBubbleX interaction + deltaX)
                    (initialBubbleY interaction + deltaY)
                    (width bubble) (height bubble) (parts bubble)
  | Some Resize =>
      let h := activeHandle interaction in
      let dw := 0 in
      let dw := if includes_l h then - deltaX else dw in
      let dw := if includes_r h then deltaX else dw in
      let dh := 0 in
      let dh := if includes_t h then - deltaY else dh in
      let dh := if includes_b h then deltaY else dh in
      let newWidth := Math_max MIN_BUBBLE_WIDTH (initialBubbleWidth interaction + dw) in
      let newHeight := Math_max MIN_BUBBLE_HEIGHT (initialBubbleHeight interaction + dh) in
      let newX :=
        if includes_l h then initialBubbleX interaction + deltaX
        else initialBubbleX interaction in
      let newY :=
        if includes_t h then initialBubbleY interaction + deltaY
        else initialBubbleY interaction in
      let origW := initialBubbleWidth interaction in
      let origH := initialBubbleHeight interaction in
      let origParts :=
        match initialParts interaction with
        | Some ps => ps
        | None => parts bubble
        end in
      with_geometry bubble newX newY newWidth newHeight
                    (map (resizePart origW origH newWidth newHeight) origParts)
  | Some MovePart =>
      with_parts bubble
        (updatePart (activePartId interaction)
           (fun p => match p with
                     | ThoughtDot d =>
                         Some (ThoughtDot
                                 (mkDot (dot_id d)
                                        (initialPartOffsetX interaction + deltaX)
                                        (initialPartOffsetY interaction + deltaY)
                                        (size d)))
                     | SpeechTail _ => None
                     end)
           (parts bubble))
  | Some MoveTailTip =>
      with_parts bubble
        (updatePart (activePartId interaction)
           (fun p => match p with
                     | SpeechTail t =>
                         Some (SpeechTail
                                 (mkTail (tail_id t) (baseCX t) (baseCY t)
                                         (baseWidth t)
                                         (initialTipX interaction + deltaX)
                                         (initialTipY interaction + deltaY)
                                         (initialLength t) (initialBaseWidth t)))
                     | ThoughtDot _ => None
                     end)
           (parts bubble))
  | Some MoveTailBase =>
      with_parts bubble
        (updatePart (activePartId interaction)
           (fun p => match p with
                     | SpeechTail t =>
                         Some (SpeechTail
                                 (moveTailBase interaction (width bubble)
                                               (height bubble) deltaX deltaY t))
                     | ThoughtDot _ => None
                     end)
           (parts bubble))
  | None => with_parts bubble (parts bubble)
  end.

(* ================================================================= *)
(** ** App.tsx: [handleAddBubble] *)

(** The decimal string of a non-negative integer (a template literal
    interpolating [Date.now()] or a loop index). *)
Definition showN (n : N) : string := NilZero.string_of_uint (N.to_uint n).

(** The loop that creates the dots of a new Thought bubble: [n] iterations
    are left, the next index is [i]. *)
Fixpoint newDots (now : N) (numDots : nat) (baseDotSize startOffsetX startOffsetY : Q)
    (n i : nat) : list BubblePart :=
  match n with
  | O => []
  | S n' =>
      let iq := inject_Z (Z.of_nat i) in
      let nd := inject_Z (Z.of_nat numDots) in
      let size_ :=
        Math_max MIN_DOT_SIZE
          (baseDotSize - iq * (baseDotSize / Math_max 1 (nd - 1) * 0.5)) in
      ThoughtDot
        (mkDot ("part-" ++ showN now ++ "-" ++ showN (N.of_nat i))%string
               (startOffsetX - (nd * (size_ + 5)) / 2 + iq * (size_ + 5) + size_ / 2)
               (startOffsetY + iq * (size_ / 2 + 2) + 10 + size_ / 2)
               size_)
      :: newDots now numDots baseDotSize startOffsetX startOffsetY n' (S i)
  end.

(** The bubble [handleAddBubble] appends for a click at [(x, y)]; [None] when
    no image is loaded. [now] is [Date.now()], [nextZIndex] the value of the
    counter before its increment. *)
Definition handleAddBubble (uploadedImage : bool) (canvasSize : Q * Q)
    (toolSettings : ToolSettings) (now : N) (nextZIndex : Z) (x_ y_ : Q)
  : option Bubble :=
  if negb uploadedImage then None
  else
    let newBubbleId := ("bubble-" ++ showN now)%string in
    let initialWidth := 150 in
    let initialHeight := initialWidth * 0.6 in
    let bubbleX :=
      Math_max 0 (Math_min (x_ - initialWidth / 2) (fst canvasSize - initialWidth)) in
    let bubbleY :=
      Math_max 0 (Math_min (y_ - initialHeight / 2) (snd canvasSize - initialHeight)) in
    let active := activeBubbleType toolSettings in
    let newParts :=
      if existsb (BubbleType_eqb active) BUBBLE_REQUIRES_PARTS then
        let baseCX_ := initialWidth / 2 in
        let currentDefaultTailBaseWidth :=
          Math_max MIN_TAIL_BASE_WIDTH (defaultTailBaseWidth toolSettings) in
        let currentDefaultTailLength :=
          Math_max MIN_TAIL_LENGTH (defaultTailLength toolSettings) in
        match active with
        | SpeechDown | Whisper =>
            let baseCY_ := initialHeight in
            [SpeechTail
               (mkTail ("part-" ++ showN now)%string baseCX_ baseCY_
                       currentDefaultTailBaseWidth baseCX_
                       (baseCY_ + currentDefaultTailLength)
                       currentDefaultTailLength currentDefaultTailBaseWidth)]
        | SpeechUp =>
            let baseCY_ := 0 in
            [SpeechTail
               (mkTail ("part-" ++ showN now)%string baseCX_ baseCY_
                       currentDefaultTailBaseWidth baseCX_
                       (baseCY_ - currentDefaultTailLength)
                       currentDefaultTailLength currentDefaultTailBaseWidth)]
        | Thought =>
            let numDots := Nat.max MIN_DOT_COUNT (defaultDotCount toolSettings) in
            let baseDotSize := Math_max MIN_DOT_SIZE (defaultDotSize toolSettings) in
            newDots now numDots baseDotSize (initialWidth / 2) initialHeight
                    numDots 0
        | _ => []
        end
      else [] in
    Some (mkBubble newBubbleId active "Votre texte ici" bubbleX bubbleY
                   initialWidth initialHeight
                   (activeFontFamily toolSettings) (activeFontSize toolSettings)
                   (activeTextColor toolSettings) (activeBorderColor toolSettings)
                   nextZIndex newParts None).

(** The bubbles the editor can hold: one just added, or the result of a
    pointer move of any gesture on a bubble it holds. *)
Inductive produced : Bubble -> Prop :=
| produced_add img cs ts now z px py b :
    handleAddBubble img cs ts now z px py = Some b -> produced b
| produced_move i b px py :
    produced b -> produced (handleMouseMove i b px py).

(** The bubbles of a resize: a pointer move in [resize] mode on any bubble,
    whatever its size was. Together with [produced] these are the bubbles the
    engine hands to [onUpdate]. *)
Inductive engineOutput : Bubble -> Prop :=
| out_resize i b px py :
    mode i = Some Resize -> engineOutput (handleMouseMove i b px py)
| out_produced b : produced b -> engineOutput b.

(* ================================================================= *)
(** ** The earlier copy of textAutoFit.ts

    The repository holds a second, older copy of the module: other safe-zone
    factors, a fixed padding for the regular types and a line height of
    [1.4 * fontSize]. Its [calculateOptimalFontSize] and [autoFitBubbleText]
    are the same text as the current ones. *)

Module Legacy.

Definition SAFE_TEXT_ZONES (t : BubbleType) : SafeZone :=
  match t with
  | Shout => mkSafeZone 0.50 0.55
  | Thought => mkSafeZone 0.50 0.65
  | SpeechDown => mkSafeZone 0.83 0.83
  | SpeechUp => mkSafeZone 0.83 0.83
  | Whisper => mkSafeZone 0.80 0.80
  | Descriptive => mkSafeZone 0.90 0.85
  | TextOnly => mkSafeZone 0.95 0.90
  end.

Definition getTextBounds (bubble : Bubble) : TextBounds :=
  match type bubble with
  | Shout | Thought =>
      let safeZone := SAFE_TEXT_ZONES (type bubble) in
      let textWidth := width bubble * widthFactor safeZone in
      let textHeight := height bubble * heightFactor safeZone in
      mkBounds textWidth textHeight
               ((width bubble - textWidth) / 2) ((height bubble - textHeight) / 2)
  | _ =>
      let padding := 10 in
      mkBounds (width bubble - padding * 2) (height bubble - padding * 2)
               padding padding
  end.

Section TextAutoFit.
Context {C : Canvas}.

Definition measureText (text fontFamily : string) (fontSize maxWidth : Q)
  : Dimensions :=
  match getContext2d with
  | None => mkDim (Num maxWidth) (fontSize * 1.4) 1
  | Some ctx =>
      let measure := ctx fontSize fontFamily in
      let plainText := stripTags text in
      let words := splitWs plainText in
      let (lines, currentLine) := wrapWords measure maxWidth words [] "" in
      let lines :=
        if truthy currentLine then lines ++ [currentLine] else lines in
      let lineHeight := fontSize * 1.4 in
      let totalHeight := inject_Z (Z.of_nat (List.length lines)) * lineHeight in
      let maxLineWidth := Math_max_list (map measure lines) in
      mkDim maxLineWidth totalHeight (List.length lines)
  end.

Fixpoint fitLoop (text fontFamily : string) (textBounds : TextBounds)
    (targetFontSize minFontSize : Q) (fuel : nat) (fontSize : Q)
  : option TextFitResult :=
  match fuel with
  | O => None
  | S fuel' =>
      if Qle_bool minFontSize fontSize then
        let dimensions :=
          measureText text fontFamily fontSize (tb_width textBounds) in
        if fitsBounds dimensions textBounds then
          Some (mkFit fontSize (dim_width dimensions) (dim_height dimensions)
                      true (fontSize / targetFontSize))
        else
          fitLoop text fontFamily textBounds targetFontSize minFontSize
                  fuel' (Math_max minFontSize (fontSize - 1))
      else None
  end.

Definition calculateOptimalFontSize (text : string) (bubble : Bubble)
    (fontFamily : string) (minFontSize maxFontSize : Q) : TextFitResult :=
  let textBounds := getTextBounds bubble in
  let targetFontSize := fontSize bubble in
  let fontSize := Math_min targetFontSize maxFontSize in
  let maxIterations := 20%nat in
  match fitLoop text fontFamily textBounds targetFontSize minFontSize
                maxIterations fontSize with
  | Some result => result
  | None =>
      let dimensions :=
        measureText text fontFamily minFontSize (tb_width textBounds) in
      mkFit minFontSize (dim_width dimensions) (dim_height dimensions)
            (Qle_bool (dim_height dimensions) (tb_height textBounds))
            (minFontSize / targetFontSize)
  end.

Definition autoFitBubbleText (bubble : Bubble) (fontFamily : string) : Bubble :=
  if BubbleType_eqb (type bubble) TextOnly
     || negb (truthy (text bubble))
     || String.eqb (text bubble) "Votre texte ici"
  then bubble
  else
    let result := calculateOptimalFontSize (text bubble) bubble fontFamily 8 40 in
    if Qeq_bool (fit_fontSize result) (fontSize bubble) then bubble
    else with_fontSize bubble (fit_fontSize result).

End TextAutoFit.

End Legacy.

(* ================================================================= *)
(** ** Reading an outline back *)

Definition isQuadOp (s : string) : bool :=
  String.eqb s " Q " || String.eqb s " Q".

(** The quadratic curves of an outline, in order: for each [Q] command its
    control point and its end point. *)
Fixpoint quadCurves (p : list tok) : list ((Q * Q) * (Q * Q)) :=
  match p with
  | [] => []
  | t :: p' =>
      match t with
      | T s =>
          if isQuadOp s then
            match p' with
            | V a :: T _ :: V b :: T _ :: V c :: T _ :: V d :: _ =>
                [((a, b), (c, d))]
            | _ => []
            end
          else []
      | V _ => []
      end ++ quadCurves p'
  end.

(** An outline carries a tail cut when it has a quadratic curve. *)
Definition hasTailCut (p : list tok) : bool :=
  match quadCurves p with
  | [] => false
  | _ => true
  end.

Inductive Edge : Type := Bottom | Top | Right | Left.

(** The edge [generateBubblePaths] cuts the tail into, in the order of its
    tests on the clamped base point. *)
Definition tailEdge (w h : Q) (tail : SpeechTailPart) : option Edge :=
  let clampedBaseCX := Math_max 0 (Math_min w (baseCX tail)) in
  let clampedBaseCY := Math_max 0 (Math_min h (baseCY tail)) in
  if Qeq_bool clampedBaseCY h then Some Bottom
  else if Qeq_bool clampedBaseCY 0 then Some Top
  else if Qeq_bool clampedBaseCX w then Some Right
  else if Qeq_bool clampedBaseCX 0 then Some Left
  else None.

(** The two points of the base on that edge, first the one the outline
    reaches first. *)
Definition tailBasePoints (w h : Q) (tail : SpeechTailPart) (e : Edge)
  : (Q * Q) * (Q * Q) :=
  let r := Math_min w h / 2 in
  let halfBase := baseWidth tail / 2 in
  let clampedBaseCX := Math_max 0 (Math_min w (baseCX tail)) in
  let clampedBaseCY := Math_max 0 (Math_min h (baseCY tail)) in
  let leftBaseX := Math_max r (clampedBaseCX - halfBase) in
  let rightBaseX := Math_min (w - r) (clampedBaseCX + halfBase) in
  let topBaseY := Math_max r (clampedBaseCY - halfBase) in
  let bottomBaseY := Math_min (h - r) (clampedBaseCY + halfBase) in
  match e with
  | Bottom => ((rightBaseX, h), (leftBaseX, h))
  | Top => ((leftBaseX, 0), (rightBaseX, 0))
  | Right => ((w, topBaseY), (w, bottomBaseY))
  | Left => ((0, bottomBaseY), (0, topBaseY))
  end.

(** The control point the code gives the curve at base point [pt]. *)
Definition tailControl (h : Q) (tail : SpeechTailPart) (pt : Q * Q) : Q * Q :=
  let clampedBaseCY := Math_max 0 (Math_min h (baseCY tail)) in
  (fst pt + (tipX tail - fst pt) * 0.25,
   clampedBaseCY + (tipY tail - clampedBaseCY) * 0.5).

Section ThoughtGeometry.
Context {M : MathLib}.

(** The point at angle [a] of the ellipse of centre [(cx, cy)] and radii
    [rx], [ry]. *)
Definition ellipsePoint (cx cy rx ry a : Q) : Q * Q :=
  (cx + rx * Math_cos a, cy + ry * Math_sin a).

(** The angle at which lobe [i] of [lobes] starts; the first starts at the
    top. *)
Definition lobeAngle (lobes i : Q) : Q :=
  (i / lobes) * Math_PI * 2 - Math_PI / 2.

(** Lobe [i] as a curve: its control point is the ellipse point at the
    lobe's mid angle pushed outward by the factor [f], its end point the
    ellipse point where the next lobe starts. *)
Definition lobeCurve (cx cy rx ry lobes : Q) (i : nat) (f : Q)
  : (Q * Q) * (Q * Q) :=
  let i := inject_Z (Z.of_nat i) in
  let midAngle := (lobeAngle lobes i + lobeAngle lobes (i + 1)) / 2 in
  (ellipsePoint cx cy (rx * f) (ry * f) midAngle,
   ellipsePoint cx cy rx ry (lobeAngle lobes (i + 1))).

End ThoughtGeometry.

(* ================================================================= *)
(** ** The specification's wording, for comparison *)

(** The base point is on an edge "within an epsilon of 0 or of
    width/height". *)
Definition spec_nearEdge (eps w h : Q) (tail : SpeechTailPart) : bool :=
  Qltb (Math_abs (baseCY tail - h)) eps || Qltb (Math_abs (baseCY tail)) eps
  || Qltb (Math_abs (baseCX tail - w)) eps || Qltb (Math_abs (baseCX tail)) eps.

(** The control point as the specification words it: 25% of the way from the
    base point toward the tip along the edge axis, the cross-axis coordinate
    held at the base edge's coordinate. *)
Definition spec_tailControl (e : Edge) (pt tip : Q * Q) : Q * Q :=
  match e with
  | Bottom | Top => (fst pt + (fst tip - fst pt) * 0.25, snd pt)
  | Right | Left => (fst pt, snd pt + (snd tip - snd pt) * 0.25)
  end.

(** The font-size search as the specification words it: measure at the
    current size, return it when it fits, otherwise decrement by 1 and retry,
    "capped at maxIterations = 20 or until size < min". *)
Fixpoint spec_search (fitsAt : Q -> bool) (minFontSize : Q) (fuel : nat)
    (size_ : Q) : option Q :=
  match fuel with
  | O => None
  | S fuel' =>
      if Qltb size_ minFontSize then None
      else if fitsAt size_ then Some size_
      else spec_search fitsAt minFontSize fuel' (size_ - 1)
  end.

(** The sizes the code measures, one per iteration: [candidate k] is the size
    of iteration [k]. *)
Fixpoint candidate (minFontSize start : Q) (k : nat) : Q :=
  match k with
  | O => start
  | S k' => Math_max minFontSize (candidate minFontSize start k' - 1)
  end.

(* ================================================================= *)
(** ** Test doubles for the host interfaces *)

(** Polynomial stand-ins for [Math.sin], [Math.cos] and a rational [Math.PI]. *)
Definition polyMath : MathLib := {|
  Math_sin := fun a => a - a * a * a / 6;
  Math_cos := fun a => 1 - a * a / 2;
  Math_PI := 355 # 113 |}.

(** A canvas whose every glyph is [0.6 * fontSize] wide. *)
Definition monoCanvas : Canvas := {|
  getContext2d :=
    Some (fun fontSize _ s => inject_Z (Z.of_nat (String.length s)) * fontSize * 0.6) |}.

(** The point at distance [d] along the rectangle
    [(0,0) (w,0) (w,h) (0,h)], walked from the top-left corner. *)
Definition boxPoint (w h d : Q) : Q * Q :=
  if Qle_bool d w then (d, 0)
  else if Qle_bool d (w + h) then (w, d - w)
  else if Qle_bool d (w + h + w) then (w - (d - w - h), h)
  else (0, h - (d - w - h - w)).

(** A path geometry that walks the bounding box of a tail-less pill outline
    (its width and height are the tokens 9 and 23 of [roundedRect]). *)
Definition boxDom : SvgDom :=
  let dims p :=
    match nth 9 p (V 0), nth 23 p (V 0) with
    | V w, V h => (w, h)
    | _, _ => (0, 0)
    end in
  {| getTotalLength := fun p => let (w, h) := dims p in 2 * (w + h);
     getPointAtLength := fun p d => let (w, h) := dims p in boxPoint w h d |}.

(** The bubbles the examples use. *)
Definition speechBubble (w h fontSize_ : Q) (text_ : string)
    (parts_ : list BubblePart) : Bubble :=
  mkBubble "bubble-1" SpeechDown text_ 0 0 w h Comic fontSize_
           "#000000" "#000000" 1 parts_ None.

Definition thoughtBubble (id_ : string) (variant : option Q) : Bubble :=
  mkBubble id_ Thought "Votre texte ici" 0 0 150 90 Comic 12
           "#000000" "#000000" 1 [] variant.

(** A host that gives no 2D context ([getContext('2d')] is [null]). *)
Definition noCanvas : Canvas := {| getContext2d := None |}.

(** A narrow, tall bubble without a tail. *)
Definition tallBubble : Bubble := speechBubble 50 200 12 "Bonjour" [].

(** A bubble whose font size (5, the editor's smallest) is below the
    fitter's minimum of 8. *)
Definition smallFontBubble : Bubble := speechBubble 150 90 5 "Hi" [].

(** A bubble with a fractional font size. *)
Definition halfSizeBubble : Bubble :=
  speechBubble 50 32 (17 # 2) "aaaaa bbbbb" [].

(** A small bubble holding one long word. *)
Definition longWordBubble : Bubble :=
  speechBubble 50 30 12 "Supercalifragilistic" [].

(** The tail of the specification's scenario: base at [(75, 90)] on the bottom
    edge of a 150 x 90 bubble, base width 20, tip at [(75, 120)]. *)
Definition scenarioTail : SpeechTailPart :=
  mkTail "part-1" 75 90 20 75 120 30 20.

(** The same tail with its base 0.00005 above the bottom edge. *)
Definition nearlyPinnedTail : SpeechTailPart :=
  mkTail "part-1" 75 (90 - 0.00005) 20 75 120 30 20.

Definition defaultTools : ToolSettings :=
  mkToolSettings SpeechDown Comic 12 "#000000" "#000000" 30 20 3 10.

Definition resizeFromBottomRight : Interaction :=
  mkInteraction (Some Resize) (Some br) None 0 0 0 0 150 90 0 0 0 0 0 0
                (Some [SpeechTail scenarioTail]).

(* ================================================================= *)
(** ** utils/bubbleUtils.ts: [getOverallBbox] *)

Record Bbox : Type := mkBbox {
  bb_x : Q;
  bb_y : Q;
  bb_width : Q;
  bb_height : Q }.

(** The callback of [bubble.parts.forEach] over the running
    [(minX, minY, maxX, maxY)]. *)
Definition bboxStep (acc : Q * Q * Q * Q) (part : BubblePart) : Q * Q * Q * Q :=
  let '(minX, minY, maxX, maxY) := acc in
  match part with
  | SpeechTail t =>
      (Math_min minX (tipX t), Math_min minY (tipY t),
       Math_max maxX (tipX t), Math_max maxY (tipY t))
  | ThoughtDot d =>
      (Math_min minX (offsetX d - size d / 2),
       Math_min minY (offsetY d - size d / 2),
       Math_max maxX (offsetX d + size d / 2),
       Math_max maxY (offsetY d + size d / 2))
  end.

Definition getOverallBbox (bubble : Bubble) : Bbox :=
  let '(minX, minY, maxX, maxY) :=
    fold_left bboxStep (parts bubble) (0, 0, width bubble, height bubble) in
  let padding := 10 in
  let minX := minX - padding in
  let minY := minY - padding in
  let maxX := maxX + padding in
  let maxY := maxY + padding in
  mkBbox minX minY (maxX - minX) (maxY - minY).

(** The extent a part reaches: the tip of a tail, the bounding square of a
    dot. *)
Definition partExtent (part : BubblePart) : Q * Q * Q * Q :=
  match part with
  | SpeechTail t => (tipX t, tipY t, tipX t, tipY t)
  | ThoughtDot d =>
      (offsetX d - size d / 2, offsetY d - size d / 2,
       offsetX d + size d / 2, offsetY d + size d / 2)
  end.

(* ================================================================= *)
(** ** Reading a polygon back *)

(** The vertices of an outline, in order: the points of its [M x,y] and
    [L x,y] commands. *)
Fixpoint polyVertices (p : list tok) : list (Q * Q) :=
  match p with
  | [] => []
  | t :: p' =>
      match t with
      | T s =>
          if String.eqb s "M" || String.eqb s "L" then
            match p' with
            | V a :: T sep :: V b :: _ =>
                if String.eqb sep "," then [(a, b)] else []
            | _ => []
            end
          else []
      | V _ => []
      end ++ polyVertices p'
  end.

Section ShoutGeometry.
Context {M : MathLib}.

(** Vertex [i] of the Shout star for the factor [f] drawn for it: on the
    outer ellipse (radii [w/2], [h/2]) for even [i], on the inner one (radii
    [w/3.5], [h/3.5]) for odd [i], the radii scaled by [f], at the angle
    [i * PI / 14 - PI / 2]. *)
Definition shoutVertex (w h : Q) (i : nat) (f : Q) : Q * Q :=
  let angle := (inject_Z (Z.of_nat i) * Math_PI) / 14 - Math_PI / 2 in
  if Nat.eqb (i mod 2) 0
  then ellipsePoint (w / 2) (h / 2) (w / 2 * f) (h / 2 * f) angle
  else ellipsePoint (w / 2) (h / 2) (w / 3.5 * f) (h / 3.5 * f) angle.

(** The range of the factor of vertex [i]. *)
Definition shoutFactorOk (i : nat) (f : Q) : Prop :=
  if Nat.eqb (i mod 2) 0 then 0.6 <= f /\ f <= 1.4 else 0.9 <= f /\ f <= 1.1.

End ShoutGeometry.

(* ================================================================= *)
(** ** The start of a gesture ([handleBubbleMouseDown]) *)

(** [bubble.parts.find(p => p.id === partId)]. *)
Fixpoint findPart (pid : string) (ps : list BubblePart) : option BubblePart :=
  match ps with
  | [] => None
  | p :: ps' => if String.eqb (part_id p) pid then Some p else findPart pid ps'
  end.

(** [s || null] on an optional string: the empty string is falsy. *)
Definition str_or_null (s : option string) : option string :=
  match s with
  | Some s' => if truthy s' then Some s' else None
  | None => None
  end.

(** The snapshot [handleBubbleMouseDown] stores for a pointer at
    [(clientX, clientY)]: [None] while saving, and when the part named by
    [partId] does not exist (reading a field of the missing part throws).
    A number the mode does not set is 0 here; the mode never reads it. A
    part of the other kind leaves the numbers read from it unset. *)
Definition handleBubbleMouseDown (isSaving : bool) (bubble : Bubble)
    (clientX clientY : Q) (mode_ : option InteractionMode)
    (handle : option ActiveHandle) (partId : option string)
  : option Interaction :=
  if isSaving then None
  else
    let snapshot offX offY tX tY bX bY ps :=
      mkInteraction mode_ handle (str_or_null partId) clientX clientY
                    (x bubble) (y bubble) (width bubble) (height bubble)
                    offX offY tX tY bX bY ps in
    match mode_, str_or_null partId with
    | Some MovePart, Some pid =>
        match findPart pid (parts bubble) with
        | Some (ThoughtDot part) =>
            Some (snapshot (offsetX part) (offsetY part) 0 0 0 0 None)
        | Some (SpeechTail _) => Some (snapshot 0 0 0 0 0 0 None)
        | None => None
        end
    | Some MoveTailTip, Some pid =>
        match findPart pid (parts bubble) with
        | Some (SpeechTail part) =>
            Some (snapshot 0 0 (tipX part) (tipY part) 0 0 None)
        | Some (ThoughtDot _) => Some (snapshot 0 0 0 0 0 0 None)
        | None => None
        end
    | Some MoveTailBase, Some pid =>
        match findPart pid (parts bubble) with
        | Some (SpeechTail part) =>
            Some (snapshot 0 0 (tipX part) (tipY part)
                           (baseCX part) (baseCY part) None)
        | Some (ThoughtDot _) => Some (snapshot 0 0 0 0 0 0 None)
        | None => None
        end
    | Some Resize, _ => Some (snapshot 0 0 0 0 0 0 (Some (parts bubble)))
    | _, _ => Some (snapshot 0 0 0 0 0 0 None)
    end.

(** The tail of a bubble has its base on edge [e]. *)
Definition pinnedTo (e : Edge) (b : Bubble) : Prop :=
  exists t, findTail (parts b) = Some t
    /\ match e with
       | Bottom => baseCY t == height b
       | Top => baseCY t == 0
       | Right => baseCX t == width b
       | Left => baseCX t == 0
       end.

(* ================================================================= *)
(** ** App.tsx: the list of bubbles *)

Record Image : Type := mkImage {
  img_url : string;
  img_width : Q;
  img_height : Q }.

Record AppState : Type := mkApp {
  uploadedImage : option Image;
  bubbles : list Bubble;
  selectedBubbleId : option string;
  toolSettings : ToolSettings;
  canvasSize : Q * Q;
  nextZIndex : Z }.

(** The effect on [uploadedImage]: the canvas size for a window of inner size
    [innerWidth] x [innerHeight]. *)
Definition canvasSizeFor (image : option Image) (innerWidth innerHeight : Q)
  : Q * Q :=
  match image with
  | Some img =>
      let maxWidth := innerWidth * 0.9 in
      let maxHeight := innerHeight * 0.8 in
      let scaleX := maxWidth / img_width img in
      let scaleY := maxHeight / img_height img in
      let scale := Math_min (Math_min scaleX scaleY) 1.0 in
      (Math_floor (img_width img * scale), Math_floor (img_height img * scale))
  | None => (800, 600)
  end.

(** [{ ...b, zIndex: z }]. *)
Definition with_zIndex (b : Bubble) (z : Z) : Bubble :=
  mkBubble (id b) (type b) (text b) (x b) (y b) (width b) (height b)
           (fontFamily b) (fontSize b) (textColor b) (borderColor b) z
           (parts b) (shapeVariant b).

(** [{ ...prev, activeFontFamily, activeFontSize, activeTextColor,
       activeBorderColor }] taken from a bubble. *)
Definition syncTools (prev : ToolSettings) (b : Bubble) : ToolSettings :=
  mkToolSettings (activeBubbleType prev) (fontFamily b) (fontSize b)
                 (textColor b) (borderColor b) (defaultTailLength prev)
                 (defaultTailBaseWidth prev) (defaultDotCount prev)
                 (defaultDotSize prev).

(** The state after a click at [(x, y)] on the canvas background
    ([handleAddBubble] with its state updates). *)
Definition onAddBubble (st : AppState) (now : N) (x_ y_ : Q) : AppState :=
  match handleAddBubble (match uploadedImage st with Some _ => true | None => false end)
                        (canvasSize st) (toolSettings st) now (nextZIndex st)
                        x_ y_ with
  | Some newBubble =>
      mkApp (uploadedImage st) (bubbles st ++ [newBubble])
            (Some (id newBubble)) (toolSettings st) (canvasSize st)
            (nextZIndex st + 1)%Z
  | None => st
  end.

(** [prevBubbles.map(b => b.id === id ? { ...b, zIndex: nextZIndex.current++ } : b)],
    with the counter. *)
Fixpoint bringToFront (id_ : string) (z : Z) (bs : list Bubble)
  : list Bubble * Z :=
  match bs with
  | [] => ([], z)
  | b :: bs' =>
      if String.eqb (id b) id_ then
        let (rest, z') := bringToFront id_ (z + 1)%Z bs' in
        (with_zIndex b z :: rest, z')
      else
        let (rest, z') := bringToFront id_ z bs' in
        (b :: rest, z')
  end.

Definition handleSelectBubble (st : AppState) (id_ : option string) : AppState :=
  match str_or_null id_ with
  | Some i =>
      let (bs, z) := bringToFront i (nextZIndex st) (bubbles st) in
      mkApp (uploadedImage st) bs id_ (toolSettings st) (canvasSize st) z
  | None =>
      mkApp (uploadedImage st) (bubbles st) id_ (toolSettings st)
            (canvasSize st) (nextZIndex st)
  end.

Definition option_string_eqb (a : option string) (b : string) : bool :=
  match a with
  | Some s => String.eqb s b
  | None => false
  end.

Definition handleUpdateBubble (st : AppState) (updatedBubble : Bubble) : AppState :=
  mkApp (uploadedImage st)
        (map (fun b => if String.eqb (id b) (id updatedBubble)
                       then updatedBubble else b)
             (bubbles st))
        (selectedBubbleId st)
        (if option_string_eqb (selectedBubbleId st) (id updatedBubble)
         then syncTools (toolSettings st) updatedBubble
         else toolSettings st)
        (canvasSize st) (nextZIndex st).

Definition handleDeleteBubble (st : AppState) (id_ : string) : AppState :=
  mkApp (uploadedImage st)
        (filter (fun b => negb (String.eqb (id b) id_)) (bubbles st))
        (if option_string_eqb (selectedBubbleId st) id_
         then None else selectedBubbleId st)
        (toolSettings st) (canvasSize st) (nextZIndex st).

Definition handleClearAll (st : AppState) : AppState :=
  mkApp None [] None (toolSettings st) (canvasSize st) 10.

(** Every bubble is below the counter the next one will take. *)
Definition zBelowNext (st : AppState) : Prop :=
  Forall (fun b => (zIndex b < nextZIndex st)%Z) (bubbles st).

(** A tail part, as opposed to a dot. *)
Definition isTailPart (p : BubblePart) : bool :=
  match p with
  | SpeechTail _ => true
  | ThoughtDot _ => false
  end.

(** The part lies within the box [[0, w] x [0, h]]: the base of a tail, the
    centre of a dot; and it keeps the least size the resize gives it. *)
Definition partInBox (w h : Q) (p : BubblePart) : Prop :=
  match p with
  | SpeechTail t =>
      0 <= baseCX t /\ baseCX t <= w /\ 0 <= baseCY t /\ baseCY t <= h
      /\ 1 <= baseWidth t /\ 1 <= initialBaseWidth t
  | ThoughtDot d =>
      0 <= offsetX d /\ offsetX d <= w /\ 0 <= offsetY d /\ offsetY d <= h
      /\ 2 <= size d
  end.

(** What [resizePart] makes of a tail. *)
Definition resizeTail (origW origH newWidth newHeight : Q)
    (t : SpeechTailPart) : SpeechTailPart :=
  match resizePart origW origH newWidth newHeight (SpeechTail t) with
  | SpeechTail t' => t'
  | ThoughtDot _ => t
  end.

(** The base point is on an edge of the box [w x h]. *)
Definition onPerimeter (w h : Q) (t : SpeechTailPart) : Prop :=
  baseCY t == h \/ baseCY t == 0 \/ baseCX t == w \/ baseCX t == 0.

(** A pointer position [(px, py)] seen by a bubble whose mouse-down, with
    these arguments, was accepted: the bubble the move gives. *)
Definition gestureStep (b : Bubble) (downX downY : Q)
    (mode_ : option InteractionMode) (handle : option ActiveHandle)
    (partId : option string) (px py : Q) : option Bubble :=
  match handleBubbleMouseDown false b downX downY mode_ handle partId with
  | Some i => Some (handleMouseMove i b px py)
  | None => None
  end.

(** Where [moveTailBase] puts the base before its final clamp into the box. *)
Definition tailBaseTarget (interaction : Interaction) (w h deltaX deltaY : Q)
  : Q * Q :=
  let localMouseX := initialBaseCX interaction + deltaX in
  let localMouseY := initialBaseCY interaction + deltaY in
  let dx := localMouseX - w / 2 in
  let dy := localMouseY - h / 2 in
  let initBaseCX := initialBaseCX interaction in
  let initBaseCY := initialBaseCY interaction in
  let eps := 0.001 in
  let anchoredBottom := Qltb (Math_abs (initBaseCY - h)) eps in
  let anchoredTop := Qltb (Math_abs initBaseCY) eps in
  let anchoredRight := Qltb (Math_abs (initBaseCX - w)) eps in
  let anchoredLeft := Qltb (Math_abs initBaseCX) eps in
  if anchoredBottom || anchoredTop then
    (Math_max 0 (Math_min w localMouseX), if anchoredBottom then h else 0)
  else if anchoredLeft || anchoredRight then
    (if anchoredRight then w else 0, Math_max 0 (Math_min h localMouseY))
  else if Qltb (Math_abs (dy / h)) (Math_abs (dx / w)) then
    (if Qltb 0 dx then w else 0,
     h / 2 + dy * (w / (2 * Math_abs (num_or dx 1))))
  else
    (w / 2 + dx * (h / (2 * Math_abs (num_or dy 1))),
     if Qltb 0 dy then h else 0).

Section ShoutTokens.
Context {M : MathLib}.

(** What the Shout loop appends at index [i] for the factor [f] it drew. *)
Definition shoutTokens (w h : Q) (i : nat) (f : Q) : list tok :=
  [T (if Nat.eqb i 0 then "M" else "L");
   V (fst (shoutVertex w h i f)); T ","; V (snd (shoutVertex w h i f)); T " "].

End ShoutTokens.

(** The sizes of the dot parts, in order. *)
Fixpoint dotSizes (ps : list BubblePart) : list Q :=
  match ps with
  | [] => []
  | ThoughtDot d :: ps' => size d :: dotSizes ps'
  | SpeechTail _ :: ps' => dotSizes ps'
  end.

(** A list of numbers that never increases. *)
Fixpoint nonIncreasing (l : list Q) : Prop :=
  match l with
  | [] => True
  | a :: l' =>
      match l' with
      | [] => True
      | b :: _ => b <= a
      end /\ nonIncreasing l'
  end.

(** One step of the editor on its list of bubbles: a bubble added, one
    selected, one deleted, everything cleared, or one replaced by what a
    pointer move made of it. *)
Inductive appStep : AppState -> AppState -> Prop :=
| step_add st now px py : appStep st (onAddBubble st now px py)
| step_select st i : appStep st (handleSelectBubble st i)
| step_delete st i : appStep st (handleDeleteBubble st i)
| step_clear st : appStep st (handleClearAll st)
| step_move st b i px py :
    In b (bubbles st) ->
    appStep st (handleUpdateBubble st (handleMouseMove i b px py)).

(* ================================================================= *)
(** ** Reading the fitter's inputs and guards *)

(** No ['<'] of the string has a ['>'] after it: nothing in it matches the
    tag pattern [<[^>]*>]. *)
Fixpoint tagFree (s : string) : bool :=
  match s with
  | EmptyString => true
  | String c s' => negb (Ascii.eqb c "<" && hasGt s') && tagFree s'
  end.

(** The guard of [autoFitBubbleText]: the bubbles it returns as they are
    without measuring anything. *)
Definition autoFitSkips (bubble : Bubble) : bool :=
  BubbleType_eqb (type bubble) TextOnly
  || negb (truthy (text bubble))
  || String.eqb (text bubble) "Votre texte ici".

(* ================================================================= *)
(** ** utils/richTextRenderer.ts: [drawRichText], from the parsed segments on

    The segments are what [parseRichText] returns for the bubble's HTML (the
    DOM parser is the host's). Step 3 of [drawRichText] measures them into
    fields that the later steps never read, so the embedding starts at step
    4, the wrapping. Of the calls of step 6 the [fillText] calls are kept,
    with the segment they draw and their position; the underline strokes,
    drawn at the same positions, are left out. *)

Record TextStyle : Type := mkStyle {
  style_fontFamily : string;
  style_fontSize : Q;
  style_textColor : string;
  isBold : bool;
  isItalic : bool;
  isUnderline : bool;
  isStrikethrough : bool }.

Record TextSegment : Type := mkSeg {
  seg_text : string;
  seg_style : TextStyle;
  seg_width : Q;
  seg_height : Q }.

Record TextLine : Type := mkLine {
  line_segments : list TextSegment;
  line_width : Q;
  line_height : Q }.

(** The 2D context the text is drawn on: after [ctx.font = fontStr],
    [ctx.measureText(s).width] is [ctx_measureText fontStr s]. *)
Class Context2D : Type := {
  ctx_measureText : list tok -> string -> Q }.

(** [a || b] on strings. *)
Definition str_or (a b : string) : string := if truthy a then a else b.

(** The line feed ['\n']. *)
Definition newline : string := String (ascii_of_nat 10) EmptyString.

Definition isNewline (seg : TextSegment) : bool :=
  String.eqb (seg_text seg) newline.

(** [text.split(/(\s+)/)]: the pieces between the runs of white space and,
    as the group is captured, the runs themselves. [cur] is the piece being
    read, [inSep] holds while it is a run of white space. *)
Fixpoint splitKeepFrom (inSep : bool) (cur : string) (s : string)
  : list string :=
  match s with
  | EmptyString => if inSep then [cur; EmptyString] else [cur]
  | String c s' =>
      if isSpace c then
        if inSep then splitKeepFrom true (cur ++ String c EmptyString)%string s'
        else cur :: splitKeepFrom true (String c EmptyString) s'
      else
        if inSep then cur :: splitKeepFrom false (String c EmptyString) s'
        else splitKeepFrom false (cur ++ String c EmptyString)%string s'
  end.

Definition splitKeep (s : string) : list string :=
  splitKeepFrom false EmptyString s.

(** [s.substring(n)]. *)
Fixpoint substringFrom (n : nat) (s : string) : string :=
  match n, s with
  | O, _ => s
  | S n', String _ s' => substringFrom n' s'
  | S _, EmptyString => EmptyString
  end.

(** The variables of the wrapping loop: [lines], [currentLine], [currentY]. *)
Record WrapState : Type := mkWrap {
  ws_lines : list TextLine;
  ws_currentLine : TextLine;
  ws_currentY : Q }.

(** [{ segments: [], width: 0, height: 0 }]. *)
Definition emptyLine : TextLine := mkLine [] 0 0.

(** [fontSize + getLineHeightOffset(fontSize)] for a style. *)
Definition lineGap (style : TextStyle) : Q :=
  style_fontSize style + getLineHeightOffset (style_fontSize style).

(** "Start new line":
    [currentY += currentLine.height || (defaultStyle.fontSize + ...);
     lines.push(currentLine); currentLine = { segments: [], ... }]. *)
Definition breakLine (defaultStyle : TextStyle) (st : WrapState) : WrapState :=
  mkWrap (ws_lines st ++ [ws_currentLine st]) emptyLine
         (ws_currentY st
          + num_or (line_height (ws_currentLine st)) (lineGap defaultStyle)).

(** "Add to line": the segment is pushed, the line's width and height are
    updated. *)
Definition pushSegment (st : WrapState) (text_ : string) (style : TextStyle)
    (width_ : Q) : WrapState :=
  let currentLine := ws_currentLine st in
  mkWrap (ws_lines st)
         (mkLine (line_segments currentLine
                  ++ [mkSeg text_ style width_ (style_fontSize style)])
                 (line_width currentLine + width_)
                 (Math_max (line_height currentLine) (lineGap style)))
         (ws_currentY st).

(** What a segment whose text is ['\n'] does. *)
Definition pushNewline (st : WrapState) : WrapState :=
  mkWrap (ws_lines st ++ [ws_currentLine st]) emptyLine (ws_currentY st).

(** The [for (let i = 0; i < remainingWord.length; i++)] loop that builds a
    chunk character by character; [chars] are the characters not yet
    looked at. It ends with the [break] or with the last character. *)
Fixpoint chunkLoop (defaultStyle : TextStyle) (measure : string -> Q)
    (maxLineWidth : Q) (chars : string) (st : WrapState) (chunk : string)
    (chunkWidth : Q) : WrapState * (string * Q) :=
  match chars with
  | EmptyString => (st, (chunk, chunkWidth))
  | String c chars' =>
      let testChunk := (chunk ++ String c EmptyString)%string in
      let testWidth := measure testChunk in
      let st :=
        if Qltb maxLineWidth (line_width (ws_currentLine st) + testWidth)
           && (0 <? List.length (line_segments (ws_currentLine st)))%nat
        then breakLine defaultStyle st else st in
      if Qle_bool testWidth maxLineWidth || negb (truthy chunk) then
        chunkLoop defaultStyle measure maxLineWidth chars' st testChunk testWidth
      else (st, (chunk, chunkWidth))
  end.

(** The [while (remainingWord.length > 0)] loop; every turn takes at least
    one character, [fuel] bounds the number of turns. *)
Fixpoint wordLoop (fuel : nat) (defaultStyle : TextStyle)
    (measure : string -> Q) (maxLineWidth : Q) (style : TextStyle)
    (remainingWord : string) (st : WrapState) : WrapState :=
  match fuel with
  | O => st
  | S fuel' =>
      if (0 <? String.length remainingWord)%nat then
        let '(st, (chunk, chunkWidth)) :=
          chunkLoop defaultStyle measure maxLineWidth remainingWord st
                    EmptyString 0 in
        if truthy chunk then
          wordLoop fuel' defaultStyle measure maxLineWidth style
                   (substringFrom (String.length chunk) remainingWord)
                   (pushSegment st chunk style chunkWidth)
        else st
      else st
  end.

Section RichTextRenderer.
Context {K : Context2D}.

(** The font string of the wrapping step:
    [fontMap[family] || family || 'Arial, sans-serif'] after the optional
    ['italic '] and ['bold '] and the size in px. *)
Definition wrapFontStr (fontMap : string -> option string)
    (style : TextStyle) : list tok :=
  let fontName :=
    str_or (match fontMap (style_fontFamily style) with
            | Some v => v
            | None => EmptyString
            end)
           (str_or (style_fontFamily style) "Arial, sans-serif") in
  (if isItalic style then [T "italic "] else [])
  ++ (if isBold style then [T "bold "] else [])
  ++ [V (style_fontSize style); T "px "; T fontName].

(** The body of [words.forEach(word => ...)]. *)
Definition wrapWord (width_ : Q) (defaultStyle : TextStyle)
    (fontMap : string -> option string) (getMaxWidthAtY : option (Q -> Q))
    (style : TextStyle) (st : WrapState) (word : string) : WrapState :=
  let measure := ctx_measureText (wrapFontStr fontMap style) in
  let wordWidth := measure word in
  let maxLineWidth :=
    match getMaxWidthAtY with
    | Some f => f (ws_currentY st)
    | None => width_
    end in
  if Qltb maxLineWidth wordWidth then
    wordLoop (String.length word) defaultStyle measure maxLineWidth style
             word st
  else
    let st :=
      if Qltb maxLineWidth (line_width (ws_currentLine st) + wordWidth)
         && Qltb 0 (line_width (ws_currentLine st))
      then breakLine defaultStyle st else st in
    pushSegment st word style wordWidth.

(** The body of [segments.forEach(seg => ...)] of the wrapping step. *)
Definition wrapSegment (width_ : Q) (defaultStyle : TextStyle)
    (fontMap : string -> option string) (getMaxWidthAtY : option (Q -> Q))
    (st : WrapState) (seg : TextSegment) : WrapState :=
  if isNewline seg then pushNewline st
  else
    fold_left (wrapWord width_ defaultStyle fontMap getMaxWidthAtY
                        (seg_style seg))
              (splitKeep (seg_text seg)) st.

(** Step 4: the lines the segments are wrapped into. *)
Definition wrapLines (segments : list TextSegment) (width_ : Q)
    (defaultStyle : TextStyle) (fontMap : string -> option string)
    (getMaxWidthAtY : option (Q -> Q)) : list TextLine :=
  let st :=
    fold_left (wrapSegment width_ defaultStyle fontMap getMaxWidthAtY)
              segments (mkWrap [] emptyLine 0) in
  if (0 <? List.length (line_segments (ws_currentLine st)))%nat
  then ws_lines st ++ [ws_currentLine st]
  else ws_lines st.

End RichTextRenderer.

(** A call [ctx.fillText(seg.text, x, y)], made with the font and the colour
    of the segment's style. *)
Record Draw : Type := mkDraw {
  draw_seg : TextSegment;
  draw_x : Q;
  draw_y : Q }.

(** [line.segments.forEach(seg => ...)] of step 6: a segment without text
    is skipped and does not advance [currentX]. *)
Fixpoint drawSegments (segs : list TextSegment) (currentX baselineY : Q)
  : list Draw :=
  match segs with
  | [] => []
  | seg :: segs' =>
      if truthy (seg_text seg) then
        mkDraw seg currentX baselineY
        :: drawSegments segs' (currentX + seg_width seg) baselineY
      else drawSegments segs' currentX baselineY
  end.

(** [lines.forEach(line => ...)] of step 6, from [drawY] on. *)
Fixpoint drawLines (x_ width_ : Q) (lines : list TextLine) (drawY : Q)
  : list Draw :=
  match lines with
  | [] => []
  | line :: lines' =>
      let currentX := x_ + (width_ - line_width line) / 2 in
      let currentX := Math_max x_ currentX in
      let baselineY := drawY + line_height line / 2 in
      drawSegments (line_segments line) currentX baselineY
      ++ drawLines x_ width_ lines' (drawY + line_height line)
  end.

(** Steps 5 and 6: the block of lines is centred vertically. *)
Definition placeLines (x_ y_ width_ height_ : Q) (lines : list TextLine)
  : list Draw :=
  let totalHeight := fold_left (fun acc line => acc + line_height line) lines 0 in
  let startY := y_ + (height_ - totalHeight) / 2 in
  drawLines x_ width_ lines startY.

(** [drawRichText], as the [fillText] calls it makes for the parsed
    segments. *)
Definition drawRichText {K : Context2D} (segments : list TextSegment)
    (x_ y_ width_ height_ : Q) (defaultStyle : TextStyle)
    (fontMap : string -> option string) (getMaxWidthAtY : option (Q -> Q))
  : list Draw :=
  placeLines x_ y_ width_ height_
             (wrapLines segments width_ defaultStyle fontMap getMaxWidthAtY).

(** The strings of a list one after the other. *)
Definition joinAll (ss : list string) : string :=
  fold_right String.append EmptyString ss.

Definition lineText (line : TextLine) : string :=
  joinAll (map seg_text (line_segments line)).

Definition sumQ (qs : list Q) : Q := fold_right Qplus 0 qs.

Definition sumHeights (lines : list TextLine) : Q :=
  sumQ (map line_height lines).

(** The width the segments take that are drawn (those with a text). *)
Definition drawnWidth (segs : list TextSegment) : Q :=
  sumQ (map seg_width (filter (fun s => truthy (seg_text s)) segs)).

(** The bookkeeping of a line: its width is the sum of its segments'
    widths, every segment has the height of its font size, and the line is
    at least as high as the line gap of each of its segments. *)
Definition lineOk (line : TextLine) : Prop :=
  line_width line == sumQ (map seg_width (line_segments line))
  /\ Forall (fun s => seg_height s = style_fontSize (seg_style s)
                      /\ lineGap (seg_style s) <= line_height line)
            (line_segments line).

(** A context whose every glyph is [0.6 * 12] wide, whatever the font. *)
Definition monoContext : Context2D := {|
  ctx_measureText := fun _ s => inject_Z (Z.of_nat (String.length s)) * 7.2 |}.

Definition plainStyle : TextStyle :=
  mkStyle "font-comic" 12 "#000000" false false false false.

Definition noFontMap : string -> option string := fun _ => None.

(** The text a wrapping state holds: that of the lines pushed, then that of
    the current line. *)
Definition wsText (st : WrapState) : string :=
  (joinAll (map lineText (ws_lines st)) ++ lineText (ws_currentLine st))%string.

(** The state of the wrapping loop is well kept: every line pushed and the
    current line are; with [strict], no line pushed is empty. *)
Definition wrapOk (strict : bool) (st : WrapState) : Prop :=
  Forall lineOk (ws_lines st) /\ lineOk (ws_currentLine st)
  /\ (strict = true -> Forall (fun l => line_segments l <> []) (ws_lines st)).

(** A line of one segment, for the examples. *)
Definition oneWordLine : TextLine :=
  mkLine [mkSeg "Un" plainStyle 14.4 12] 14.4 20.

(* ================================================================= *)
(** ** BubbleItem: the font size by wheel and keys, the end of an edit *)

Definition MIN_FONT_SIZE : Q := 5.
Definition MAX_FONT_SIZE : Q := 40.

(** The branch of [handleWheel] and of the [+], [=], [-] keys taken when the
    selection is collapsed: the bubble passed to [onUpdate], if any. *)
Definition stepFontSize (bubble : Bubble) (delta : Q) : option Bubble :=
  let newSize :=
    Math_max MIN_FONT_SIZE (Math_min MAX_FONT_SIZE (fontSize bubble + delta)) in
  if negb (Qeq_bool newSize (fontSize bubble))
  then Some (with_fontSize bubble newSize)
  else None.

(** [handleWheel] for a collapsed selection inside the text:
    [const delta = e.deltaY > 0 ? -2 : 2]. *)
Definition handleWheel (bubble : Bubble) (deltaY : Q) : option Bubble :=
  stepFontSize bubble (if Qltb 0 deltaY then -2 else 2).

(** [s.trim() === '']: every character is white space. *)
Fixpoint allSpace (s : string) : bool :=
  match s with
  | EmptyString => true
  | String c s' => isSpace c && allSpace s'
  end.

(** [{ ...bubble, text: v }]. *)
Definition with_text (bubble : Bubble) (v : string) : Bubble :=
  mkBubble (id bubble) (type bubble) v (x bubble) (y bubble)
           (width bubble) (height bubble) (fontFamily bubble) (fontSize bubble)
           (textColor bubble) (borderColor bubble) (zIndex bubble)
           (parts bubble) (shapeVariant bubble).

(** [handleTextBlur] for the HTML [currentHTML] of the text element (the
    empty string when there is none): the bubble passed to [onUpdate], if
    any. *)
Definition handleTextBlur (bubble : Bubble) (currentHTML : string)
  : option Bubble :=
  if negb (String.eqb currentHTML (text bubble)) then
    Some (with_text bubble
            (if allSpace currentHTML || String.eqb currentHTML "<br>"
             then "Votre texte ici" else currentHTML))
  else None.

(* ================================================================= *)
(** ** The font-size search as the specification words it *)

(** Two numbers that may be [-Infinity] are the same number. *)
Definition xeq (a b : xnum) : Prop :=
  match a, b with
  | NegInfinity, NegInfinity => True
  | Num p, Num q => p == q
  | _, _ => False
  end.

(** Two results are the same record: the same numbers, the same flag. *)
Definition sameFit (r r' : TextFitResult) : Prop :=
  fit_fontSize r == fit_fontSize r'
  /\ xeq (textWidth r) (textWidth r')
  /\ textHeight r == textHeight r'
  /\ fits r = fits r'
  /\ scaleFactor r == scaleFactor r'.

(** The result of the search as the specification words it, from the size
    [start] and with [fuel] iterations: the size [spec_search] finds is
    returned with [fits = true] and the dimensions measured at it; when it
    finds none, the result is what the code returns once its loop is left
    ([fallbackFit], read off the source). *)
Definition spec_fitFrom {C : Canvas} (text_ : string) (bubble : Bubble)
    (fontFamily_ : string) (minFontSize : Q) (fuel : nat) (start : Q)
  : TextFitResult :=
  match spec_search (fitsAt text_ bubble fontFamily_) minFontSize fuel start with
  | Some s =>
      let d := measureText text_ fontFamily_ s
                           (tb_width (getTextBounds bubble)) in
      mkFit s (dim_width d) (dim_height d) true (s / fontSize bubble)
  | None => fallbackFit text_ bubble fontFamily_ minFontSize
  end.

(** "Start at [min(bubble.fontSize, max)] ... capped at
    [maxIterations = 20]". *)
Definition spec_fit {C : Canvas} (text_ : string) (bubble : Bubble)
    (fontFamily_ : string) (minFontSize maxFontSize : Q) : TextFitResult :=
  spec_fitFrom text_ bubble fontFamily_ minFontSize 20
               (Math_min (fontSize bubble) maxFontSize).

(** The context measures a text by the font size as a number: the font
    string [`${fontSize}px ${fontFamily}`] of one number is one string. *)
Definition sizeExtensional (C : Canvas) : Prop :=
  forall ctx, getContext2d = Some ctx ->
    forall (s s' : Q) (fontFamily_ t : string),
      s == s' -> ctx s fontFamily_ t == ctx s' fontFamily_ t.

(* ================================================================= *)
(** ** Toolbar.tsx: the number fields of the new-bubble defaults *)

(** A number as the tool settings store it. The four fields of the toolbar
    store [Math.max(MIN, parseInt(e.target.value))], which is NaN when the
    text of the field starts with no number (an emptied field). *)
Inductive jsnum : Type :=
| NaN
| Fin (q : Q).

(** [parseInt(s)], the host's: a whole number, or NaN ([None]). *)
Definition ofParseInt (parsed : option Z) : jsnum :=
  match parsed with
  | Some n => Fin (inject_Z n)
  | None => NaN
  end.

(** [Math.max(a, v)] for a number [a]: NaN when [v] is NaN. *)
Definition Math_max_js (a : Q) (v : jsnum) : jsnum :=
  match v with
  | NaN => NaN
  | Fin q => Fin (Math_max a q)
  end.

(** The four defaults as they are stored. *)
Record StoredDefaults : Type := mkStored {
  stored_defaultTailLength : jsnum;
  stored_defaultTailBaseWidth : jsnum;
  stored_defaultDotCount : jsnum;
  stored_defaultDotSize : jsnum }.

(** The defaults of the initial tool settings of [App]. *)
Definition initialDefaults : StoredDefaults :=
  mkStored (Fin 30) (Fin 20) (Fin 4) (Fin 15).

Inductive NumberField : Type :=
| TailLengthField
| TailBaseWidthField
| DotCountField
| DotSizeField.

(** The [onChange] handler of a number field, for what [parseInt] makes of
    the text typed: [onSettingChange({ field: Math.max(MIN, parseInt(...)) })],
    merged into the settings. *)
Definition onNumberChange (field : NumberField) (parsed : option Z)
    (s : StoredDefaults) : StoredDefaults :=
  match field with
  | TailLengthField =>
      mkStored (Math_max_js MIN_TAIL_LENGTH (ofParseInt parsed))
               (stored_defaultTailBaseWidth s) (stored_defaultDotCount s)
               (stored_defaultDotSize s)
  | TailBaseWidthField =>
      mkStored (stored_defaultTailLength s)
               (Math_max_js MIN_TAIL_BASE_WIDTH (ofParseInt parsed))
               (stored_defaultDotCount s) (stored_defaultDotSize s)
  | DotCountField =>
      mkStored (stored_defaultTailLength s) (stored_defaultTailBaseWidth s)
               (Math_max_js (inject_Z (Z.of_nat MIN_DOT_COUNT))
                            (ofParseInt parsed))
               (stored_defaultDotSize s)
  | DotSizeField =>
      mkStored (stored_defaultTailLength s) (stored_defaultTailBaseWidth s)
               (stored_defaultDotCount s)
               (Math_max_js MIN_DOT_SIZE (ofParseInt parsed))
  end.

(** The stored tail defaults are numbers, those of [ts]. *)
Definition holdsTailNumbers (s : StoredDefaults) (ts : ToolSettings) : Prop :=
  stored_defaultTailLength s = Fin (defaultTailLength ts)
  /\ stored_defaultTailBaseWidth s = Fin (defaultTailBaseWidth ts).

(** The stored dot defaults are numbers, those of [ts]; the count is a
    whole number. *)
Definition holdsDotNumbers (s : StoredDefaults) (ts : ToolSettings) : Prop :=
  stored_defaultDotCount s = Fin (inject_Z (Z.of_nat (defaultDotCount ts)))
  /\ stored_defaultDotSize s = Fin (defaultDotSize ts).

(** [Math.max(MIN_TAIL_BASE_WIDTH, toolSettings.defaultTailBaseWidth)] and
    [Math.max(MIN_TAIL_LENGTH, toolSettings.defaultTailLength)] of
    [handleAddBubble], on the stored numbers: the base width and the length
    of the tail of a new bubble. [Math.max] does not repair NaN. *)
Definition currentDefaultTail (s : StoredDefaults) : jsnum * jsnum :=
  (Math_max_js MIN_TAIL_BASE_WIDTH (stored_defaultTailBaseWidth s),
   Math_max_js MIN_TAIL_LENGTH (stored_defaultTailLength s)).

(** [Math.max(MIN_DOT_COUNT, toolSettings.defaultDotCount)] of
    [handleAddBubble], on the stored number. *)
Definition numDotsStored (s : StoredDefaults) : jsnum :=
  Math_max_js (inject_Z (Z.of_nat MIN_DOT_COUNT)) (stored_defaultDotCount s).

(** The number of turns of [for (let i = 0; i < numDots; i++)]: none when
    [numDots] is NaN, as [i < NaN] is false. *)
Definition loopTurns (numDots : jsnum) : nat :=
  match numDots with
  | NaN => 0
  | Fin q => Z.to_nat (Qceiling q)
  end.

(* ================================================================= *)
(** * Properties *)

(** ** Comparisons and clamps *)

Lemma Qltb_lt (a b : Q) : Qltb a b = true <-> a < b.
Proof.
  unfold Qltb. rewrite negb_true_iff. split; intro H.
  - apply Qnot_le_lt. intro Hle. apply Qle_bool_iff in Hle. congruence.
  - destruct (Qle_bool b a) eqn:E; [|reflexivity].
    apply Qle_bool_iff in E. lra.
Qed.

Lemma Qltb_ge (a b : Q) : Qltb a b = false <-> b <= a.
Proof.
  unfold Qltb. rewrite negb_false_iff. apply Qle_bool_iff.
Qed.

Lemma Qle_bool_false (a b : Q) : Qle_bool a b = false <-> b < a.
Proof.
  rewrite <- Qltb_lt. unfold Qltb. now rewrite negb_true_iff.
Qed.

Lemma Qeq_bool_false (a b : Q) : Qeq_bool a b = false <-> ~ a == b.
Proof.
  split; intro H.
  - intro E. apply Qeq_bool_iff in E. congruence.
  - destruct (Qeq_bool a b) eqn:E; [|reflexivity].
    apply Qeq_bool_iff in E. contradiction.
Qed.

(** Splits every [Qmin] and [Qmax] of the goal into its two cases. *)
Ltac minmax_cases :=
  unfold Math_min, Math_max in *;
  repeat match goal with
    | |- context [Qmin ?a ?b] =>
        let H := fresh "Hmin" in
        destruct (Q.min_spec a b) as [[? H] | [? H]];
        rewrite ?H in *; clear H
    | |- context [Qmax ?a ?b] =>
        let H := fresh "Hmax" in
        destruct (Q.max_spec a b) as [[? H] | [? H]];
        rewrite ?H in *; clear H
    end.

(** Turns the boolean comparisons among the hypotheses into propositions. *)
Ltac bool_to_prop :=
  repeat match goal with
    | H : Qltb _ _ = true |- _ => apply Qltb_lt in H
    | H : Qltb _ _ = false |- _ => apply Qltb_ge in H
    | H : Qle_bool _ _ = true |- _ => apply Qle_bool_iff in H
    | H : Qle_bool _ _ = false |- _ => apply Qle_bool_false in H
    | H : Qeq_bool _ _ = true |- _ => apply Qeq_bool_iff in H
    | H : Qeq_bool _ _ = false |- _ => apply Qeq_bool_false in H
    end.

Lemma Math_max_lower (a b : Q) : a <= Math_max a b.
Proof. apply Q.le_max_l. Qed.

Lemma Math_max_upper (a b c : Q) : a <= c -> b <= c -> Math_max a b <= c.
Proof. intros. unfold Math_max. apply Q.max_lub; assumption. Qed.

(** The clamp [Math.max(0, Math.min(h, v))] meets the far edge exactly when
    [v] is at or beyond it, and the near edge exactly when [v] is at or
    before it. *)
Lemma clamp_far (h v : Q) :
  0 < h -> (Math_max 0 (Math_min h v) == h <-> h <= v).
Proof.
  intro Hh. unfold Math_max, Math_min.
  destruct (Q.min_spec h v) as [[? Hm] | [? Hm]];
    destruct (Q.max_spec 0 (Qmin h v)) as [[? Hx] | [? Hx]];
    rewrite Hx; rewrite ?Hm in *; split; intros; lra.
Qed.

Lemma clamp_near (h v : Q) :
  0 < h -> (Math_max 0 (Math_min h v) == 0 <-> v <= 0).
Proof.
  intro Hh. unfold Math_max, Math_min.
  destruct (Q.min_spec h v) as [[? Hm] | [? Hm]];
    destruct (Q.max_spec 0 (Qmin h v)) as [[? Hx] | [? Hx]];
    rewrite Hx; rewrite ?Hm in *; split; intros; lra.
Qed.

(* ----------------------------------------------------------------- *)
(** ** The line gap *)

Lemma getLineHeightOffset_monotone (a b : Q) :
  5 <= a -> a <= b -> b <= 40 ->
  getLineHeightOffset a <= getLineHeightOffset b.
Proof.
  intros Ha Hab Hb. unfold getLineHeightOffset.
  destruct (Qltb a 10) eqn:Ea; destruct (Qltb b 10) eqn:Eb;
    bool_to_prop; minmax_cases; nra.
Qed.

Lemma getLineHeightOffset_floor (s : Q) :
  0 <= s -> 0.2 * s <= getLineHeightOffset s.
Proof.
  intro Hs. unfold getLineHeightOffset.
  destruct (Qltb s 10); minmax_cases; nra.
Qed.

(** C9: over the 5-40px range the line gap [getLineHeightOffset] never
    decreases when the font size grows, and for every (non-negative) font
    size the gap is at least 20% of the size: the reduction applied is
    [min(0.8, reduction)], never more than 80%. *)
Theorem getLineHeightOffset_monotone_and_capped :
  (forall a b : Q, 5 <= a -> a <= b -> b <= 40 ->
     getLineHeightOffset a <= getLineHeightOffset b)
  /\ (forall s : Q, 0 <= s ->
        0.2 * s <= getLineHeightOffset s
        /\ exists reduction, reduction <= 0.8
             /\ getLineHeightOffset s == s * (1 - reduction)).
Proof.
  split.
  - exact getLineHeightOffset_monotone.
  - intros s Hs. split.
    + now apply getLineHeightOffset_floor.
    + unfold getLineHeightOffset.
      set (red := if Qltb s 10 then _ else _).
      exists (Math_min 0.8 red). split; [apply Q.le_min_l | reflexivity].
Qed.

Lemma getLineHeightOffset_monotone_and_capped_witness :
  getLineHeightOffset 8 <= getLineHeightOffset 12
  /\ 0.2 * 12 <= getLineHeightOffset 12.
Proof.
  destruct getLineHeightOffset_monotone_and_capped as [Hmono Hcap].
  split.
  - apply Hmono; unfold Qle; simpl; lia.
  - apply Hcap. unfold Qle; simpl; lia.
Defined.

(* ----------------------------------------------------------------- *)
(** ** Minimum size of the bubbles the engine produces *)

Lemma handleMouseMove_resize_min (i : Interaction) (b : Bubble) (px py : Q) :
  mode i = Some Resize ->
  MIN_BUBBLE_WIDTH <= width (handleMouseMove i b px py)
  /\ MIN_BUBBLE_HEIGHT <= height (handleMouseMove i b px py).
Proof.
  intro Hm. unfold handleMouseMove. rewrite Hm. simpl.
  split; apply Math_max_lower.
Qed.

Lemma handleMouseMove_keeps_size (i : Interaction) (b : Bubble) (px py : Q) :
  mode i <> Some Resize ->
  width (handleMouseMove i b px py) = width b
  /\ height (handleMouseMove i b px py) = height b.
Proof.
  intro Hm. unfold handleMouseMove.
  destruct (mode i) as [[| | | |]|]; try contradiction; split; reflexivity.
Qed.

Lemma handleAddBubble_size img cs ts now z px py b :
  handleAddBubble img cs ts now z px py = Some b ->
  width b = 150 /\ height b = 150 * 0.6.
Proof.
  unfold handleAddBubble. destruct (negb img); [discriminate|].
  intro H. injection H as <-. split; reflexivity.
Qed.

Lemma produced_min (b : Bubble) :
  produced b ->
  MIN_BUBBLE_WIDTH <= width b /\ MIN_BUBBLE_HEIGHT <= height b.
Proof.
  induction 1 as [img cs ts now z px py b Hadd | i b px py Hb IH].
  - apply handleAddBubble_size in Hadd as [-> ->].
    unfold MIN_BUBBLE_WIDTH, MIN_BUBBLE_HEIGHT. split; lra.
  - destruct (mode i) as [[| | | |]|] eqn:Hm;
      try (destruct (handleMouseMove_keeps_size i b px py) as [-> ->];
           [rewrite Hm; discriminate | exact IH]).
    now apply handleMouseMove_resize_min.
Qed.

(** C7: every resize yields a width of at least [MIN_BUBBLE_WIDTH] (50) and a
    height of at least [MIN_BUBBLE_HEIGHT] (30), from any starting bubble and
    for any handle and pointer position; and no bubble the engine produces
    (added by [handleAddBubble], then moved, resized or edited through
    [handleMouseMove]) is below these minimums. *)
Theorem engine_respects_minimum_size (b : Bubble) :
  engineOutput b ->
  MIN_BUBBLE_WIDTH <= width b /\ MIN_BUBBLE_HEIGHT <= height b.
Proof.
  intros [i b0 px py Hm | b0 Hp].
  - now apply handleMouseMove_resize_min.
  - now apply produced_min.
Qed.

Lemma engine_respects_minimum_size_witness :
  let b := handleMouseMove resizeFromBottomRight
             (speechBubble 150 90 12 "x" [SpeechTail scenarioTail])
             (-500) (-500) in
  mode resizeFromBottomRight = Some Resize
  /\ MIN_BUBBLE_WIDTH <= width b /\ MIN_BUBBLE_HEIGHT <= height b.
Proof.
  split; [reflexivity|].
  apply engine_respects_minimum_size.
  apply out_resize. reflexivity.
Defined.

(** The specification's scenario: dragging the bottom-right handle of the
    150 x 90 bubble by [(+50, +30)] gives 200 x 120, and the tail base stays on
    the bottom edge, at [(100, 120)]. *)
Example resize_scenario :
  let b := handleMouseMove resizeFromBottomRight
             (speechBubble 150 90 12 "Bonjour" [SpeechTail scenarioTail]) 50 30 in
  width b == 200 /\ height b == 120
  /\ exists t, parts b = [SpeechTail t] /\ baseCX t == 100 /\ baseCY t == 120.
Proof.
  cbv zeta. split; [reflexivity|]. split; [reflexivity|].
  eexists. split; [vm_compute; reflexivity|]. split; reflexivity.
Qed.

(* ----------------------------------------------------------------- *)
(** ** The frame of the auto-fit *)

Lemma sameExceptFontSize_refl (b : Bubble) : sameExceptFontSize b b.
Proof. unfold sameExceptFontSize. repeat split. Qed.

Lemma with_fontSize_frame (b : Bubble) (v : Q) :
  sameExceptFontSize (with_fontSize b v) b.
Proof. unfold sameExceptFontSize. repeat split. Qed.

(** The guard of [autoFitBubbleText], as a proposition. *)
Lemma autoFit_guard (b : Bubble) :
  type b = TextOnly \/ text b = "" \/ text b = "Votre texte ici" ->
  BubbleType_eqb (type b) TextOnly || negb (truthy (text b))
  || String.eqb (text b) "Votre texte ici" = true.
Proof.
  intros [H | [H | H]]; rewrite H.
  - reflexivity.
  - now rewrite orb_true_r.
  - now rewrite orb_true_r.
Qed.

(** C10: [autoFitBubbleText] (the current module and its earlier copy alike)
    returns a bubble equal to its input in every field except possibly
    [fontSize]; and it returns the input itself when the type is TextOnly, the
    text is empty, or the text is the placeholder ['Votre texte ici']. *)
Theorem autoFitBubbleText_frame (C : Canvas) (b : Bubble) (fontFamily_ : string) :
  sameExceptFontSize (autoFitBubbleText b fontFamily_) b
  /\ sameExceptFontSize (Legacy.autoFitBubbleText b fontFamily_) b
  /\ (type b = TextOnly \/ text b = "" \/ text b = "Votre texte ici" ->
      autoFitBubbleText b fontFamily_ = b
      /\ Legacy.autoFitBubbleText b fontFamily_ = b).
Proof.
  split; [|split].
  - unfold autoFitBubbleText.
    destruct (_ || _ || _); [apply sameExceptFontSize_refl|].
    destruct (Qeq_bool _ _);
      [apply sameExceptFontSize_refl | apply with_fontSize_frame].
  - unfold Legacy.autoFitBubbleText.
    destruct (_ || _ || _); [apply sameExceptFontSize_refl|].
    destruct (Qeq_bool _ _);
      [apply sameExceptFontSize_refl | apply with_fontSize_frame].
  - intro H. unfold autoFitBubbleText, Legacy.autoFitBubbleText.
    rewrite (autoFit_guard b H). split; reflexivity.
Qed.

Lemma autoFitBubbleText_frame_witness :
  let b := speechBubble 150 90 12 "Votre texte ici" [SpeechTail scenarioTail] in
  text b = "Votre texte ici"
  /\ autoFitBubbleText (C := monoCanvas) b "Arial" = b
  /\ Legacy.autoFitBubbleText (C := monoCanvas) b "Arial" = b.
Proof.
  split; [reflexivity|].
  apply (autoFitBubbleText_frame monoCanvas). right. right. reflexivity.
Defined.

(* ----------------------------------------------------------------- *)
(** ** Determinism of the silhouettes *)

(** The outline depends on the bubble through its type, size, parts and
    seed only. *)
Lemma generateBubblePaths_seed (M : MathLib) (b1 b2 : Bubble) :
  seedOf b1 = seedOf b2 -> type b1 = type b2 ->
  width b1 = width b2 -> height b1 = height b2 -> parts b1 = parts b2 ->
  generateBubblePaths b1 = generateBubblePaths b2.
Proof.
  intros Hs Ht Hw Hh Hp. unfold generateBubblePaths.
  rewrite Hs, Ht, Hw, Hh, Hp. reflexivity.
Qed.

(** C1: two calls of [generateBubblePaths] on bubbles with the same [id] and
    [shapeVariant] (and the same type, size and parts; in particular on the
    same bubble) return the same [bodyPath], hence the same string for any
    number printer, and the same auxiliary circles. The generator state
    [randomState] starts from the seed at every call. *)
Theorem generateBubblePaths_deterministic (M : MathLib) (b1 b2 : Bubble) :
  id b1 = id b2 -> shapeVariant b1 = shapeVariant b2 ->
  type b1 = type b2 -> width b1 = width b2 -> height b1 = height b2 ->
  parts b1 = parts b2 ->
  bodyPath (generateBubblePaths b1) = bodyPath (generateBubblePaths b2)
  /\ partsCircles (generateBubblePaths b1) = partsCircles (generateBubblePaths b2)
  /\ forall show,
       render show (bodyPath (generateBubblePaths b1))
       = render show (bodyPath (generateBubblePaths b2)).
Proof.
  intros Hi Hv Ht Hw Hh Hp.
  assert (E : generateBubblePaths b1 = generateBubblePaths b2).
  { apply generateBubblePaths_seed; try assumption.
    unfold seedOf. now rewrite Hi, Hv. }
  rewrite E. repeat split.
Qed.

Lemma generateBubblePaths_deterministic_witness :
  let b1 := thoughtBubble "bubble-1700000000000" (Some 3) in
  let b2 := with_fontSize (thoughtBubble "bubble-1700000000000" (Some 3)) 20 in
  bodyPath (generateBubblePaths (M := polyMath) b1)
  = bodyPath (generateBubblePaths (M := polyMath) b2)
  /\ partsCircles (generateBubblePaths (M := polyMath) b1)
     = partsCircles (generateBubblePaths (M := polyMath) b2)
  /\ forall show,
       render show (bodyPath (generateBubblePaths (M := polyMath) b1))
       = render show (bodyPath (generateBubblePaths (M := polyMath) b2)).
Proof.
  apply (generateBubblePaths_deterministic polyMath); reflexivity.
Defined.

(* ----------------------------------------------------------------- *)
(** ** The sampled text extent *)

Section SampledExtent.
Context {M : MathLib} {D : SvgDom}.

Lemma samplePathAtYPositions_length (p : list tok) (H : Q) (n : nat) :
  List.length (samplePathAtYPositions p H n) = n.
Proof.
  unfold samplePathAtYPositions. now rewrite length_map, length_seq.
Qed.

(** A row at height 0 meets no crossing of an outline that stays at
    [y >= 0]. *)
Lemma findIntersectionsLoop_top (p : list tok) (ty len : Q) :
  ty == 0 -> 0 <= len ->
  (forall d, 0 <= d -> d <= len -> 0 <= snd (getPointAtLength p d)) ->
  forall n i last acc, (i + n <= 101)%nat ->
    findIntersectionsLoop p ty len n i false last acc = acc.
Proof.
  intros Hty Hlen Hpts.
  induction n as [|n IH]; intros i last acc Hi; [reflexivity|].
  cbn [findIntersectionsLoop].
  set (dist := inject_Z (Z.of_nat i) / 100 * len).
  assert (Hq : 0 <= inject_Z (Z.of_nat i) /\ inject_Z (Z.of_nat i) <= 100).
  { split; unfold Qle; simpl; lia. }
  assert (E : Qltb (snd (getPointAtLength p dist)) ty = false).
  { apply Qltb_ge. rewrite Hty. apply Hpts; unfold dist.
    - apply Qmult_le_0_compat; [|assumption].
      apply Qle_shift_div_l; lra.
    - setoid_replace len with (100 / 100 * len) at 2 by field.
      apply Qmult_le_compat_r; [|assumption].
      apply Qmult_le_compat_r; [tauto | unfold Qle; simpl; lia]. }
  destruct last as [last|]; rewrite E; cbn [Bool.eqb negb]; apply IH; lia.
Qed.

Lemma sampleAt_top (p : list tok) (H : Q) :
  0 <= getTotalLength p ->
  (forall d, 0 <= d -> d <= getTotalLength p ->
             0 <= snd (getPointAtLength p d)) ->
  sampleAt p H (getTotalLength p) 20 0 = H * 0.5.
Proof.
  intros Hlen Hpts. unfold sampleAt, findIntersectionsAtY.
  rewrite findIntersectionsLoop_top; try assumption; try lia.
  - reflexivity.
  - unfold Qeq; simpl; lia.
Qed.

(** At [y = 0] the extent function of a non-rectangular bubble answers with
    the fallback sample, half the bubble's height. *)
Lemma calculateTextBounds_top (b : Bubble) :
  type b <> Descriptive -> type b <> TextOnly ->
  0 <= getTotalLength (bodyPath (generateBubblePaths b)) ->
  (forall d, 0 <= d -> d <= getTotalLength (bodyPath (generateBubblePaths b)) ->
             0 <= snd (getPointAtLength (bodyPath (generateBubblePaths b)) d)) ->
  calculateTextBounds b 0 = height b * 0.5.
Proof.
  intros Hd Ht Hlen Hpts.
  assert (E : forall samples : list Q,
             List.length samples = 20%nat ->
             Qfloor (0 / height b * (inject_Z (Z.of_nat (List.length samples)) - 1))
             = 0%Z).
  { intros samples ->.
    transitivity (Qfloor 0); [|reflexivity].
    apply Qfloor_comp. unfold Qdiv. ring. }
  unfold calculateTextBounds.
  destruct (type b); try contradiction;
    rewrite (E _ (samplePathAtYPositions_length _ _ _));
    rewrite samplePathAtYPositions_length;
    cbn [Z.ltb Z.leb Z.compare Z.of_nat orb Z.to_nat];
    unfold samplePathAtYPositions; cbn [seq map nth];
    now apply sampleAt_top.
Qed.

End SampledExtent.

(** The closed-form bounds stay within the bubble. *)
Lemma getTextBounds_within (b : Bubble) :
  0 <= width b -> 0 <= height b ->
  tb_width (getTextBounds b) <= width b
  /\ tb_height (getTextBounds b) <= height b.
Proof.
  intros Hw Hh. unfold getTextBounds.
  destruct (type b); simpl; split; nra.
Qed.

(** C2 (where the code departs from the specification): the specification
    bounds every extent by the bubble's width, and for the 50 x 200 speech bubble
    [tallBubble], whose outline stays at [y >= 0], the extent function of
    [calculateTextBounds] answers 100 at [y = 0], twice the bubble's width:
    the row finds no crossing and the fallback sample is half the bubble's
    height. *)
Theorem calculateTextBounds_fallback_exceeds_width (M : MathLib) (D : SvgDom) :
  let p := bodyPath (generateBubblePaths tallBubble) in
  0 <= getTotalLength p ->
  (forall d, 0 <= d -> d <= getTotalLength p ->
             0 <= snd (getPointAtLength p d)) ->
  calculateTextBounds tallBubble 0 == 100
  /\ width tallBubble < calculateTextBounds tallBubble 0.
Proof.
  intros p Hlen Hpts.
  rewrite calculateTextBounds_top; try assumption; try discriminate.
  split; [reflexivity|]. unfold Qlt; simpl; lia.
Qed.

Lemma boxPoint_nonneg (w h d : Q) :
  0 <= w -> 0 <= h -> 0 <= d -> d <= 2 * (w + h) -> 0 <= snd (boxPoint w h d).
Proof.
  intros Hw Hh H0 H1. unfold boxPoint.
  destruct (Qle_bool d w) eqn:E1; [simpl; lra|].
  destruct (Qle_bool d (w + h)) eqn:E2; [bool_to_prop; simpl; lra|].
  destruct (Qle_bool d (w + h + w)) eqn:E3; bool_to_prop; simpl; lra.
Qed.

Lemma calculateTextBounds_fallback_exceeds_width_witness :
  calculateTextBounds (M := polyMath) (D := boxDom) tallBubble 0 == 100
  /\ width tallBubble
     < calculateTextBounds (M := polyMath) (D := boxDom) tallBubble 0.
Proof.
  apply (calculateTextBounds_fallback_exceeds_width polyMath boxDom).
  - unfold Qle; simpl; lia.
  - intros d H0 H1.
    change (0 <= snd (boxPoint 50 200 d)).
    change (d <= 2 * (50 + 200)) in H1.
    apply boxPoint_nonneg; try assumption; unfold Qle; simpl; lia.
Defined.

(* ----------------------------------------------------------------- *)
(** ** The font-size search *)

Section FontSizeSearch.
Context {C : Canvas}.
Variables (text_ fontFamily_ : string) (b : Bubble) (minFontSize : Q).

Lemma candidate_succ (start : Q) (k : nat) :
  candidate minFontSize start (S k)
  = candidate minFontSize (Math_max minFontSize (start - 1)) k.
Proof.
  induction k as [|k IH]; [reflexivity|].
  cbn [candidate] in *. now rewrite IH.
Qed.

(** Every size the loop measures lies between [minFontSize] and the start
    size. *)
Lemma candidate_range (start : Q) (k : nat) :
  minFontSize <= start ->
  minFontSize <= candidate minFontSize start k
  /\ candidate minFontSize start k <= start.
Proof.
  intro Hs. induction k as [|k [IH1 IH2]]; cbn [candidate]; [lra|].
  split; [apply Math_max_lower | apply Math_max_upper; lra].
Qed.

(** In closed form: the size of iteration [k] is [max(min, start - k)]. *)
Lemma candidate_closed_form (start : Q) (k : nat) :
  minFontSize <= start ->
  candidate minFontSize start k
  == Qmax minFontSize (start - inject_Z (Z.of_nat k)).
Proof.
  intro Hs. induction k as [|k IH].
  - cbn [candidate Z.of_nat]. change (inject_Z 0) with 0.
    destruct (Q.max_spec minFontSize (start - 0)) as [[? E] | [? E]];
      rewrite E; lra.
  - cbn [candidate]. unfold Math_max. rewrite IH.
    rewrite Nat2Z.inj_succ. unfold Z.succ. rewrite inject_Z_plus.
    change (inject_Z 1) with 1.
    set (q := inject_Z (Z.of_nat k)).
    destruct (Q.max_spec minFontSize (start - q)) as [[? E1] | [? E1]];
      destruct (Q.max_spec minFontSize (start - (q + 1))) as [[? E2] | [? E2]];
      rewrite E1, E2.
    all: try (rewrite Q.max_r; lra); try (rewrite Q.max_l; lra).
Qed.

(** A starting size below the minimum: the loop is not entered. *)
Lemma fitLoop_below_min (fuel : nat) (s : Q) :
  s < minFontSize ->
  fitLoop text_ fontFamily_ (getTextBounds b) (fontSize b) minFontSize fuel s
  = None.
Proof.
  intro Hs. destruct fuel; [reflexivity|]. cbn [fitLoop].
  apply Qle_bool_false in Hs. now rewrite Hs.
Qed.

(** The loop returns at the first iteration whose size fits. *)
Lemma fitLoop_first_fit (k : nat) :
  forall (fuel : nat) (s : Q),
    (k < fuel)%nat -> minFontSize <= s ->
    (forall j, (j < k)%nat ->
               fitsAt text_ b fontFamily_ (candidate minFontSize s j) = false) ->
    fitsAt text_ b fontFamily_ (candidate minFontSize s k) = true ->
    fitLoop text_ fontFamily_ (getTextBounds b) (fontSize b) minFontSize fuel s
    = let c := candidate minFontSize s k in
      let d := measureText text_ fontFamily_ c (tb_width (getTextBounds b)) in
      Some (mkFit c (dim_width d) (dim_height d) true (c / fontSize b)).
Proof.
  induction k as [|k IH]; intros fuel s Hk Hs Hno Hyes;
    (destruct fuel as [|fuel]; [lia|]); cbn [fitLoop];
    apply Qle_bool_iff in Hs; rewrite Hs; apply Qle_bool_iff in Hs.
  - unfold fitsAt in Hyes. cbn [candidate] in Hyes.
    rewrite Hyes. reflexivity.
  - pose proof (Hno 0%nat ltac:(lia)) as H0.
    unfold fitsAt in H0. cbn [candidate] in H0. rewrite H0.
    rewrite candidate_succ. apply IH.
    + lia.
    + apply Math_max_lower.
    + intros j Hj. rewrite <- candidate_succ. apply Hno. lia.
    + now rewrite <- candidate_succ.
Qed.

(** The loop is left without a result when no measured size fits. *)
Lemma fitLoop_no_fit (fuel : nat) :
  forall s : Q,
    (forall j, (j < fuel)%nat ->
               fitsAt text_ b fontFamily_ (candidate minFontSize s j) = false) ->
    fitLoop text_ fontFamily_ (getTextBounds b) (fontSize b) minFontSize fuel s
    = None.
Proof.
  induction fuel as [|fuel IH]; intros s Hno; [reflexivity|].
  cbn [fitLoop]. destruct (Qle_bool minFontSize s); [|reflexivity].
  pose proof (Hno 0%nat ltac:(lia)) as H0.
  unfold fitsAt in H0. cbn [candidate] in H0. rewrite H0.
  apply IH. intros j Hj. rewrite <- candidate_succ. apply Hno. lia.
Qed.

(** Nothing fits between [minFontSize] and the start size: the loop is left
    without a result. *)
Lemma fitLoop_range_no_fit (start : Q) :
  (forall s, minFontSize <= s -> s <= start ->
             fitsAt text_ b fontFamily_ s = false) ->
  fitLoop text_ fontFamily_ (getTextBounds b) (fontSize b) minFontSize 20 start
  = None.
Proof.
  intro Hno.
  destruct (Qlt_le_dec start minFontSize) as [Hlt | Hle].
  - now apply fitLoop_below_min.
  - apply fitLoop_no_fit. intros j _.
    destruct (candidate_range start j Hle). now apply Hno.
Qed.

End FontSizeSearch.

(** C3 (amended): when no font size in the range
    [[min, min(bubble.fontSize, max)]] makes the measured wrapped text fit,
    [calculateOptimalFontSize] returns [fontSize = min] (it is a total
    function: it never throws), and [fits] is false when the block measured at
    [min] is taller than the safe zone. *)
Theorem calculateOptimalFontSize_exhausted (C : Canvas)
    (text_ : string) (b : Bubble) (fontFamily_ : string)
    (minFontSize maxFontSize : Q) :
  (forall s, minFontSize <= s -> s <= Math_min (fontSize b) maxFontSize ->
             fitsAt text_ b fontFamily_ s = false) ->
  let r := calculateOptimalFontSize text_ b fontFamily_ minFontSize maxFontSize in
  fit_fontSize r = minFontSize
  /\ (tb_height (getTextBounds b)
      < dim_height (measureText text_ fontFamily_ minFontSize
                                (tb_width (getTextBounds b))) ->
      fits r = false).
Proof.
  intros Hno r. unfold r, calculateOptimalFontSize.
  rewrite fitLoop_range_no_fit by assumption.
  split; [reflexivity|]. cbn [fits]. intro H. now apply Qle_bool_false.
Qed.

Lemma calculateOptimalFontSize_exhausted_witness :
  let r := calculateOptimalFontSize (C := noCanvas) "Bonjour"
             (speechBubble 50 30 30 "Bonjour" []) "Arial" 20 40 in
  fit_fontSize r = 20 /\ fits r = false.
Proof.
  pose proof (calculateOptimalFontSize_exhausted noCanvas "Bonjour"
                (speechBubble 50 30 30 "Bonjour" []) "Arial" 20 40) as H.
  cbv zeta in H |- *.
  destruct H as [H1 H2].
  - intros s Hlo Hhi. unfold fitsAt, fitsBounds, measureText.
    cbn [getContext2d noCanvas dim_height dim_width].
    apply andb_false_intro1. apply Qle_bool_false.
    change (tb_height (getTextBounds (speechBubble 50 30 30 "Bonjour" [])))
      with (30 * 0.915).
    lra.
  - split; [exact H1 | apply H2].
    unfold Qlt; simpl; lia.
Defined.

(** The fallback recomputes [fits] from the measurement at [min]: with a
    font size below [min] the range is empty, nothing in it fits, and the
    result still reports a fit. *)
Lemma exhausted_range_can_report_fit :
  let r := calculateOptimalFontSize (C := monoCanvas) "Hi" smallFontBubble
             "Arial" 8 40 in
  (forall s, 8 <= s -> s <= Math_min (fontSize smallFontBubble) 40 ->
             fitsAt (C := monoCanvas) "Hi" smallFontBubble "Arial" s = false)
  /\ fit_fontSize r == 8 /\ fits r = true.
Proof.
  split.
  - intros s Hlo Hhi. exfalso.
    change (Math_min (fontSize smallFontBubble) 40) with (Qmin 5 40) in Hhi.
    rewrite Q.min_l in Hhi by (unfold Qle; simpl; lia). lra.
  - vm_compute. split; reflexivity.
Qed.

(** The fallback tests the height only: one long word that overflows the
    safe zone in width at every size down to [min] is reported as fitting. *)
Lemma fallback_ignores_width :
  let r := calculateOptimalFontSize (C := monoCanvas) "Supercalifragilistic"
             longWordBubble "Arial" 8 40 in
  fitsAt (C := monoCanvas) "Supercalifragilistic" longWordBubble "Arial" 8 = false
  /\ detectTextOverflow (C := monoCanvas) "Supercalifragilistic"
       (with_fontSize longWordBubble 8) "Arial" = true
  /\ fit_fontSize r == 8 /\ fits r = true.
Proof. vm_compute. repeat split. Qed.

(** The steps of the code: [calculateOptimalFontSize] starts at
    [min(bubble.fontSize, max)]; at each step it measures the word-wrapped
    block at the current size against the closed-form bounds and returns that
    size with [fits = true] as soon as width and height both fit; otherwise
    it replaces the size by [max(min, size - 1)] and retries. The loop makes at
    most 20 measurements, and none when the start size is below [min]; when it
    is left, the result is the fallback at [min]. *)
Lemma calculateOptimalFontSize_clamped_steps (C : Canvas)
    (text_ : string) (b : Bubble) (fontFamily_ : string)
    (minFontSize maxFontSize : Q) :
  let start := Math_min (fontSize b) maxFontSize in
  let size_ := candidate minFontSize start in
  let r := calculateOptimalFontSize text_ b fontFamily_ minFontSize maxFontSize in
  (size_ 0%nat = start
   /\ forall k, size_ (S k) = Math_max minFontSize (size_ k - 1))
  /\ (start < minFontSize -> r = fallbackFit text_ b fontFamily_ minFontSize)
  /\ (minFontSize <= start ->
      forall k, (k < 20)%nat ->
        (forall j, (j < k)%nat -> fitsAt text_ b fontFamily_ (size_ j) = false) ->
        fitsAt text_ b fontFamily_ (size_ k) = true ->
        fit_fontSize r = size_ k /\ fits r = true)
  /\ (minFontSize <= start ->
      (forall j, (j < 20)%nat -> fitsAt text_ b fontFamily_ (size_ j) = false) ->
      r = fallbackFit text_ b fontFamily_ minFontSize).
Proof.
  intros start size_ r. unfold r, calculateOptimalFontSize.
  fold start. repeat split.
  - intro Hlt. now rewrite fitLoop_below_min.
  - rewrite (fitLoop_first_fit text_ fontFamily_ b minFontSize k); auto.
  - rewrite (fitLoop_first_fit text_ fontFamily_ b minFontSize k); auto.
  - intros Hle Hno. now rewrite fitLoop_no_fit.
Qed.

Section WholeSteps.
Context {C : Canvas}.
Variables (text_ fontFamily_ : string) (b : Bubble) (minFontSize : Q).
Hypothesis fitsAt_compat :
  forall s s', s == s' ->
    fitsAt text_ b fontFamily_ s = fitsAt text_ b fontFamily_ s'.

Lemma fitLoop_stuck_at_min (fuel : nat) :
  fitsAt text_ b fontFamily_ minFontSize = false ->
  fitLoop text_ fontFamily_ (getTextBounds b) (fontSize b) minFontSize fuel
          minFontSize = None.
Proof.
  intro Hno. apply fitLoop_no_fit. intros j _.
  assert (E : candidate minFontSize minFontSize j == minFontSize).
  { rewrite candidate_closed_form by lra.
    apply Q.max_l.
    assert (0 <= inject_Z (Z.of_nat j)) by (unfold Qle; simpl; lia). lra. }
  now rewrite (fitsAt_compat _ _ E).
Qed.

Lemma Qmax_first (p q : Q) : q < p -> Qmax p q = p.
Proof.
  intro H. unfold Qmax, GenericMinMax.gmax.
  apply Qgt_alt in H. now rewrite H.
Qed.

(** When the start size exceeds [min] by a whole number, as with integer
    font sizes, the code's search finds the size that the search of the
    specification's wording finds. *)
Lemma fitLoop_agrees_on_whole_steps (fuel : nat) :
  forall (n : nat) (s s' : Q),
    s == s' -> s == minFontSize + inject_Z (Z.of_nat n) ->
    match option_map fit_fontSize
            (fitLoop text_ fontFamily_ (getTextBounds b) (fontSize b)
                     minFontSize fuel s),
          spec_search (fitsAt text_ b fontFamily_) minFontSize fuel s' with
    | Some found, Some found' => found == found'
    | None, None => True
    | _, _ => False
    end.
Proof.
  induction fuel as [|fuel IH]; intros n s s' Hss Hs; [exact I|].
  assert (Hn : 0 <= inject_Z (Z.of_nat n)) by (unfold Qle; simpl; lia).
  cbn [fitLoop spec_search].
  assert (E1 : Qle_bool minFontSize s = true) by (apply Qle_bool_iff; lra).
  assert (E2 : Qltb s' minFontSize = false) by (apply Qltb_ge; lra).
  rewrite E1, E2. fold (fitsAt text_ b fontFamily_ s).
  rewrite <- (fitsAt_compat s s' Hss).
  destruct (fitsAt text_ b fontFamily_ s) eqn:Hfit; [exact Hss|].
  destruct n as [|n].
  - change (inject_Z (Z.of_nat 0)) with 0 in Hs.
    unfold Math_max. rewrite Qmax_first by lra.
    rewrite fitLoop_stuck_at_min.
    + destruct fuel; [exact I|]. cbn [spec_search option_map].
      assert (E3 : Qltb (s' - 1) minFontSize = true) by (apply Qltb_lt; lra).
      now rewrite E3.
    + rewrite <- Hfit. apply fitsAt_compat. lra.
  - rewrite Nat2Z.inj_succ in Hs. unfold Z.succ in Hs.
    rewrite inject_Z_plus in Hs. change (inject_Z 1) with 1 in Hs.
    assert (0 <= inject_Z (Z.of_nat n)) by (unfold Qle; simpl; lia).
    assert (Em : Math_max minFontSize (s - 1) == s - 1).
    { unfold Math_max. apply Q.max_r. lra. }
    apply (IH n); rewrite Em; lra.
Qed.

End WholeSteps.

(** What one number measures, another writing of the same number measures
    too. *)
Lemma wrapWords_ext (m m' : string -> Q) (maxWidth : Q) :
  (forall t, m t == m' t) ->
  forall words lines cur,
    wrapWords m maxWidth words lines cur = wrapWords m' maxWidth words lines cur.
Proof.
  intros Hm. induction words as [|w words IH]; intros lines cur;
    [reflexivity|].
  cbn [wrapWords]. unfold Qltb. rewrite (Hm _).
  destruct (negb _ && truthy cur); apply IH.
Qed.

Lemma xmax_ext (a a' : xnum) (q q' : Q) :
  xeq a a' -> q == q' -> xeq (xmax a (Num q)) (xmax a' (Num q')).
Proof.
  intros Ha Hq. destruct a as [|p], a' as [|p']; cbn in *;
    try contradiction; try assumption.
  destruct (Q.max_spec p q) as [[? E1] | [? E1]];
    destruct (Q.max_spec p' q') as [[? E2] | [? E2]];
    rewrite E1, E2; lra.
Qed.

Lemma Math_max_list_ext (m m' : string -> Q) (lines : list string) :
  (forall t, m t == m' t) ->
  xeq (Math_max_list (map m lines)) (Math_max_list (map m' lines)).
Proof.
  intro Hm. unfold Math_max_list.
  assert (G : forall a a', xeq a a' ->
            xeq (fold_left (fun acc q => xmax acc (Num q)) (map m lines) a)
                (fold_left (fun acc q => xmax acc (Num q)) (map m' lines) a')).
  { induction lines as [|l lines IH]; intros a a' Ha; [exact Ha|].
    cbn [map fold_left]. apply IH. now apply xmax_ext. }
  apply G. exact I.
Qed.

Lemma getLineHeightOffset_ext (s s' : Q) :
  s == s' -> getLineHeightOffset s == getLineHeightOffset s'.
Proof.
  intro H. unfold getLineHeightOffset, Qltb, Math_min.
  assert (E : Qle_bool 10 s = Qle_bool 10 s') by now rewrite H.
  rewrite E. destruct (negb (Qle_bool 10 s')).
  - destruct (Q.min_spec 0.8 (0.2 + (s - 5) * 0.02)) as [[? E1] | [? E1]];
      destruct (Q.min_spec 0.8 (0.2 + (s' - 5) * 0.02)) as [[? E2] | [? E2]];
      rewrite E1, E2; nra.
  - destruct (Q.min_spec 0.8 (0.3 + (s - 10) * 0.01)) as [[? E1] | [? E1]];
      destruct (Q.min_spec 0.8 (0.3 + (s' - 10) * 0.01)) as [[? E2] | [? E2]];
      rewrite E1, E2; nra.
Qed.

Lemma sameFit_refl (r : TextFitResult) : sameFit r r.
Proof.
  unfold sameFit. repeat split; try reflexivity.
  destruct (textWidth r); cbn; [exact I | reflexivity].
Qed.

Section SearchAsWorded.
Context {C : Canvas}.
Hypothesis Hext : sizeExtensional C.
Variables (text_ fontFamily_ : string) (b : Bubble) (minFontSize : Q).

Lemma measureText_ext (s s' w : Q) :
  s == s' ->
  xeq (dim_width (measureText text_ fontFamily_ s w))
      (dim_width (measureText text_ fontFamily_ s' w))
  /\ dim_height (measureText text_ fontFamily_ s w)
     == dim_height (measureText text_ fontFamily_ s' w).
Proof.
  intro H. unfold measureText.
  destruct getContext2d as [ctx|] eqn:Ectx.
  - assert (Hm : forall t, ctx s fontFamily_ t == ctx s' fontFamily_ t)
      by (intro t; now apply (Hext ctx Ectx)).
    rewrite (wrapWords_ext _ _ w Hm).
    destruct (wrapWords (ctx s' fontFamily_) w _ _ _) as [lines cur].
    cbn [dim_width dim_height]. split.
    + now apply Math_max_list_ext.
    + rewrite (getLineHeightOffset_ext s s' H), H. reflexivity.
  - cbn [dim_width dim_height xeq]. split; [reflexivity | now rewrite H].
Qed.

Lemma fitsAt_ext (s s' : Q) :
  s == s' -> fitsAt text_ b fontFamily_ s = fitsAt text_ b fontFamily_ s'.
Proof.
  intro H. unfold fitsAt, fitsBounds.
  destruct (measureText_ext s s' (tb_width (getTextBounds b)) H) as [Hw Hh].
  rewrite Hh. f_equal.
  destruct (dim_width (measureText text_ fontFamily_ s _)) as [|p],
           (dim_width (measureText text_ fontFamily_ s' _)) as [|p'];
    cbn in *; try contradiction; [reflexivity | now rewrite Hw].
Qed.

(** From [min] on the loop stays at [min]: whatever it returns there is the
    record of the fall-through. *)
Lemma fitLoop_from_min (fuel : nat) :
  match fitLoop text_ fontFamily_ (getTextBounds b) (fontSize b) minFontSize
                fuel minFontSize with
  | Some r => r
  | None => fallbackFit text_ b fontFamily_ minFontSize
  end = fallbackFit text_ b fontFamily_ minFontSize.
Proof.
  induction fuel as [|fuel IH]; [reflexivity|].
  cbn [fitLoop]. destruct (Qle_bool minFontSize minFontSize); [|reflexivity].
  destruct (fitsBounds _ _) eqn:F.
  - unfold fallbackFit. unfold fitsBounds in F.
    apply andb_true_iff in F as [F _]. now rewrite F.
  - unfold Math_max. rewrite Qmax_first by lra. exact IH.
Qed.

(** The loop of the code and the search of the specification's wording,
    started on the same number with the same number of iterations, give the
    same record. *)
Lemma search_as_worded (fuel : nat) :
  forall s s' : Q, s == s' ->
    sameFit
      (match fitLoop text_ fontFamily_ (getTextBounds b) (fontSize b)
                     minFontSize fuel s with
       | Some r => r
       | None => fallbackFit text_ b fontFamily_ minFontSize
       end)
      (spec_fitFrom text_ b fontFamily_ minFontSize fuel s').
Proof.
  induction fuel as [|fuel IH]; intros s s' Hs; [apply sameFit_refl|].
  unfold spec_fitFrom. cbn [fitLoop spec_search]. unfold Qltb.
  rewrite <- Hs at 1.
  destruct (Qle_bool minFontSize s) eqn:Hle; cbn [negb];
    [|apply sameFit_refl].
  apply Qle_bool_iff in Hle.
  fold (fitsAt text_ b fontFamily_ s). rewrite (fitsAt_ext s s' Hs).
  destruct (fitsAt text_ b fontFamily_ s') eqn:Hfit.
  - destruct (measureText_ext s s' (tb_width (getTextBounds b)) Hs) as [Hw Hh].
    unfold sameFit. cbn [fit_fontSize textWidth textHeight fits scaleFactor].
    repeat split; try assumption. now rewrite Hs.
  - destruct (Qlt_le_dec (s - 1) minFontSize) as [Hlt | Hge].
    + unfold Math_max. rewrite Qmax_first by assumption.
      rewrite fitLoop_from_min.
      assert (En : spec_search (fitsAt text_ b fontFamily_) minFontSize fuel
                               (s' - 1) = None).
      { destruct fuel; [reflexivity|]. cbn [spec_search].
        assert (E : Qltb (s' - 1) minFontSize = true)
          by (apply Qltb_lt; lra).
        now rewrite E. }
      rewrite En. apply sameFit_refl.
    + apply IH. unfold Math_max. rewrite Q.max_r by assumption. now rewrite Hs.
Qed.

End SearchAsWorded.


Lemma monoCanvas_sizeExtensional : sizeExtensional monoCanvas.
Proof.
  intros ctx Hctx s s' ff t Hs. injection Hctx as <-. now rewrite Hs.
Qed.


(** From the font size 8.5 the code goes on to measure at 8, the clamped
    step, where the worded search stops below [min] and finds nothing; the
    fall-through measures at 8 as well, and both end with the size 8 and
    [fits = true]. *)
Example clamped_step_same_result :
  let r := calculateOptimalFontSize (C := monoCanvas) "aaaaa bbbbb"
             halfSizeBubble "Arial" 8 40 in
  let r' := spec_fit (C := monoCanvas) "aaaaa bbbbb" halfSizeBubble "Arial"
              8 40 in
  spec_search (fitsAt (C := monoCanvas) "aaaaa bbbbb" halfSizeBubble "Arial")
    8 20 (Math_min (fontSize halfSizeBubble) 40) = None
  /\ fit_fontSize r == 8 /\ fits r = true
  /\ fit_fontSize r' == 8 /\ fits r' = true.
Proof. vm_compute. repeat split. Qed.

(* ----------------------------------------------------------------- *)
(** ** The tail cut of the speech outlines *)

Lemma roundedRect_no_curve (r w h : Q) : quadCurves (roundedRect r w h) = [].
Proof. reflexivity. Qed.

Lemma generateBubblePaths_speech (M : MathLib) (b : Bubble) :
  isSpeech (type b) = true ->
  bodyPath (generateBubblePaths b) = speechBodyPath (width b) (height b) (parts b).
Proof. intro H. unfold generateBubblePaths. now rewrite H. Qed.

(** The curves of a speech outline, by the edge the tail is cut into. *)
Lemma speechBodyPath_curves (w h : Q) (ps : list BubblePart)
    (tail : SpeechTailPart) :
  findTail ps = Some tail ->
  quadCurves (speechBodyPath w h ps)
  = match tailEdge w h tail with
    | Some e =>
        let (p1, p2) := tailBasePoints w h tail e in
        [(tailControl h tail p1, (tipX tail, tipY tail));
         (tailControl h tail p2, p2)]
    | None => []
    end.
Proof.
  intro Hf. unfold speechBodyPath, tailEdge. rewrite Hf.
  destruct (Qeq_bool (Math_max 0 (Math_min h (baseCY tail))) h); [reflexivity|].
  destruct (Qeq_bool (Math_max 0 (Math_min h (baseCY tail))) 0); [reflexivity|].
  destruct (Qeq_bool (Math_max 0 (Math_min w (baseCX tail))) w); [reflexivity|].
  destruct (Qeq_bool (Math_max 0 (Math_min w (baseCX tail))) 0); reflexivity.
Qed.

Lemma speechBodyPath_plain (w h : Q) (ps : list BubblePart)
    (tail : SpeechTailPart) :
  findTail ps = Some tail -> tailEdge w h tail = None ->
  speechBodyPath w h ps = roundedRect (Math_min w h / 2) w h.
Proof.
  intros Hf. unfold speechBodyPath, tailEdge. rewrite Hf.
  destruct (Qeq_bool (Math_max 0 (Math_min h (baseCY tail))) h); [discriminate|].
  destruct (Qeq_bool (Math_max 0 (Math_min h (baseCY tail))) 0); [discriminate|].
  destruct (Qeq_bool (Math_max 0 (Math_min w (baseCX tail))) w); [discriminate|].
  destruct (Qeq_bool (Math_max 0 (Math_min w (baseCX tail))) 0);
    [discriminate | reflexivity].
Qed.

(** No edge is selected exactly when the base point is strictly inside the
    rectangle. *)
Lemma tailEdge_none_iff (w h : Q) (tail : SpeechTailPart) :
  0 < w -> 0 < h ->
  (tailEdge w h tail = None
   <-> 0 < baseCX tail /\ baseCX tail < w /\ 0 < baseCY tail /\ baseCY tail < h).
Proof.
  intros Hw Hh. unfold tailEdge.
  pose proof (clamp_far h (baseCY tail) Hh) as Fy.
  pose proof (clamp_near h (baseCY tail) Hh) as Ny.
  pose proof (clamp_far w (baseCX tail) Hw) as Fx.
  pose proof (clamp_near w (baseCX tail) Hw) as Nx.
  destruct (Qeq_bool (Math_max 0 (Math_min h (baseCY tail))) h) eqn:E1;
    [bool_to_prop; split; [discriminate | intros; exfalso; apply Fy in E1; lra]|].
  destruct (Qeq_bool (Math_max 0 (Math_min h (baseCY tail))) 0) eqn:E2;
    [bool_to_prop; split; [discriminate | intros; exfalso; apply Ny in E2; lra]|].
  destruct (Qeq_bool (Math_max 0 (Math_min w (baseCX tail))) w) eqn:E3;
    [bool_to_prop; split; [discriminate | intros; exfalso; apply Fx in E3; lra]|].
  destruct (Qeq_bool (Math_max 0 (Math_min w (baseCX tail))) 0) eqn:E4;
    [bool_to_prop; split; [discriminate | intros; exfalso; apply Nx in E4; lra]|].
  bool_to_prop. split; [intros _|reflexivity].
  rewrite Fy in E1. rewrite Ny in E2. rewrite Fx in E3. rewrite Nx in E4.
  repeat split; lra.
Qed.

(** A speech outline has a tail cut exactly when an edge is selected. *)
Lemma speech_tail_cut_iff_edge (M : MathLib) (b : Bubble)
    (tail : SpeechTailPart) :
  isSpeech (type b) = true -> findTail (parts b) = Some tail ->
  (hasTailCut (bodyPath (generateBubblePaths b)) = true
   <-> tailEdge (width b) (height b) tail <> None).
Proof.
  intros Hs Hf. rewrite generateBubblePaths_speech by assumption.
  unfold hasTailCut. rewrite (speechBodyPath_curves _ _ _ tail Hf).
  destruct (tailEdge (width b) (height b) tail) as [e|].
  - destruct (tailBasePoints (width b) (height b) tail e).
    split; [discriminate | reflexivity].
  - split; [discriminate | intro H; now contradiction H].
Qed.

(** C5 (amended): for a SpeechDown, SpeechUp or Whisper bubble of positive
    size that carries a tail, the outline has a tail cut exactly when the
    base point, clamped into the rectangle, is on one of the four edges, with
    no tolerance: that is, when the base point is not strictly inside the
    rectangle. For every base point strictly inside, the outline is the plain
    pill. *)
Theorem tail_cut_iff_base_not_inside (M : MathLib) (b : Bubble)
    (tail : SpeechTailPart) :
  isSpeech (type b) = true -> findTail (parts b) = Some tail ->
  0 < width b -> 0 < height b ->
  let inside :=
    0 < baseCX tail /\ baseCX tail < width b
    /\ 0 < baseCY tail /\ baseCY tail < height b in
  (hasTailCut (bodyPath (generateBubblePaths b)) = true <-> ~ inside)
  /\ (hasTailCut (bodyPath (generateBubblePaths b)) = true
      <-> tailEdge (width b) (height b) tail <> None)
  /\ (inside ->
      bodyPath (generateBubblePaths b)
      = roundedRect (Math_min (width b) (height b) / 2) (width b) (height b)).
Proof.
  intros Hs Hf Hw Hh inside.
  pose proof (tailEdge_none_iff (width b) (height b) tail Hw Hh) as Hedge.
  fold inside in Hedge.
  pose proof (speech_tail_cut_iff_edge M b tail Hs Hf) as Hcut.
  split; [|split].
  - rewrite Hcut, Hedge. tauto.
  - exact Hcut.
  - intro Hin. rewrite generateBubblePaths_speech by assumption.
    apply (speechBodyPath_plain _ _ _ tail Hf). now apply Hedge.
Qed.

Lemma tail_cut_iff_base_not_inside_witness :
  let b := speechBubble 150 90 12 "Bonjour" [SpeechTail scenarioTail] in
  hasTailCut (bodyPath (generateBubblePaths (M := polyMath) b)) = true
  <-> ~ (0 < baseCX scenarioTail /\ baseCX scenarioTail < width b
         /\ 0 < baseCY scenarioTail /\ baseCY scenarioTail < height b).
Proof.
  apply (tail_cut_iff_base_not_inside polyMath
           (speechBubble 150 90 12 "Bonjour" [SpeechTail scenarioTail])
           scenarioTail); try reflexivity.
Defined.

(** A base point 0.00005 above the bottom edge is within the tolerance
    0.0001 of the height (the tolerance the resize handler uses for
    anchoring), and the outline is the plain pill. *)
Lemma base_within_epsilon_has_no_tail :
  let b := speechBubble 150 90 12 "Bonjour" [SpeechTail nearlyPinnedTail] in
  isSpeech (type b) = true
  /\ findTail (parts b) = Some nearlyPinnedTail
  /\ spec_nearEdge 0.0001 (width b) (height b) nearlyPinnedTail = true
  /\ hasTailCut (bodyPath (generateBubblePaths (M := polyMath) b)) = false
  /\ bodyPath (generateBubblePaths (M := polyMath) b)
     = roundedRect (Math_min 150 90 / 2) 150 90.
Proof. vm_compute. repeat split. Qed.

(** The same holds at every positive tolerance. *)
Lemma no_tolerance_at_any_epsilon (M : MathLib) (eps : Q) :
  0 < eps ->
  let tail := mkTail "part-1" 75 (90 - Qmin eps 1 / 2) 20 75 120 30 20 in
  let b := speechBubble 150 90 12 "Bonjour" [SpeechTail tail] in
  spec_nearEdge eps (width b) (height b) tail = true
  /\ hasTailCut (bodyPath (generateBubblePaths b)) = false.
Proof.
  intros Heps tail b.
  assert (Hm : 0 < Qmin eps 1 /\ Qmin eps 1 <= eps /\ Qmin eps 1 <= 1).
  { destruct (Q.min_spec eps 1) as [[? E] | [? E]]; rewrite E; lra. }
  destruct Hm as (Hm0 & Hm1 & Hm2).
  subst tail b. set (m := Qmin eps 1) in *.
  split.
  - unfold spec_nearEdge.
    match goal with
    | |- Qltb ?a eps || _ || _ || _ = true =>
        assert (E : Qltb a eps = true)
    end.
    { apply Qltb_lt. unfold Math_abs. apply Qabs_Qlt_condition.
      cbn [baseCY height speechBubble].
      unfold Qdiv. change (/ 2) with (1 # 2). split; lra. }
    now rewrite E.
  - match goal with
    | |- hasTailCut (bodyPath (generateBubblePaths ?b)) = false =>
        pose proof (speech_tail_cut_iff_edge M b
                      (mkTail "part-1" 75 (90 - m / 2) 20 75 120 30 20)
                      eq_refl eq_refl) as H;
        destruct (hasTailCut (bodyPath (generateBubblePaths b)));
          [|reflexivity]
    end.
    exfalso. apply H; [reflexivity|].
    apply tailEdge_none_iff; cbn [baseCX baseCY width height speechBubble];
      unfold Qdiv; change (/ 2) with (1 # 2); repeat split; lra.
Qed.

(** C6 (amended): when a tail is drawn, on whichever edge, the tail cut is a
    line to the first base-edge point followed by two quadratic curves, the
    first from that point to the tip and the second from the tip to the other
    base-edge point. Along the edge the two base-edge points are
    [max(r, c - baseWidth / 2)] and [min(L - r, c + baseWidth / 2)], for the
    clamped base centre [c], the corner radius [r = min(w, h) / 2] and the
    length [L] of the edge: each is clamped on one side only, and they are
    [c - baseWidth / 2] and [c + baseWidth / 2] whenever these lie on the
    straight part [[r, L - r]] of the edge. The control point of each curve
    has its x 25% of the way from the x of its base-edge point toward the x
    of the tip, and its y midway between the y of the clamped base centre and
    the y of the tip. *)
Theorem tail_cut_control_points (M : MathLib) (b : Bubble)
    (tail : SpeechTailPart) (e : Edge) :
  isSpeech (type b) = true -> findTail (parts b) = Some tail ->
  tailEdge (width b) (height b) tail = Some e ->
  let tip := (tipX tail, tipY tail) in
  let clampedBaseCX := Math_max 0 (Math_min (width b) (baseCX tail)) in
  let clampedBaseCY := Math_max 0 (Math_min (height b) (baseCY tail)) in
  let r := Math_min (width b) (height b) / 2 in
  let halfBase := baseWidth tail / 2 in
  let c := match e with
           | Bottom | Top => clampedBaseCX
           | Right | Left => clampedBaseCY
           end in
  let len := match e with
             | Bottom | Top => width b
             | Right | Left => height b
             end in
  let lo := Math_max r (c - halfBase) in
  let hi := Math_min (len - r) (c + halfBase) in
  let p1 := fst (tailBasePoints (width b) (height b) tail e) in
  let p2 := snd (tailBasePoints (width b) (height b) tail e) in
  let c1 := (fst p1 + (tipX tail - fst p1) * 0.25,
             clampedBaseCY + (tipY tail - clampedBaseCY) * 0.5) in
  let c2 := (fst p2 + (tipX tail - fst p2) * 0.25,
             clampedBaseCY + (tipY tail - clampedBaseCY) * 0.5) in
  quadCurves (bodyPath (generateBubblePaths b)) = [(c1, tip); (c2, p2)]
  /\ (exists before after,
       bodyPath (generateBubblePaths b)
       = before
         ++ [T "L "; V (fst p1); T ","; V (snd p1);
             T " Q "; V (fst c1); T ","; V (snd c1);
             T " "; V (fst tip); T ","; V (snd tip);
             T " Q "; V (fst c2); T ","; V (snd c2);
             T " "; V (fst p2); T ","; V (snd p2)]
         ++ after)
  /\ (p1, p2) = match e with
                | Bottom => ((hi, height b), (lo, height b))
                | Top => ((lo, 0), (hi, 0))
                | Right => ((width b, lo), (width b, hi))
                | Left => ((0, hi), (0, lo))
                end
  /\ r <= lo /\ hi <= len - r
  /\ (r <= c - halfBase -> lo == c - halfBase)
  /\ (c + halfBase <= len - r -> hi == c + halfBase).
Proof.
  intros Hs Hf He tip cx cy r halfBase c len lo hi p1 p2 c1 c2.
  rewrite generateBubblePaths_speech by assumption.
  split; [|split; [|split; [|split; [|split; [|split]]]]].
  - rewrite (speechBodyPath_curves _ _ _ tail Hf), He.
    subst p1 p2 c1 c2 tip cy.
    destruct (tailBasePoints (width b) (height b) tail e). reflexivity.
  - subst p1 p2 c1 c2 tip cy. revert He.
    unfold speechBodyPath, tailEdge. rewrite Hf.
    destruct (Qeq_bool (Math_max 0 (Math_min (height b) (baseCY tail))) (height b)).
    { intros [= <-]. eexists. eexists. cbn [tailBasePoints fst snd].
      unfold createTailPath. cbn [fst snd]. reflexivity. }
    destruct (Qeq_bool (Math_max 0 (Math_min (height b) (baseCY tail))) 0).
    { intros [= <-]. eexists. eexists. cbn [tailBasePoints fst snd].
      unfold createTailPath. cbn [fst snd]. reflexivity. }
    destruct (Qeq_bool (Math_max 0 (Math_min (width b) (baseCX tail))) (width b)).
    { intros [= <-]. eexists. eexists. cbn [tailBasePoints fst snd].
      unfold createTailPath. cbn [fst snd]. reflexivity. }
    destruct (Qeq_bool (Math_max 0 (Math_min (width b) (baseCX tail))) 0).
    { intros [= <-]. eexists. eexists. cbn [tailBasePoints fst snd].
      unfold createTailPath. cbn [fst snd]. reflexivity. }
    discriminate.
  - subst p1 p2 lo hi len c. destruct e; reflexivity.
  - unfold lo. apply Math_max_lower.
  - unfold hi, Math_min. apply Q.le_min_l.
  - intro H. unfold lo, Math_max. now apply Q.max_r.
  - intro H. unfold hi, Math_min. now apply Q.min_r.
Qed.

Lemma tail_cut_control_points_witness :
  let b := speechBubble 150 90 12 "Bonjour" [SpeechTail scenarioTail] in
  let p1 := fst (tailBasePoints 150 90 scenarioTail Bottom) in
  let p2 := snd (tailBasePoints 150 90 scenarioTail Bottom) in
  let clampedBaseCY := Math_max 0 (Math_min 90 90) in
  quadCurves (bodyPath (generateBubblePaths (M := polyMath) b))
  = [((fst p1 + (75 - fst p1) * 0.25, clampedBaseCY + (120 - clampedBaseCY) * 0.5),
      (75, 120));
     ((fst p2 + (75 - fst p2) * 0.25, clampedBaseCY + (120 - clampedBaseCY) * 0.5),
      p2)]
  /\ fst p1 == 75 + 10 /\ fst p2 == 75 - 10.
Proof.
  destruct (tail_cut_control_points polyMath
              (speechBubble 150 90 12 "Bonjour" [SpeechTail scenarioTail])
              scenarioTail Bottom eq_refl eq_refl eq_refl)
    as (H1 & _ & _ & _ & _ & H6 & H7).
  split; [exact H1|]. split.
  - rewrite <- H7; [reflexivity | vm_compute; discriminate].
  - rewrite <- H6; [reflexivity | vm_compute; discriminate].
Defined.

(** The clamps of the base-edge points are one-sided: with the base centre
    in the corner [(150, 90)] of a 150 x 90 bubble (corner radius 45, base
    width 20) the points are at [x = 105] and [x = 140], both left of the
    base centre. *)
Example tail_base_points_one_sided :
  let tail := mkTail "part-1" 150 90 20 150 120 30 20 in
  tailEdge 150 90 tail = Some Bottom
  /\ fst (fst (tailBasePoints 150 90 tail Bottom)) == 105
  /\ fst (snd (tailBasePoints 150 90 tail Bottom)) == 140.
Proof. vm_compute. repeat split. Qed.

(** In the specification's scenario (tail on the bottom edge, [y = 90], tip
    at [(75, 120)]) both control points have [y = 105], midway to the tip,
    where the specification's wording holds them on the base edge, at
    [y = 90]. *)
Lemma tail_control_is_not_on_base_edge :
  let b := speechBubble 150 90 12 "Bonjour" [SpeechTail scenarioTail] in
  let tip := (tipX scenarioTail, tipY scenarioTail) in
  let p1 := fst (tailBasePoints 150 90 scenarioTail Bottom) in
  let p2 := snd (tailBasePoints 150 90 scenarioTail Bottom) in
  tailEdge (width b) (height b) scenarioTail = Some Bottom
  /\ exists c1 c2,
       quadCurves (bodyPath (generateBubblePaths (M := polyMath) b))
       = [(c1, tip); (c2, p2)]
       /\ snd c1 == 105 /\ snd c2 == 105
       /\ snd (spec_tailControl Bottom p1 tip) == 90
       /\ snd (spec_tailControl Bottom p2 tip) == 90
       /\ ~ snd c1 == snd (spec_tailControl Bottom p1 tip)
       /\ ~ snd c2 == snd (spec_tailControl Bottom p2 tip).
Proof.
  cbv zeta. split; [reflexivity|].
  eexists. eexists. split; [vm_compute; reflexivity|].
  vm_compute. repeat split; discriminate.
Qed.

(* ----------------------------------------------------------------- *)
(** ** The Thought outline *)

Section ThoughtOutline.
Context {M : MathLib}.

(** A draw of the generator lies in [[0, 1)]. *)
Lemma random_range (st : Q) :
  0 <= fst (random st) /\ fst (random st) < 1.
Proof.
  unfold random, Math_floor. cbn [fst].
  set (v := Math_sin st * 10000).
  pose proof (Qfloor_le v) as Hlo.
  pose proof (Qlt_floor v) as Hhi.
  rewrite inject_Z_plus in Hhi. change (inject_Z 1) with 1 in Hhi.
  split; lra.
Qed.

Lemma random_state (st : Q) : snd (random st) = st + 1.
Proof. reflexivity. Qed.

(** The number of lobes drawn is between 7 and 12. *)
Lemma drawLobes_range (st : Q) :
  (7 <= fst (drawLobes st) <= 12)%Z.
Proof.
  unfold drawLobes, bind, ret.
  destruct (random st) as [r st'] eqn:E. cbn [fst].
  pose proof (random_range st) as [Hlo Hhi]. rewrite E in Hlo, Hhi.
  cbn [fst] in Hlo, Hhi.
  assert (H0 : (0 <= Qfloor (r * 6))%Z).
  { change 0%Z with (Qfloor 0). apply Qfloor_resp_le. lra. }
  assert (H5 : (Qfloor (r * 6) < 6)%Z).
  { rewrite Zlt_Qlt. pose proof (Qfloor_le (r * 6)).
    change (inject_Z 6) with 6. lra. }
  lia.
Qed.

(** The loop emits one lobe per iteration, each with a bulge factor in
    [[1.3, 1.6]]. *)
Lemma thoughtLoop_lobes (cx cy rx ry lobes : Q) (n : nat) :
  forall (i : nat) (st : Q),
  exists bulges : list Q,
    List.length bulges = n
    /\ Forall (fun f => 1.3 <= f /\ f <= 1.6) bulges
    /\ fst (thoughtLoop cx cy rx ry lobes n i st)
       = flat_map (fun jf => thoughtLobe cx cy rx ry lobes (fst jf) (snd jf))
                  (combine (seq i n) bulges).
Proof.
  induction n as [|n IH]; intros i st.
  - exists []. repeat split. constructor.
  - destruct (IH (S i) (snd (random st))) as (bulges & Hlen & Hall & Hpath).
    exists ((1.3 + fst (random st) * 0.3) :: bulges). split; [|split].
    + cbn [List.length]. now rewrite Hlen.
    + constructor; [|assumption].
      pose proof (random_range st). split; lra.
    + cbn [thoughtLoop seq combine flat_map fst snd].
      rewrite <- Hpath. unfold bind, ret.
      destruct (random st) as [r st1]. cbn [fst snd].
      destruct (thoughtLoop cx cy rx ry lobes n (S i) st1). reflexivity.
Qed.

Lemma quadCurves_thoughtLobe (cx cy rx ry lobes : Q) (i : nat) (f : Q)
    (rest : list tok) :
  quadCurves (thoughtLobe cx cy rx ry lobes i f ++ rest)
  = lobeCurve cx cy rx ry lobes i f :: quadCurves rest.
Proof.
  unfold thoughtLobe.
  destruct (Qeq_bool (inject_Z (Z.of_nat i)) 0); reflexivity.
Qed.

Lemma quadCurves_lobes (cx cy rx ry lobes : Q) (l : list (nat * Q))
    (rest : list tok) :
  quadCurves
    (flat_map (fun jf => thoughtLobe cx cy rx ry lobes (fst jf) (snd jf)) l
     ++ rest)
  = map (fun jf => lobeCurve cx cy rx ry lobes (fst jf) (snd jf)) l
    ++ quadCurves rest.
Proof.
  induction l as [|[j f] l IH]; [reflexivity|].
  cbn [flat_map map fst snd]. rewrite <- app_assoc.
  rewrite quadCurves_thoughtLobe. cbn [app]. now rewrite IH.
Qed.

(** C8: the outline of a Thought bubble is a closed curve (it starts with a
    move to the top of the ellipse and ends with [Z]) of between 7 and 12
    quadratic lobes around the ellipse of radii [0.30 * width] and
    [0.30 * height] centred in the bubble; each lobe ends on the ellipse and
    its control point is the ellipse point of its mid angle pushed outward
    by a factor in [[1.3, 1.6]]. *)
Theorem thought_outline_lobes (b : Bubble) :
  type b = Thought ->
  let cx := width b / 2 in
  let cy := height b / 2 in
  let rx := width b * 0.30 in
  let ry := height b * 0.30 in
  exists (lobes : Z) (bulges : list Q),
    (7 <= lobes <= 12)%Z
    /\ List.length bulges = Z.to_nat lobes
    /\ Forall (fun f => 1.3 <= f /\ f <= 1.6) bulges
    /\ quadCurves (bodyPath (generateBubblePaths b))
       = map (fun jf => lobeCurve cx cy rx ry (inject_Z lobes) (fst jf) (snd jf))
             (combine (seq 0 (Z.to_nat lobes)) bulges)
    /\ exists middle,
         bodyPath (generateBubblePaths b)
         = [T "M";
            V (fst (ellipsePoint cx cy rx ry (lobeAngle (inject_Z lobes) 0)));
            T ",";
            V (snd (ellipsePoint cx cy rx ry (lobeAngle (inject_Z lobes) 0)))]
           ++ middle ++ [T " Z"].
Proof.
  intros Ht cx cy rx ry.
  unfold generateBubblePaths. rewrite Ht. cbn [isSpeech bodyPath].
  unfold evalRand, thoughtBodyPath, bind, ret.
  pose proof (drawLobes_range (seedOf b)) as Hrange.
  destruct (drawLobes (seedOf b)) as [lobes st1]. cbn [fst] in Hrange.
  destruct (thoughtLoop_lobes cx cy rx ry (inject_Z lobes) (Z.to_nat lobes) 0 st1)
    as (bulges & Hlen & Hall & Hpath).
  fold cx cy rx ry.
  destruct (thoughtLoop cx cy rx ry (inject_Z lobes) (Z.to_nat lobes) 0 st1)
    as [path st2].
  cbn [fst] in Hpath |- *. subst path.
  exists lobes, bulges. repeat split; try assumption; try lia.
  - rewrite quadCurves_lobes. cbn [quadCurves]. apply app_nil_r.
  - destruct (Z.to_nat lobes) as [|n] eqn:En; [lia|].
    destruct bulges as [|f bulges]; [discriminate|].
    cbn [seq combine flat_map fst snd]. unfold thoughtLobe at 1.
    change (Qeq_bool (inject_Z (Z.of_nat 0)) 0) with true. cbv iota.
    match goal with
    | |- exists _, ((_ ++ ?q) ++ ?rest) ++ _ = _ => exists (q ++ rest)
    end.
    rewrite <- !app_assoc. reflexivity.
Qed.

End ThoughtOutline.

Lemma thought_outline_lobes_witness :
  let b := thoughtBubble "bubble-1" None in
  exists (lobes : Z) (bulges : list Q),
    (7 <= lobes <= 12)%Z
    /\ List.length bulges = Z.to_nat lobes
    /\ Forall (fun f => 1.3 <= f /\ f <= 1.6) bulges
    /\ quadCurves (bodyPath (generateBubblePaths (M := polyMath) b))
       = map (fun jf =>
                lobeCurve (M := polyMath) (width b / 2) (height b / 2)
                          (width b * 0.30) (height b * 0.30)
                          (inject_Z lobes) (fst jf) (snd jf))
             (combine (seq 0 (Z.to_nat lobes)) bulges).
Proof.
  intro b.
  destruct (thought_outline_lobes (M := polyMath) b eq_refl)
    as (lobes & bulges & H1 & H2 & H3 & H4 & _).
  exists lobes, bulges. repeat split; try assumption; apply H1.
Defined.

(* ----------------------------------------------------------------- *)
(** ** Gestures: what a pointer move keeps *)

Lemma updatePart_ids (pid : option string) (f : BubblePart -> option BubblePart)
    (ps : list BubblePart) :
  (forall p p', f p = Some p' ->
                part_id p' = part_id p /\ isTailPart p' = isTailPart p) ->
  map part_id (updatePart pid f ps) = map part_id ps
  /\ map isTailPart (updatePart pid f ps) = map isTailPart ps.
Proof.
  intro Hf. induction ps as [|p ps [IH1 IH2]]; [split; reflexivity|].
  cbn [updatePart].
  destruct (match pid with Some i => String.eqb (part_id p) i | None => false end).
  - destruct (f p) as [p'|] eqn:E; [|split; reflexivity].
    destruct (Hf p p' E) as [H1 H2]. cbn [map]. now rewrite H1, H2.
  - cbn [map]. now rewrite IH1, IH2.
Qed.

Lemma resizePart_ids (ow oh nw nh : Q) (ps : list BubblePart) :
  map part_id (map (resizePart ow oh nw nh) ps) = map part_id ps
  /\ map isTailPart (map (resizePart ow oh nw nh) ps) = map isTailPart ps.
Proof.
  rewrite !map_map. split; apply map_ext; intros [t|d]; reflexivity.
Qed.

(** [moveTailBase] reads the part for its id and its widths only, and keeps
    them. *)
Lemma moveTailBase_keeps (i : Interaction) (w h dx dy : Q) (t : SpeechTailPart) :
  tail_id (moveTailBase i w h dx dy t) = tail_id t
  /\ baseWidth (moveTailBase i w h dx dy t) = baseWidth t
  /\ initialLength (moveTailBase i w h dx dy t) = initialLength t
  /\ initialBaseWidth (moveTailBase i w h dx dy t) = initialBaseWidth t.
Proof.
  unfold moveTailBase.
  match goal with |- context [let (_, _) := ?e in _] => destruct e end.
  repeat split.
Qed.

Lemma moveTailBase_reads (i : Interaction) (w h dx dy : Q)
    (t1 t2 : SpeechTailPart) :
  tail_id t1 = tail_id t2 -> baseWidth t1 = baseWidth t2 ->
  initialLength t1 = initialLength t2 ->
  initialBaseWidth t1 = initialBaseWidth t2 ->
  moveTailBase i w h dx dy t1 = moveTailBase i w h dx dy t2.
Proof.
  intros H1 H2 H3 H4. unfold moveTailBase. now rewrite H1, H2, H3, H4.
Qed.

(** The parts a pointer move starts from: the snapshot's in a resize that
    has one, the bubble's otherwise. *)
Lemma handleMouseMove_frame_parts (i : Interaction) (b : Bubble) (px py : Q) :
  let origin :=
    match mode i, initialParts i with
    | Some Resize, Some ps => ps
    | _, _ => parts b
    end in
  map part_id (parts (handleMouseMove i b px py)) = map part_id origin
  /\ map isTailPart (parts (handleMouseMove i b px py)) = map isTailPart origin.
Proof.
  unfold handleMouseMove.
  destruct (mode i) as [[| | | |]|]; cbn [parts with_geometry with_parts];
    try (split; reflexivity).
  - destruct (initialParts i); apply resizePart_ids.
  - destruct (initialParts i); apply updatePart_ids;
      intros [t|d] p' [=]; subst; split; reflexivity.
  - destruct (initialParts i); apply updatePart_ids;
      intros [t|d] p' [=]; subst; split; reflexivity.
  - destruct (initialParts i); apply updatePart_ids;
      intros [t|d] p' [=]; subst; (split; [|reflexivity]);
      cbn [part_id]; apply moveTailBase_keeps.
Qed.

(** X1: a pointer move of any gesture never touches the bubble's id, type,
    text, font, colors, stacking index or shape variant, and never adds,
    drops, reorders or retags parts: the ids and kinds of the parts are those
    of the parts it starts from. *)
Theorem handleMouseMove_frame (i : Interaction) (b : Bubble) (px py : Q) :
  let b' := handleMouseMove i b px py in
  let origin :=
    match mode i, initialParts i with
    | Some Resize, Some ps => ps
    | _, _ => parts b
    end in
  id b' = id b /\ type b' = type b /\ text b' = text b
  /\ fontFamily b' = fontFamily b /\ fontSize b' = fontSize b
  /\ textColor b' = textColor b /\ borderColor b' = borderColor b
  /\ zIndex b' = zIndex b /\ shapeVariant b' = shapeVariant b
  /\ map part_id (parts b') = map part_id origin
  /\ map isTailPart (parts b') = map isTailPart origin.
Proof.
  intros b' origin.
  assert (H : id b' = id b /\ type b' = type b /\ text b' = text b
              /\ fontFamily b' = fontFamily b /\ fontSize b' = fontSize b
              /\ textColor b' = textColor b /\ borderColor b' = borderColor b
              /\ zIndex b' = zIndex b /\ shapeVariant b' = shapeVariant b).
  { unfold b', handleMouseMove.
    destruct (mode i) as [[| | | |]|]; repeat split. }
  pose proof (handleMouseMove_frame_parts i b px py) as Hp.
  cbv zeta in Hp. tauto.
Qed.

Lemma updatePart_twice (pid : option string)
    (f1 f2 : BubblePart -> option BubblePart) (ps : list BubblePart) :
  (forall p p', f1 p = Some p' ->
                part_id p' = part_id p /\ f2 p' = f2 p /\ f2 p <> None) ->
  updatePart pid f2 (updatePart pid f1 ps) = updatePart pid f2 ps.
Proof.
  intro Hf. induction ps as [|p ps IH]; [reflexivity|].
  cbn [updatePart].
  destruct (match pid with Some i => String.eqb (part_id p) i | None => false end)
    eqn:Eid.
  - destruct (f1 p) as [p'|] eqn:E1.
    + destruct (Hf p p' E1) as (Hid & H2 & Hsome).
      cbn [updatePart]. rewrite Hid, Eid, H2.
      destruct (f2 p); [reflexivity | contradiction].
    + cbn [updatePart]. now rewrite Eid.
  - cbn [updatePart]. now rewrite Eid, IH.
Qed.

(** X2: within a gesture every pointer move recomputes the bubble from the
    snapshot: moving to one position and then to another gives what moving
    to the second at once gives, so no error accumulates. (A resize needs the
    snapshot of the parts that the mouse-down stores.) *)
Theorem handleMouseMove_no_drift (i : Interaction) (b : Bubble)
    (px py px' py' : Q) :
  (mode i = Some Resize -> initialParts i <> None) ->
  handleMouseMove i (handleMouseMove i b px py) px' py'
  = handleMouseMove i b px' py'.
Proof.
  intro Hsnap. unfold handleMouseMove.
  destruct (mode i) as [[| | | |]|] eqn:Hm.
  - reflexivity.
  - destruct (initialParts i); [reflexivity | now contradiction Hsnap].
  - unfold with_parts, with_geometry. cbn. f_equal.
    apply updatePart_twice.
    intros [t|d] p' [=]; subst. repeat split. discriminate.
  - unfold with_parts, with_geometry. cbn. f_equal.
    apply updatePart_twice.
    intros [t|d] p' [=]; subst. repeat split. discriminate.
  - unfold with_parts, with_geometry. cbn. f_equal.
    apply updatePart_twice.
    intros [t|d] p' [=]; subst.
    destruct (moveTailBase_keeps i (width b) (height b) (px - startX i)
                (py - startY i) t) as (K1 & K2 & K3 & K4).
    split; [exact K1|]. split; [|discriminate].
    f_equal. f_equal. now apply moveTailBase_reads.
  - reflexivity.
Qed.

Lemma handleMouseMove_no_drift_witness :
  handleMouseMove resizeFromBottomRight
    (handleMouseMove resizeFromBottomRight
       (speechBubble 150 90 12 "Bonjour" [SpeechTail scenarioTail]) 10 10)
    50 30
  = handleMouseMove resizeFromBottomRight
      (speechBubble 150 90 12 "Bonjour" [SpeechTail scenarioTail]) 50 30.
Proof.
  apply handleMouseMove_no_drift. intros _. discriminate.
Defined.

(* ----------------------------------------------------------------- *)
(** ** Gestures: the resize *)

Lemma resizePart_in_box (ow oh nw nh : Q) (p : BubblePart) :
  0 <= nw -> 0 <= nh -> partInBox nw nh (resizePart ow oh nw nh p).
Proof.
  intros Hw Hh. destruct p as [t|d]; cbn [resizePart partInBox baseCX baseCY
    baseWidth initialBaseWidth offsetX offsetY size].
  - repeat split;
      repeat match goal with
        | |- context [if ?c then _ else _] => destruct c
        end;
      try lra; minmax_cases; lra.
  - repeat split; minmax_cases; lra.
Qed.

(** X3: after a resize that started on a bubble of positive width and
    height (the divisors of the two scale factors), every part, its
    coordinates being numbers, lies within the new box: the base of a tail and the centre of a dot are in
    [[0, width] x [0, height]], the base width of a tail is at least 1 and
    the size of a dot at least 2. *)
Theorem resize_parts_in_box (i : Interaction) (b : Bubble) (px py : Q) :
  mode i = Some Resize ->
  0 < initialBubbleWidth i -> 0 < initialBubbleHeight i ->
  let b' := handleMouseMove i b px py in
  Forall (partInBox (width b') (height b')) (parts b').
Proof.
  intros Hm _ _ b'. unfold b', handleMouseMove. rewrite Hm.
  cbn [parts width height with_geometry].
  apply Forall_forall. intros p Hin. apply in_map_iff in Hin as (p0 & <- & _).
  apply resizePart_in_box.
  - pose proof (Math_max_lower MIN_BUBBLE_WIDTH
                  (initialBubbleWidth i
                   + (if includes_r (activeHandle i) then px - startX i
                      else if includes_l (activeHandle i) then - (px - startX i)
                      else 0))) as H.
    unfold MIN_BUBBLE_WIDTH in *. lra.
  - pose proof (Math_max_lower MIN_BUBBLE_HEIGHT
                  (initialBubbleHeight i
                   + (if includes_b (activeHandle i) then py - startY i
                      else if includes_t (activeHandle i) then - (py - startY i)
                      else 0))) as H.
    unfold MIN_BUBBLE_HEIGHT in *. lra.
Qed.

Lemma resize_parts_in_box_witness :
  let b' := handleMouseMove resizeFromBottomRight
              (speechBubble 150 90 12 "Bonjour" [SpeechTail scenarioTail])
              (-500) (-500) in
  Forall (partInBox (width b') (height b')) (parts b').
Proof.
  apply resize_parts_in_box; reflexivity.
Defined.

(** X4: in a resize the opposite edge stays where it was as long as the size
    is above its minimum: dragging a left handle keeps [x + width], dragging a
    top handle keeps [y + height], and the other handles keep [x], [y]. Once
    the minimum is reached the bubble is pushed along: the far edge is then at
    the dragged edge plus the minimum size. *)
Theorem resize_opposite_edge (i : Interaction) (b : Bubble) (px py : Q) :
  mode i = Some Resize ->
  let b' := handleMouseMove i b px py in
  let dX := px - startX i in
  let dY := py - startY i in
  let right0 := initialBubbleX i + initialBubbleWidth i in
  let bottom0 := initialBubbleY i + initialBubbleHeight i in
  (includes_l (activeHandle i) = false -> x b' = initialBubbleX i)
  /\ (includes_t (activeHandle i) = false -> y b' = initialBubbleY i)
  /\ (includes_l (activeHandle i) = true ->
      (MIN_BUBBLE_WIDTH <= initialBubbleWidth i - dX -> x b' + width b' == right0)
      /\ (initialBubbleWidth i - dX < MIN_BUBBLE_WIDTH ->
          x b' + width b' == initialBubbleX i + dX + MIN_BUBBLE_WIDTH))
  /\ (includes_t (activeHandle i) = true ->
      (MIN_BUBBLE_HEIGHT <= initialBubbleHeight i - dY -> y b' + height b' == bottom0)
      /\ (initialBubbleHeight i - dY < MIN_BUBBLE_HEIGHT ->
          y b' + height b' == initialBubbleY i + dY + MIN_BUBBLE_HEIGHT)).
Proof.
  intros Hm b' dX dY right0 bottom0.
  unfold b', handleMouseMove. rewrite Hm.
  cbn [x y width height with_geometry]. fold dX dY.
  split; [|split; [|split]].
  - intros ->. reflexivity.
  - intros ->. reflexivity.
  - intros Hl.
    destruct (activeHandle i) as [[]|]; try discriminate;
      cbn [includes_l includes_r]; unfold right0, Math_max;
      (split; intro Hc; [rewrite Q.max_r | rewrite Q.max_l]; lra).
  - intros Hl.
    destruct (activeHandle i) as [[]|]; try discriminate;
      cbn [includes_t includes_b]; unfold bottom0, Math_max;
      (split; intro Hc; [rewrite Q.max_r | rewrite Q.max_l]; lra).
Qed.

Lemma resize_opposite_edge_witness :
  let i := mkInteraction (Some Resize) (Some tl) None 100 100 20 30 150 90
                         0 0 0 0 0 0 (Some []) in
  let b' := handleMouseMove i (speechBubble 150 90 12 "Bonjour" []) 140 110 in
  x b' + width b' == 20 + 150 /\ y b' + height b' == 30 + 90.
Proof.
  intros i b'.
  destruct (resize_opposite_edge i (speechBubble 150 90 12 "Bonjour" [])
              140 110 eq_refl) as (_ & _ & Hx & Hy).
  split.
  - apply Hx; [reflexivity|]. vm_compute. discriminate.
  - apply Hy; [reflexivity|]. vm_compute. discriminate.
Defined.

Lemma findTail_map_resize (ow oh nw nh : Q) (ps : list BubblePart) :
  findTail (map (resizePart ow oh nw nh) ps)
  = option_map (resizeTail ow oh nw nh) (findTail ps).
Proof.
  induction ps as [|[t|d] ps IH]; [reflexivity | reflexivity | exact IH].
Qed.

Lemma Qabs_small_of_eq (a b eps : Q) : a == b -> 0 < eps -> Qabs (a - b) < eps.
Proof.
  intros E He. apply Qabs_Qlt_condition. split; lra.
Qed.

(** A base on an edge of a box of positive size selects an edge. *)
Lemma tailEdge_of_perimeter (w h : Q) (t : SpeechTailPart) :
  0 < w -> 0 < h -> onPerimeter w h t -> tailEdge w h t <> None.
Proof.
  intros Hw Hh Hon Hnone.
  apply (tailEdge_none_iff w h t Hw Hh) in Hnone.
  destruct Hon as [H | [H | [H | H]]]; lra.
Qed.

(** The four anchoring tests of the resize on a tail, and what they give. *)
Lemma resizeTail_anchored (ow oh nw nh : Q) (t : SpeechTailPart) :
  let t' := resizeTail ow oh nw nh t in
  (Qabs (baseCY t - oh) < 0.0001 -> baseCY t' = nh)
  /\ (~ Qabs (baseCY t - oh) < 0.0001 -> Qabs (baseCY t) < 0.0001 ->
      baseCY t' = 0)
  /\ (Qabs (baseCX t - ow) < 0.0001 -> baseCX t' = nw)
  /\ (~ Qabs (baseCX t - ow) < 0.0001 -> Qabs (baseCX t) < 0.0001 ->
      baseCX t' = 0)
  /\ tipX t' - baseCX t' == (tipX t - baseCX t) * (nw / ow)
  /\ tipY t' - baseCY t' == (tipY t - baseCY t) * (nh / oh).
Proof.
  unfold resizeTail, resizePart, Math_abs.
  cbn [baseCX baseCY tipX tipY].
  repeat split.
  - intro H. apply Qltb_lt in H. now rewrite H.
  - intros H1 H2. apply Qltb_lt in H2. rewrite H2.
    destruct (Qltb (Qabs (baseCY t - oh)) 0.0001) eqn:E; [|reflexivity].
    apply Qltb_lt in E. contradiction.
  - intro H. apply Qltb_lt in H. now rewrite H.
  - intros H1 H2. apply Qltb_lt in H2. rewrite H2.
    destruct (Qltb (Qabs (baseCX t - ow)) 0.0001) eqn:E; [|reflexivity].
    apply Qltb_lt in E. contradiction.
  - ring.
  - ring.
Qed.



(* ----------------------------------------------------------------- *)
(** ** Gestures: dragging the base of a tail *)

Lemma clamp_range (v w : Q) :
  0 <= w -> 0 <= Math_max 0 (Math_min v w) /\ Math_max 0 (Math_min v w) <= w.
Proof. intro Hw. minmax_cases; lra. Qed.

Lemma clamp_range' (v w : Q) :
  0 <= w -> 0 <= Math_max 0 (Math_min w v) /\ Math_max 0 (Math_min w v) <= w.
Proof. intro Hw. minmax_cases; lra. Qed.

Lemma clamp_inside (v w : Q) :
  0 <= v -> v <= w -> Math_max 0 (Math_min v w) == v.
Proof. intros H0 H1. minmax_cases; lra. Qed.

Lemma moveTailBase_target (i : Interaction) (w h dx dy : Q) (t : SpeechTailPart) :
  moveTailBase i w h dx dy t
  = let P := tailBaseTarget i w h dx dy in
    mkTail (tail_id t)
           (Math_max 0 (Math_min (fst P) w)) (Math_max 0 (Math_min (snd P) h))
           (baseWidth t)
           (fst P + (initialTipX i - initialBaseCX i))
           (snd P + (initialTipY i - initialBaseCY i))
           (initialLength t) (initialBaseWidth t).
Proof.
  unfold moveTailBase, tailBaseTarget.
  match goal with |- context [let (_, _) := ?e in _] => destruct e end.
  reflexivity.
Qed.

(** The target by the anchoring of the snapshot's base. *)
Lemma tailBaseTarget_cases (i : Interaction) (w h dx dy : Q) :
  let P := tailBaseTarget i w h dx dy in
  let bottom := Qabs (initialBaseCY i - h) < 0.001 in
  let top := Qabs (initialBaseCY i) < 0.001 in
  let right := Qabs (initialBaseCX i - w) < 0.001 in
  let left := Qabs (initialBaseCX i) < 0.001 in
  (bottom ->
   fst P = Math_max 0 (Math_min w (initialBaseCX i + dx)) /\ snd P = h)
  /\ (~ bottom -> top ->
      fst P = Math_max 0 (Math_min w (initialBaseCX i + dx)) /\ snd P = 0)
  /\ (~ bottom -> ~ top -> left \/ right ->
      (fst P = w \/ fst P = 0)
      /\ snd P = Math_max 0 (Math_min h (initialBaseCY i + dy)))
  /\ (snd P = h \/ snd P = 0 \/ fst P = w \/ fst P = 0).
Proof.
  cbv zeta. unfold tailBaseTarget, Math_abs.
  destruct (Qltb (Qabs (initialBaseCY i - h)) 0.001) eqn:Eb;
    destruct (Qltb (Qabs (initialBaseCY i)) 0.001) eqn:Et;
    destruct (Qltb (Qabs (initialBaseCX i - w)) 0.001) eqn:Er;
    destruct (Qltb (Qabs (initialBaseCX i)) 0.001) eqn:El;
    cbn [orb fst snd];
    try (destruct (Qltb (Qabs ((initialBaseCY i + dy - h / 2) / h))
                        (Qabs ((initialBaseCX i + dx - w / 2) / w)));
         [destruct (Qltb 0 (initialBaseCX i + dx - w / 2))
         |destruct (Qltb 0 (initialBaseCY i + dy - h / 2))];
         cbn [fst snd]);
    rewrite <- ?Qltb_lt, ?Eb, ?Et, ?Er, ?El;
    repeat split; intros; try congruence; try tauto;
    try (match goal with H : _ \/ _ |- _ => destruct H; congruence end).
Qed.

(** X6: dragging the base of a tail keeps it on the perimeter of the bubble
    (for a box of non-negative size the new base is within the box and on one
    of its four edges). When the base was within 0.001 of the bottom or top
    edge it stays on that edge and follows the pointer horizontally, clamped
    to [[0, width]]; and when it was within 0.001 of any edge the tip moves
    with it (the vector from base to tip is the snapshot's). *)
Theorem moveTailBase_stays_on_perimeter (i : Interaction) (w h dx dy : Q)
    (t : SpeechTailPart) :
  0 <= w -> 0 <= h ->
  let t' := moveTailBase i w h dx dy t in
  let bottom := Qabs (initialBaseCY i - h) < 0.001 in
  let top := Qabs (initialBaseCY i) < 0.001 in
  let right := Qabs (initialBaseCX i - w) < 0.001 in
  let left := Qabs (initialBaseCX i) < 0.001 in
  (0 <= baseCX t' /\ baseCX t' <= w /\ 0 <= baseCY t' /\ baseCY t' <= h)
  /\ onPerimeter w h t'
  /\ (bottom -> baseCY t' == h)
  /\ (~ bottom -> top -> baseCY t' == 0)
  /\ (bottom \/ top ->
      baseCX t' == Math_max 0 (Math_min w (initialBaseCX i + dx)))
  /\ (bottom \/ top \/ left \/ right ->
      tipX t' - baseCX t' == initialTipX i - initialBaseCX i
      /\ tipY t' - baseCY t' == initialTipY i - initialBaseCY i).
Proof.
  intros Hw Hh t' bottom top right left.
  pose proof (tailBaseTarget_cases i w h dx dy)
    as (Cb & Ct & Cs & Cany).
  fold bottom top right left in Cb, Ct, Cs.
  unfold t'. rewrite moveTailBase_target.
  set (P := tailBaseTarget i w h dx dy) in *.
  cbn [baseCX baseCY tipX tipY].
  pose proof (clamp_range (fst P) w Hw) as Rx.
  pose proof (clamp_range (snd P) h Hh) as Ry.
  assert (Hx : bottom \/ top ->
               Math_max 0 (Math_min (fst P) w)
               == Math_max 0 (Math_min w (initialBaseCX i + dx))).
  { intro H. assert (E : fst P = Math_max 0 (Math_min w (initialBaseCX i + dx))).
    { destruct (Qlt_le_dec (Qabs (initialBaseCY i - h)) 0.001) as [B|B].
      - now apply Cb.
      - apply Ct; [unfold bottom; lra|]. destruct H; [unfold bottom in *; lra|].
        assumption. }
    rewrite E.
    destruct (clamp_range' (initialBaseCX i + dx) w Hw).
    apply clamp_inside; assumption. }
  split; [tauto|]. split; [|split; [|split; [|split]]].
  - unfold onPerimeter. cbn [baseCX baseCY].
    destruct Cany as [E | [E | [E | E]]]; rewrite E.
    + left. apply clamp_inside; lra.
    + right; left. apply clamp_inside; lra.
    + right; right; left. apply clamp_inside; lra.
    + right; right; right. apply clamp_inside; lra.
  - intro Hb. destruct (Cb Hb) as [_ E]. rewrite E. apply clamp_inside; lra.
  - intros Hnb Htp. destruct (Ct Hnb Htp) as [_ E]. rewrite E.
    apply clamp_inside; lra.
  - exact Hx.
  - intro Hanch.
    assert (In : Math_max 0 (Math_min (fst P) w) == fst P
                 /\ Math_max 0 (Math_min (snd P) h) == snd P).
    { destruct (Qlt_le_dec (Qabs (initialBaseCY i - h)) 0.001) as [B|B].
      - destruct (Cb B) as [E1 E2]. rewrite E1, E2.
        pose proof (clamp_range' (initialBaseCX i + dx) w Hw).
        split; apply clamp_inside; lra.
      - destruct (Qlt_le_dec (Qabs (initialBaseCY i)) 0.001) as [Tp|Tp].
        + destruct (Ct ltac:(unfold bottom; lra) Tp) as [E1 E2]. rewrite E1, E2.
          pose proof (clamp_range' (initialBaseCX i + dx) w Hw).
          split; apply clamp_inside; lra.
        + destruct (Cs ltac:(unfold bottom; lra) ltac:(unfold top; lra))
            as [E1 E2].
          { unfold bottom, top in Hanch. destruct Hanch as [?|[?|[?|?]]];
              try lra; tauto. }
          rewrite E2.
          pose proof (clamp_range' (initialBaseCY i + dy) h Hh).
          destruct E1 as [E1 | E1]; rewrite E1;
            split; apply clamp_inside; lra. }
    destruct In as [In1 In2]. rewrite In1, In2. split; ring.
Qed.

Lemma moveTailBase_stays_on_perimeter_witness :
  let i := mkInteraction (Some MoveTailBase) None (Some "part-1") 0 0 0 0 150 90
                         0 0 75 120 75 90 None in
  let t' := moveTailBase i 150 90 200 (-40) scenarioTail in
  onPerimeter 150 90 t' /\ baseCY t' == 90.
Proof.
  intros i t'.
  destruct (moveTailBase_stays_on_perimeter i 150 90 200 (-40) scenarioTail)
    as (_ & H2 & H3 & _); try (unfold Qle; simpl; lia).
  split; [exact H2 | apply H3]. vm_compute. reflexivity.
Defined.

(* ----------------------------------------------------------------- *)
(** ** Gestures: a pinned tail stays pinned *)

Lemma updatePart_none (f : BubblePart -> option BubblePart)
    (ps : list BubblePart) :
  updatePart None f ps = ps.
Proof. induction ps as [|p ps IH]; [reflexivity|]. cbn [updatePart]. now rewrite IH. Qed.

(** An update by id leaves the first tail alone, or it is the part the id
    names and its update is the new first tail. *)
Lemma findTail_updatePart (pid : string) (f : BubblePart -> option BubblePart)
    (ps : list BubblePart) (t : SpeechTailPart) :
  (forall p p', f p = Some p' -> isTailPart p' = isTailPart p) ->
  findTail ps = Some t ->
  findTail (updatePart (Some pid) f ps) = Some t
  \/ (findPart pid ps = Some (SpeechTail t)
      /\ exists t', f (SpeechTail t) = Some (SpeechTail t')
           /\ findTail (updatePart (Some pid) f ps) = Some t').
Proof.
  intros Hf. induction ps as [|p ps IH]; [discriminate|].
  intro Ht. cbn [updatePart findPart].
  destruct (String.eqb (part_id p) pid) eqn:Eid.
  - destruct (f p) as [p'|] eqn:Efp; [|left; exact Ht].
    pose proof (Hf p p' Efp) as Hk.
    destruct p as [t0|d0]; destruct p' as [t1|d1]; try discriminate.
    + cbn [findTail] in Ht. injection Ht as ->.
      right. split; [reflexivity|]. exists t1. split; [exact Efp | reflexivity].
    + left. exact Ht.
  - destruct p as [t0|d0].
    + left. exact Ht.
    + cbn [findTail] in *. exact (IH Ht).
Qed.

(** Moves that do not resize and do not drag the base of a tail keep the
    base of the tail and the size of the bubble. *)
Lemma handleMouseMove_keeps_base (i : Interaction) (b : Bubble) (px py : Q)
    (t : SpeechTailPart) :
  mode i <> Some Resize -> mode i <> Some MoveTailBase ->
  findTail (parts b) = Some t ->
  exists t', findTail (parts (handleMouseMove i b px py)) = Some t'
    /\ baseCX t' = baseCX t /\ baseCY t' = baseCY t.
Proof.
  intros Hr Hb Ht. unfold handleMouseMove.
  destruct (mode i) as [[| | | |]|]; try contradiction;
    cbn [parts with_geometry with_parts];
    try (exists t; repeat split; assumption).
  - destruct (activePartId i) as [pid|];
      [|rewrite updatePart_none; exists t; repeat split; assumption].
    match goal with
    | |- context [updatePart _ ?f _] =>
        destruct (findTail_updatePart pid f (parts b) t) as [H | (_ & t' & H & _)]
    end; try assumption.
    + intros [t0|d0] p' [=]; subst; reflexivity.
    + exists t. repeat split; assumption.
    + discriminate.
  - destruct (activePartId i) as [pid|];
      [|rewrite updatePart_none; exists t; repeat split; assumption].
    match goal with
    | |- context [updatePart _ ?f _] =>
        destruct (findTail_updatePart pid f (parts b) t) as [H | (_ & t' & H & H')]
    end; try assumption.
    + intros [t0|d0] p' [=]; subst; reflexivity.
    + exists t. repeat split; assumption.
    + exists t'. injection H as <-. repeat split; assumption.
Qed.

Lemma pinnedTo_resize (e : Edge) (i : Interaction) (b : Bubble) (px py : Q) :
  mode i = Some Resize -> initialParts i = Some (parts b) ->
  initialBubbleWidth i = width b -> initialBubbleHeight i = height b ->
  0.001 <= width b -> 0.001 <= height b ->
  pinnedTo e b -> pinnedTo e (handleMouseMove i b px py).
Proof.
  intros Hm Hp Ew Eh Hw Hh (t & Ht & He).
  unfold pinnedTo, handleMouseMove. rewrite Hm, Hp, Ew, Eh.
  cbn [parts width height with_geometry].
  match goal with
  | |- context [map (resizePart ?ow ?oh ?nw ?nh) _] =>
      exists (resizeTail ow oh nw nh t);
      destruct (resizeTail_anchored ow oh nw nh t) as (Hb & Htp & Hr & Hl & _)
  end.
  split; [rewrite findTail_map_resize, Ht; reflexivity|].
  destruct e.
  - rewrite Hb; [reflexivity|]. apply Qabs_small_of_eq; [assumption | lra].
  - rewrite Htp; [reflexivity| |].
    + intro H. apply Qabs_Qlt_condition in H. lra.
    + apply Qabs_Qlt_condition. lra.
  - rewrite Hr; [reflexivity|]. apply Qabs_small_of_eq; [assumption | lra].
  - rewrite Hl; [reflexivity| |].
    + intro H. apply Qabs_Qlt_condition in H. lra.
    + apply Qabs_Qlt_condition. lra.
Qed.

Lemma pinnedTo_moveTailBase (e : Edge) (i : Interaction) (b : Bubble)
    (px py : Q) :
  mode i = Some MoveTailBase ->
  (forall pid t0, activePartId i = Some pid ->
                  findPart pid (parts b) = Some (SpeechTail t0) ->
                  initialBaseCY i = baseCY t0) ->
  e = Bottom \/ e = Top -> 0.001 <= height b ->
  pinnedTo e b -> pinnedTo e (handleMouseMove i b px py).
Proof.
  intros Hm Hsnap He Hh (t & Ht & Hpin).
  unfold pinnedTo, handleMouseMove. rewrite Hm.
  cbn [parts width height with_parts with_geometry].
  destruct (activePartId i) as [pid|] eqn:Epid;
    [|rewrite updatePart_none; exists t; split; assumption].
  match goal with
  | |- context [updatePart _ ?f _] =>
      destruct (findTail_updatePart pid f (parts b) t)
        as [H | (Hfp & t' & H & H')]
  end; try assumption.
  - intros [t0|d0] p' [=]; subst; reflexivity.
  - exists t. split; assumption.
  - exists t'. split; [exact H'|]. injection H as <-.
    pose proof (Hsnap pid t eq_refl Hfp) as Ecy.
    destruct (moveTailBase_target i (width b) (height b) (px - startX i)
                (py - startY i) t).
    destruct (tailBaseTarget_cases i (width b) (height b) (px - startX i)
                (py - startY i)) as (Cb & Ct & _ & _).
    rewrite moveTailBase_target. cbn [baseCY].
    destruct He as [-> | ->].
    + destruct Cb as [_ E].
      * rewrite Ecy. apply Qabs_small_of_eq; [assumption | lra].
      * rewrite E. apply clamp_inside; lra.
    + destruct Ct as [_ E].
      * rewrite Ecy. intro H. apply Qabs_Qlt_condition in H. lra.
      * rewrite Ecy. apply Qabs_Qlt_condition. lra.
      * rewrite E. apply clamp_inside; lra.
Qed.

(** What an accepted mouse-down stores. *)
Lemma handleBubbleMouseDown_snapshot (b : Bubble) (downX downY : Q)
    (mode_ : option InteractionMode) (handle : option ActiveHandle)
    (partId : option string) (i : Interaction) :
  handleBubbleMouseDown false b downX downY mode_ handle partId = Some i ->
  mode i = mode_ /\ activePartId i = str_or_null partId
  /\ initialBubbleWidth i = width b /\ initialBubbleHeight i = height b
  /\ (mode_ = Some Resize -> initialParts i = Some (parts b))
  /\ (forall pid t0, mode_ = Some MoveTailBase ->
        str_or_null partId = Some pid ->
        findPart pid (parts b) = Some (SpeechTail t0) ->
        initialBaseCX i = baseCX t0 /\ initialBaseCY i = baseCY t0
        /\ initialTipX i = tipX t0 /\ initialTipY i = tipY t0).
Proof.
  unfold handleBubbleMouseDown.
  destruct mode_ as [[| | | |]|]; destruct (str_or_null partId) as [pid|];
    try (intros [= <-]; repeat split; intros; congruence).
  all: destruct (findPart pid (parts b)) as [[t0|d0]|] eqn:Ef; try discriminate;
    intros [= <-]; cbn; repeat split; intros; try congruence.
  all: match goal with
       | H : Some _ = Some _ |- _ => injection H as <-
       end; try congruence.
  all: rewrite Ef in *; congruence.
Qed.

(** X7: whatever gesture is started on a bubble (move, resize by any handle,
    drag of a dot, of the tip or of the base of a tail) and wherever the
    pointer goes, a tail whose base is on the bottom edge stays on the bottom
    edge and one on the top edge stays on the top edge; a tail on the left or
    right edge stays there under every gesture but the drag of its base. *)
Theorem gesture_keeps_tail_pinned (e : Edge) (b b' : Bubble)
    (downX downY : Q) (mode_ : option InteractionMode)
    (handle : option ActiveHandle) (partId : option string) (px py : Q) :
  0.001 <= width b -> 0.001 <= height b ->
  e = Bottom \/ e = Top \/ mode_ <> Some MoveTailBase ->
  pinnedTo e b ->
  gestureStep b downX downY mode_ handle partId px py = Some b' ->
  pinnedTo e b'.
Proof.
  intros Hw Hh He Hpin. unfold gestureStep.
  destruct (handleBubbleMouseDown false b downX downY mode_ handle partId)
    as [i|] eqn:Ei; [|discriminate].
  intros [= <-].
  pose proof (handleBubbleMouseDown_snapshot b downX downY mode_ handle partId
                i Ei) as Hi.
  destruct Hi as (Hm & Hid & Ew & Eh & Hparts & Hsnap).
  destruct mode_ as [[| | | |]|] eqn:Emode.
  - destruct Hpin as (t & Ht & Hp).
    destruct (handleMouseMove_keeps_base i b px py t) as (t' & Ht' & Ex & Ey);
      try (rewrite Hm; discriminate); try assumption.
    destruct (handleMouseMove_keeps_size i b px py) as [Ew' Eh'];
      [rewrite Hm; discriminate|].
    exists t'. split; [exact Ht'|]. rewrite Ex, Ey, Ew', Eh'. exact Hp.
  - apply pinnedTo_resize; auto.
  - destruct Hpin as (t & Ht & Hp).
    destruct (handleMouseMove_keeps_base i b px py t) as (t' & Ht' & Ex & Ey);
      try (rewrite Hm; discriminate); try assumption.
    destruct (handleMouseMove_keeps_size i b px py) as [Ew' Eh'];
      [rewrite Hm; discriminate|].
    exists t'. split; [exact Ht'|]. rewrite Ex, Ey, Ew', Eh'. exact Hp.
  - destruct Hpin as (t & Ht & Hp).
    destruct (handleMouseMove_keeps_base i b px py t) as (t' & Ht' & Ex & Ey);
      try (rewrite Hm; discriminate); try assumption.
    destruct (handleMouseMove_keeps_size i b px py) as [Ew' Eh'];
      [rewrite Hm; discriminate|].
    exists t'. split; [exact Ht'|]. rewrite Ex, Ey, Ew', Eh'. exact Hp.
  - apply pinnedTo_moveTailBase; auto.
    + intros pid t0 Hpid Hfp. apply (Hsnap pid t0); [reflexivity | congruence | assumption].
    + destruct He as [?|[?|?]]; [now left | now right | congruence].
  - destruct Hpin as (t & Ht & Hp).
    destruct (handleMouseMove_keeps_base i b px py t) as (t' & Ht' & Ex & Ey);
      try (rewrite Hm; discriminate); try assumption.
    destruct (handleMouseMove_keeps_size i b px py) as [Ew' Eh'];
      [rewrite Hm; discriminate|].
    exists t'. split; [exact Ht'|]. rewrite Ex, Ey, Ew', Eh'. exact Hp.
Qed.

Lemma gesture_keeps_tail_pinned_witness :
  let b := speechBubble 150 90 12 "Bonjour" [SpeechTail scenarioTail] in
  exists b',
    gestureStep b 75 90 (Some MoveTailBase) None (Some "part-1") 300 10 = Some b'
    /\ pinnedTo Bottom b'.
Proof.
  intro b. eexists. split; [reflexivity|].
  apply (gesture_keeps_tail_pinned Bottom b _ 75 90 (Some MoveTailBase) None
           (Some "part-1") 300 10).
  - unfold Qle; simpl; lia.
  - unfold Qle; simpl; lia.
  - left. reflexivity.
  - exists scenarioTail. split; reflexivity.
  - reflexivity.
Defined.

(* ----------------------------------------------------------------- *)
(** ** The Shout outline *)

Section ShoutOutline.
Context {M : MathLib}.

Lemma shoutPoint_tokens (w h : Q) (i : nat) (st : Q) :
  exists f, shoutFactorOk i f
    /\ shoutPoint w h i st = (shoutTokens w h i f, st + 1).
Proof.
  unfold shoutPoint, shoutTokens, shoutVertex, shoutFactorOk, bind, ret.
  pose proof (random_range st) as [Hlo Hhi].
  destruct (random st) as [r st1] eqn:E.
  assert (Es : st1 = st + 1) by (unfold random in E; now injection E).
  subst st1. cbn [fst] in Hlo, Hhi.
  destruct (Nat.eqb (i mod 2) 0).
  - exists (0.6 + r * 0.8). split; [split; lra|].
    rewrite E. reflexivity.
  - exists (0.9 + r * 0.2). split; [split; lra|].
    rewrite E. reflexivity.
Qed.

Lemma shoutLoop_points (w h : Q) (n : nat) :
  forall (i : nat) (st : Q),
  exists factors : list Q,
    List.length factors = n
    /\ Forall (fun jf => shoutFactorOk (fst jf) (snd jf))
              (combine (seq i n) factors)
    /\ fst (shoutLoop w h n i st)
       = flat_map (fun jf => shoutTokens w h (fst jf) (snd jf))
                  (combine (seq i n) factors).
Proof.
  induction n as [|n IH]; intros i st.
  - exists []. repeat split. constructor.
  - destruct (shoutPoint_tokens w h i st) as (f & Hf & Ep).
    destruct (IH (S i) (st + 1)) as (factors & Hlen & Hall & Hpath).
    exists (f :: factors). split; [|split].
    + cbn [List.length]. now rewrite Hlen.
    + cbn [seq combine]. constructor; assumption.
    + cbn [shoutLoop seq combine flat_map fst snd]. rewrite <- Hpath.
      unfold bind at 1. rewrite Ep. unfold bind, ret.
      destruct (shoutLoop w h n (S i) (st + 1)). reflexivity.
Qed.

Lemma polyVertices_shoutTokens (w h : Q) (i : nat) (f : Q) (rest : list tok) :
  polyVertices (shoutTokens w h i f ++ rest)
  = shoutVertex w h i f :: polyVertices rest.
Proof.
  unfold shoutTokens. destruct (Nat.eqb i 0); cbn [app polyVertices];
    cbn [String.eqb Ascii.eqb Bool.eqb orb andb app];
    now destruct (shoutVertex w h i f).
Qed.

Lemma polyVertices_shout (w h : Q) (l : list (nat * Q)) (rest : list tok) :
  polyVertices
    (flat_map (fun jf => shoutTokens w h (fst jf) (snd jf)) l ++ rest)
  = map (fun jf => shoutVertex w h (fst jf) (snd jf)) l ++ polyVertices rest.
Proof.
  induction l as [|[j f] l IH]; [reflexivity|].
  cbn [flat_map map fst snd]. rewrite <- app_assoc.
  rewrite polyVertices_shoutTokens. cbn [app]. now rewrite IH.
Qed.

Lemma quadCurves_shout (w h : Q) (l : list (nat * Q)) (rest : list tok) :
  quadCurves
    (flat_map (fun jf => shoutTokens w h (fst jf) (snd jf)) l ++ rest)
  = quadCurves rest.
Proof.
  induction l as [|[j f] l IH]; [reflexivity|].
  cbn [flat_map fst snd]. rewrite <- app_assoc. unfold shoutTokens at 1.
  destruct (Nat.eqb j 0); cbn [app quadCurves isQuadOp]; exact IH.
Qed.

(** X8: the outline of a Shout bubble is a closed polygon of 28 vertices
    around the centre of the bubble, at the angles [i * PI / 14 - PI / 2]:
    the even ones on the ellipse of radii [width/2], [height/2] scaled by a
    factor in [[0.6, 1.4]], the odd ones on the ellipse of radii [width/3.5],
    [height/3.5] scaled by a factor in [[0.9, 1.1]]. The path is [M] and the
    first vertex, then [L] and a vertex 27 times, then [Z], and nothing
    else: it has no curve; and the bubble gets no auxiliary circle. *)
Theorem shout_outline_star (b : Bubble) :
  type b = Shout ->
  exists factors : list Q,
    List.length factors = 28%nat
    /\ Forall (fun jf => shoutFactorOk (fst jf) (snd jf))
              (combine (seq 0 28) factors)
    /\ polyVertices (bodyPath (generateBubblePaths b))
       = map (fun jf => shoutVertex (width b) (height b) (fst jf) (snd jf))
             (combine (seq 0 28) factors)
    /\ (exists middle,
          bodyPath (generateBubblePaths b) = T "M" :: middle ++ [T "Z"])
    /\ partsCircles (generateBubblePaths b) = []
    /\ bodyPath (generateBubblePaths b)
       = flat_map
           (fun jf =>
              [T (if Nat.eqb (fst jf) 0 then "M" else "L");
               V (fst (shoutVertex (width b) (height b) (fst jf) (snd jf)));
               T ",";
               V (snd (shoutVertex (width b) (height b) (fst jf) (snd jf)));
               T " "])
           (combine (seq 0 28) factors)
         ++ [T "Z"]
    /\ quadCurves (bodyPath (generateBubblePaths b)) = [].
Proof.
  intro Ht. unfold generateBubblePaths. rewrite Ht.
  cbn [isSpeech bodyPath partsCircles].
  unfold evalRand, shoutBodyPath, bind, ret.
  destruct (shoutLoop_points (width b) (height b) 28 0 (seedOf b))
    as (factors & Hlen & Hall & Hpath).
  change (14 * 2)%nat with 28%nat.
  destruct (shoutLoop (width b) (height b) 28 0 (seedOf b)) as [path st'].
  cbn [fst] in Hpath |- *. subst path.
  exists factors. split; [exact Hlen|]. split; [exact Hall|].
  split; [|split; [|split; [|split]]].
  - rewrite polyVertices_shout. cbn [polyVertices]. apply app_nil_r.
  - destruct factors as [|f factors]; [discriminate|].
    change (seq 0 28) with (0%nat :: seq 1 27).
    cbn [combine flat_map fst snd]. unfold shoutTokens at 1. cbn [Nat.eqb].
    match goal with
    | |- exists _, ([T "M"; ?v1; ?s1; ?v2; ?s2] ++ ?rest) ++ _ = _ =>
        exists ([v1; s1; v2; s2] ++ rest)
    end.
    reflexivity.
  - reflexivity.
  - reflexivity.
  - now rewrite quadCurves_shout.
Qed.

End ShoutOutline.

Lemma shout_outline_star_witness :
  let b := mkBubble "bubble-7" Shout "Aaah" 0 0 150 90 Bangers 20
                    "#000000" "#000000" 1 [] (Some 1) in
  exists factors : list Q,
    List.length factors = 28%nat
    /\ polyVertices (bodyPath (generateBubblePaths (M := polyMath) b))
       = map (fun jf =>
                shoutVertex (M := polyMath) (width b) (height b) (fst jf) (snd jf))
             (combine (seq 0 28) factors).
Proof.
  intro b.
  destruct (shout_outline_star (M := polyMath) b eq_refl)
    as (factors & H1 & _ & H3 & _).
  exists factors. split; assumption.
Defined.

(* ----------------------------------------------------------------- *)
(** ** The overall bounding box *)

Lemma bbox_fold (ps : list BubblePart) :
  forall a b c d a' b' c' d',
    fold_left bboxStep ps (a, b, c, d) = (a', b', c', d') ->
    (a' <= a /\ b' <= b /\ c <= c' /\ d <= d')
    /\ forall p, In p ps ->
         let '(x0, y0, x1, y1) := partExtent p in
         a' <= x0 /\ b' <= y0 /\ x1 <= c' /\ y1 <= d'.
Proof.
  induction ps as [|p ps IH]; intros a b c d a' b' c' d' H.
  - injection H as <- <- <- <-. split; [repeat split; lra | intros p []].
  - cbn [fold_left] in H.
    destruct (bboxStep (a, b, c, d) p) as [[[a1 b1] c1] d1] eqn:Es.
    destruct (IH _ _ _ _ _ _ _ _ H) as ((Ha & Hb & Hc & Hd) & Hin).
    assert (Hstep : (a1 <= a /\ b1 <= b /\ c <= c1 /\ d <= d1)
                    /\ let '(x0, y0, x1, y1) := partExtent p in
                       a1 <= x0 /\ b1 <= y0 /\ x1 <= c1 /\ y1 <= d1).
    { unfold bboxStep in Es. destruct p as [t|dt]; injection Es as <- <- <- <-;
        cbn [partExtent]; unfold Math_min, Math_max;
        repeat split;
        try apply Q.le_min_l; try apply Q.le_min_r;
        try apply Q.le_max_l; try apply Q.le_max_r. }
    destruct Hstep as ((Sa & Sb & Sc & Sd) & Sp).
    split; [repeat split; lra|].
    intros q [<- | Hq]; [|now apply Hin].
    destruct (partExtent p) as [[[x0 y0] x1] y1]. repeat split; lra.
Qed.

(** X9: the overall bounding box holds the bubble's rectangle, the tip of
    every tail and the square around every dot, each with a margin of 10 on
    all four sides. *)
Theorem getOverallBbox_contains (b : Bubble) :
  let bb := getOverallBbox b in
  let left := bb_x bb + 10 in
  let top := bb_y bb + 10 in
  let right := bb_x bb + bb_width bb - 10 in
  let bottom := bb_y bb + bb_height bb - 10 in
  (left <= 0 /\ top <= 0 /\ width b <= right /\ height b <= bottom)
  /\ forall p, In p (parts b) ->
       let '(x0, y0, x1, y1) := partExtent p in
       left <= x0 /\ top <= y0 /\ x1 <= right /\ y1 <= bottom.
Proof.
  unfold getOverallBbox.
  destruct (fold_left bboxStep (parts b) (0, 0, width b, height b))
    as [[[a' b'] c'] d'] eqn:E.
  destruct (bbox_fold _ _ _ _ _ _ _ _ _ E) as ((Ha & Hb & Hc & Hd) & Hin).
  cbn [bb_x bb_y bb_width bb_height].
  split; [repeat split; lra|].
  intros p Hp. specialize (Hin p Hp).
  destruct (partExtent p) as [[[x0 y0] x1] y1]. repeat split; lra.
Qed.

Lemma getOverallBbox_contains_witness :
  let b := speechBubble 150 90 12 "Bonjour" [SpeechTail scenarioTail] in
  let bb := getOverallBbox b in
  bb_x bb + 10 <= tipX scenarioTail
  /\ bb_y bb + 10 <= tipY scenarioTail
  /\ tipX scenarioTail <= bb_x bb + bb_width bb - 10
  /\ tipY scenarioTail <= bb_y bb + bb_height bb - 10.
Proof.
  intros b bb.
  destruct (getOverallBbox_contains b) as [_ H].
  apply (H (SpeechTail scenarioTail)). left. reflexivity.
Defined.

(* ----------------------------------------------------------------- *)
(** ** The canvas and the new bubble *)

(** X10: the canvas computed for an image of positive size never exceeds the
    image (no upscaling) nor 90% of the window's width and 80% of its height,
    and its sides are whole numbers; without an image it is 800 x 600. *)
Theorem canvasSizeFor_fits (img : Image) (innerWidth innerHeight : Q) :
  0 < img_width img -> 0 < img_height img ->
  0 <= innerWidth -> 0 <= innerHeight ->
  let cs := canvasSizeFor (Some img) innerWidth innerHeight in
  (0 <= fst cs /\ fst cs <= img_width img /\ fst cs <= innerWidth * 0.9)
  /\ (0 <= snd cs /\ snd cs <= img_height img /\ snd cs <= innerHeight * 0.8)
  /\ (exists cw ch : Z, cs = (inject_Z cw, inject_Z ch))
  /\ canvasSizeFor None innerWidth innerHeight = (800, 600).
Proof.
  intros Hw Hh Hiw Hih cs. unfold cs, canvasSizeFor, Math_floor.
  cbn [fst snd].
  set (sx := innerWidth * 0.9 / img_width img).
  set (sy := innerHeight * 0.8 / img_height img).
  set (scale := Math_min (Math_min sx sy) 1.0).
  assert (Hsx : 0 <= sx /\ img_width img * sx == innerWidth * 0.9).
  { unfold sx. split.
    - apply Qle_shift_div_l; lra.
    - apply Qmult_div_r. lra. }
  assert (Hsy : 0 <= sy /\ img_height img * sy == innerHeight * 0.8).
  { unfold sy. split.
    - apply Qle_shift_div_l; lra.
    - apply Qmult_div_r. lra. }
  assert (Hs : 0 <= scale /\ scale <= 1 /\ scale <= sx /\ scale <= sy).
  { unfold scale, Math_min.
    pose proof (Q.le_min_l (Qmin sx sy) 1.0).
    pose proof (Q.le_min_r (Qmin sx sy) 1.0).
    pose proof (Q.le_min_l sx sy).
    pose proof (Q.le_min_r sx sy).
    assert (0 <= Qmin (Qmin sx sy) 1.0).
    { apply Q.min_glb; [apply Q.min_glb; tauto | lra]. }
    repeat split; lra. }
  destruct Hsx as (Hsx0 & Hsx1), Hsy as (Hsy0 & Hsy1), Hs as (S0 & S1 & S2 & S3).
  assert (Bw : 0 <= img_width img * scale
               /\ img_width img * scale <= img_width img
               /\ img_width img * scale <= innerWidth * 0.9) by (repeat split; nra).
  assert (Bh : 0 <= img_height img * scale
               /\ img_height img * scale <= img_height img
               /\ img_height img * scale <= innerHeight * 0.8) by (repeat split; nra).
  pose proof (Qfloor_le (img_width img * scale)) as Fw.
  pose proof (Qfloor_le (img_height img * scale)) as Fh.
  assert (Zw : 0 <= inject_Z (Qfloor (img_width img * scale))).
  { change 0 with (inject_Z 0). rewrite <- Zle_Qle.
    change 0%Z with (Qfloor 0). apply Qfloor_resp_le. tauto. }
  assert (Zh : 0 <= inject_Z (Qfloor (img_height img * scale))).
  { change 0 with (inject_Z 0). rewrite <- Zle_Qle.
    change 0%Z with (Qfloor 0). apply Qfloor_resp_le. tauto. }
  split; [|split; [|split]].
  - repeat split; lra.
  - repeat split; lra.
  - eexists. eexists. reflexivity.
  - reflexivity.
Qed.

Lemma canvasSizeFor_fits_witness :
  let cs := canvasSizeFor (Some (mkImage "page.png" 2000 3000)) 1280 800 in
  fst cs <= 2000 /\ fst cs <= 1280 * 0.9 /\ snd cs <= 800 * 0.8.
Proof.
  intro cs.
  pose proof (canvasSizeFor_fits (mkImage "page.png" 2000 3000) 1280 800
                eq_refl eq_refl ltac:(discriminate) ltac:(discriminate))
    as ((_ & H1 & H2) & (_ & _ & H3) & _).
  repeat split; assumption.
Defined.

Lemma newDots_sizes (now : N) (numDots : nat) (base sx sy : Q) (n : nat) :
  MIN_DOT_SIZE <= base ->
  forall i,
    List.length (newDots now numDots base sx sy n i) = n
    /\ dotSizes (newDots now numDots base sx sy n i)
       = map (fun k =>
                Math_max MIN_DOT_SIZE
                  (base - inject_Z (Z.of_nat k)
                          * (base / Math_max 1 (inject_Z (Z.of_nat numDots) - 1)
                             * 0.5)))
             (seq i n)
    /\ findTail (newDots now numDots base sx sy n i) = None.
Proof.
  intro Hb. induction n as [|n IH]; intro i; [repeat split|].
  destruct (IH (S i)) as (H1 & H2 & H3).
  cbn [newDots List.length dotSizes seq map findTail size].
  now rewrite H1, H2, H3.
Qed.

Lemma nonIncreasing_map_seq (f : nat -> Q) (n : nat) :
  (forall k, f (S k) <= f k) ->
  forall i, nonIncreasing (map f (seq i n)).
Proof.
  intro Hf. induction n as [|n IH]; intro i; [exact I|].
  cbn [seq map nonIncreasing]. split; [|apply IH].
  destruct n; [exact I|]. cbn [seq map]. apply Hf.
Qed.

(** X11: a new bubble is 150 x 90, carries the placeholder text, the active
    type and style and the current stacking index, and lies inside a canvas
    of at least that size; it is centred on the click when the click is at
    least 75 (45) away from the vertical (horizontal) borders. Nothing is
    added while no image is loaded. *)
Theorem handleAddBubble_placement (cs : Q * Q) (ts : ToolSettings) (now : N)
    (z : Z) (px py : Q) :
  150 <= fst cs -> 90 <= snd cs ->
  handleAddBubble false cs ts now z px py = None
  /\ exists b,
       handleAddBubble true cs ts now z px py = Some b
       /\ width b == 150 /\ height b == 90
       /\ text b = "Votre texte ici" /\ type b = activeBubbleType ts
       /\ fontSize b = activeFontSize ts /\ zIndex b = z
       /\ 0 <= x b /\ x b + width b <= fst cs
       /\ 0 <= y b /\ y b + height b <= snd cs
       /\ (75 <= px -> px <= fst cs - 75 -> x b + width b / 2 == px)
       /\ (45 <= py -> py <= snd cs - 45 -> y b + height b / 2 == py).
Proof.
  intros Hw Hh. split; [reflexivity|].
  unfold handleAddBubble. cbn [negb]. eexists. split; [reflexivity|].
  cbn [width height text type fontSize zIndex x y].
  set (ih := 150 * 0.6). set (hw := 150 / 2). set (hh := ih / 2).
  assert (E150 : hw == 75) by reflexivity.
  assert (E90 : ih == 90) by reflexivity.
  assert (E45 : hh == 45) by reflexivity.
  clearbody hw hh. clearbody ih.
  split; [reflexivity|]. split; [exact E90|].
  repeat (split; [reflexivity|]).
  split; [minmax_cases; lra|]. split; [minmax_cases; lra|].
  split; [minmax_cases; lra|]. split; [minmax_cases; lra|].
  split; intros H1 H2; minmax_cases; lra.
Qed.

Lemma handleAddBubble_placement_witness :
  exists b,
    handleAddBubble true (800, 600) defaultTools 1700000000000 10 400 300 = Some b
    /\ 0 <= x b /\ x b + width b <= 800 /\ x b + width b / 2 == 400.
Proof.
  destruct (handleAddBubble_placement (800, 600) defaultTools 1700000000000 10
              400 300) as (_ & b & H); try (unfold Qle; simpl; lia).
  exists b. destruct H as (H1 & _ & _ & _ & _ & _ & _ & H8 & H9 & _ & _ & H12 & _).
  repeat split; try assumption.
  apply H12; unfold Qle; simpl; lia.
Defined.

(** A number field that was emptied stores NaN: the settings then hold no
    number for it. A field in which a number was typed stores a number, at
    least the minimum of the field. *)
Lemma onNumberChange_stores (s : StoredDefaults) :
  (forall ts, ~ holdsTailNumbers (onNumberChange TailLengthField None s) ts)
  /\ (forall ts, ~ holdsTailNumbers (onNumberChange TailBaseWidthField None s) ts)
  /\ (forall ts, ~ holdsDotNumbers (onNumberChange DotCountField None s) ts)
  /\ (forall ts, ~ holdsDotNumbers (onNumberChange DotSizeField None s) ts)
  /\ forall n : Z,
       (exists q, stored_defaultTailLength
                    (onNumberChange TailLengthField (Some n) s) = Fin q
                  /\ MIN_TAIL_LENGTH <= q)
       /\ (exists q, stored_defaultTailBaseWidth
                       (onNumberChange TailBaseWidthField (Some n) s) = Fin q
                     /\ MIN_TAIL_BASE_WIDTH <= q)
       /\ (exists k : nat,
             stored_defaultDotCount (onNumberChange DotCountField (Some n) s)
             = Fin (inject_Z (Z.of_nat k))
             /\ (MIN_DOT_COUNT <= k)%nat)
       /\ (exists q, stored_defaultDotSize
                       (onNumberChange DotSizeField (Some n) s) = Fin q
                     /\ MIN_DOT_SIZE <= q).
Proof.
  repeat match goal with |- _ /\ _ => split end;
    try (intros ts [H1 H2]; cbn in *; discriminate).
  intro n. repeat match goal with |- _ /\ _ => split end.
  - eexists. split; [reflexivity | apply Math_max_lower].
  - eexists. split; [reflexivity | apply Math_max_lower].
  - cbn [onNumberChange stored_defaultDotCount ofParseInt Math_max_js].
    unfold Math_max, MIN_DOT_COUNT.
    destruct (Z_lt_le_dec 1 n) as [Hn | Hn].
    + exists (Z.to_nat n). split; [|lia].
      rewrite Z2Nat.id by lia. f_equal.
      unfold Qmax, GenericMinMax.gmax.
      assert (E : (inject_Z (Z.of_nat 1) ?= inject_Z n) = Lt).
      { apply (proj1 (Qlt_alt (inject_Z (Z.of_nat 1)) (inject_Z n))).
        change (inject_Z 1 < inject_Z n). rewrite <- Zlt_Qlt. exact Hn. }
      now rewrite E.
    + exists 1%nat. split; [|lia]. f_equal.
      unfold Qmax, GenericMinMax.gmax.
      destruct (inject_Z (Z.of_nat 1) ?= inject_Z n) eqn:E; try reflexivity.
      apply (proj2 (Qlt_alt (inject_Z (Z.of_nat 1)) (inject_Z n))) in E.
      change (inject_Z 1 < inject_Z n) in E. rewrite <- Zlt_Qlt in E. lia.
  - eexists. split; [reflexivity | apply Math_max_lower].
Qed.

(** The clamps of [handleAddBubble] do not repair NaN: from an emptied
    field the tail of a new bubble gets a NaN length or base width, and the
    loop that creates the dots of a new Thought bubble does not turn. *)
Lemma NaN_defaults_reach_new_bubbles (s : StoredDefaults) :
  snd (currentDefaultTail (onNumberChange TailLengthField None s)) = NaN
  /\ fst (currentDefaultTail (onNumberChange TailBaseWidthField None s)) = NaN
  /\ loopTurns (numDotsStored (onNumberChange DotCountField None s)) = 0%nat.
Proof. repeat split. Qed.

(** With a whole number stored, the loop turns [max(1, count)] times. *)
Lemma loopTurns_numDots (s : StoredDefaults) (k : nat) :
  stored_defaultDotCount s = Fin (inject_Z (Z.of_nat k)) ->
  loopTurns (numDotsStored s) = Nat.max MIN_DOT_COUNT k.
Proof.
  intro H. unfold numDotsStored. rewrite H.
  cbn [Math_max_js loopTurns]. unfold Math_max, MIN_DOT_COUNT.
  destruct (Q.max_spec (inject_Z (Z.of_nat 1)) (inject_Z (Z.of_nat k)))
    as [[Hlt E] | [Hle E]]; rewrite (Qceiling_comp _ _ E), Qceiling_Z.
  - rewrite <- Zlt_Qlt in Hlt. lia.
  - rewrite <- Zle_Qle in Hle. lia.
Qed.

(** X12: with tail defaults that are numbers (the toolbar stores NaN for an
    emptied field, and nothing is said of a bubble made from NaN), a new
    SpeechDown or Whisper bubble has its tail pinned to the middle of the
    bottom edge, a new SpeechUp bubble to the middle of the top edge; the
    tail points straight away from the bubble, is at least
    [MIN_TAIL_LENGTH] long and at least [MIN_TAIL_BASE_WIDTH] wide (its
    base width and length are the [Math.max(MIN, default)] of the stored
    defaults), and the outline drawn for the new bubble has its tail cut. *)
Theorem new_speech_bubble_has_tail (M : MathLib) (stored : StoredDefaults)
    (cs : Q * Q) (ts : ToolSettings) (now : N) (z : Z) (px py : Q)
    (b : Bubble) :
  holdsTailNumbers stored ts ->
  isSpeech (activeBubbleType ts) = true ->
  handleAddBubble true cs ts now z px py = Some b ->
  exists t,
    parts b = [SpeechTail t]
    /\ currentDefaultTail stored = (Fin (baseWidth t), Fin (initialLength t))
    /\ baseCX t == width b / 2 /\ tipX t = baseCX t
    /\ MIN_TAIL_BASE_WIDTH <= baseWidth t
    /\ (activeBubbleType ts = SpeechUp ->
        baseCY t == 0 /\ tipY t <= - MIN_TAIL_LENGTH)
    /\ (activeBubbleType ts <> SpeechUp ->
        baseCY t == height b /\ height b + MIN_TAIL_LENGTH <= tipY t)
    /\ hasTailCut (bodyPath (generateBubblePaths b)) = true.
Proof.
  intros [Hn1 Hn2] Hs Hadd. unfold handleAddBubble in Hadd. cbn [negb] in Hadd.
  injection Hadd as <-.
  pose proof (Math_max_lower MIN_TAIL_BASE_WIDTH (defaultTailBaseWidth ts)) as Hbw.
  pose proof (Math_max_lower MIN_TAIL_LENGTH (defaultTailLength ts)) as Hlen.
  assert (E90 : 150 * 0.6 == 90) by reflexivity.
  destruct (activeBubbleType ts) eqn:Ea; try discriminate;
    cbn [existsb BubbleType_eqb BUBBLE_REQUIRES_PARTS orb parts width height];
    eexists; (split; [reflexivity|]);
    (split; [unfold currentDefaultTail; rewrite Hn1, Hn2; reflexivity|]);
    cbn [baseCX baseCY tipX tipY baseWidth];
    (split; [reflexivity|]); (split; [reflexivity|]); (split; [exact Hbw|]);
    (split; [intro Hup; first [discriminate | split; [reflexivity | lra]]|]);
    (split; [intro Hup; first [congruence | split; [reflexivity | lra]]|]).
  all: match goal with
       | |- hasTailCut (bodyPath (generateBubblePaths ?bb)) = true =>
           match bb with
           | context [SpeechTail ?t] =>
               apply (speech_tail_cut_iff_edge M bb t);
                 [reflexivity | reflexivity |];
                 apply tailEdge_of_perimeter;
                 [reflexivity | reflexivity |]; unfold onPerimeter;
                 cbn [baseCX baseCY width height]
           end
       end.
  - left. reflexivity.
  - right. left. reflexivity.
  - left. reflexivity.
Qed.

Lemma new_speech_bubble_has_tail_witness :
  exists b t,
    handleAddBubble true (800, 600) defaultTools 1700000000000 10 400 300 = Some b
    /\ parts b = [SpeechTail t] /\ baseCY t == height b
    /\ hasTailCut (bodyPath (generateBubblePaths (M := polyMath) b)) = true.
Proof.
  eexists.
  destruct (new_speech_bubble_has_tail polyMath initialDefaults (800, 600)
              defaultTools 1700000000000 10 400 300 _
              (conj eq_refl eq_refl) eq_refl eq_refl)
    as (t & H1 & _ & _ & _ & _ & _ & H6 & H7).
  exists t. split; [reflexivity|]. split; [exact H1|].
  split; [apply H6; discriminate | exact H7].
Defined.

(** X13: with dot defaults that are numbers, the count a whole number (the
    toolbar stores NaN for an emptied field, and nothing is said of a bubble
    made from NaN), a new Thought bubble carries [max(1, defaultDotCount)]
    dots, one for each turn of the loop [i < numDots], and no tail; every
    dot is at least [MIN_DOT_SIZE] across and no dot
    is larger than the one before it. *)
Theorem new_thought_bubble_dots (stored : StoredDefaults) (cs : Q * Q)
    (ts : ToolSettings) (now : N) (z : Z) (px py : Q) (b : Bubble) :
  holdsDotNumbers stored ts ->
  activeBubbleType ts = Thought ->
  handleAddBubble true cs ts now z px py = Some b ->
  List.length (parts b) = Nat.max 1 (defaultDotCount ts)
  /\ List.length (parts b) = loopTurns (numDotsStored stored)
  /\ findTail (parts b) = None
  /\ List.length (dotSizes (parts b)) = Nat.max 1 (defaultDotCount ts)
  /\ Forall (fun s => MIN_DOT_SIZE <= s) (dotSizes (parts b))
  /\ nonIncreasing (dotSizes (parts b)).
Proof.
  intros [Hn1 _] Ha Hadd. unfold handleAddBubble in Hadd. cbn [negb] in Hadd.
  injection Hadd as <-. rewrite Ha.
  cbn [existsb BubbleType_eqb BUBBLE_REQUIRES_PARTS orb parts].
  set (n := Nat.max MIN_DOT_COUNT (defaultDotCount ts)).
  set (base := Math_max MIN_DOT_SIZE (defaultDotSize ts)).
  assert (Hb : MIN_DOT_SIZE <= base) by apply Math_max_lower.
  destruct (newDots_sizes now n base (150 / 2) (150 * 0.6) n Hb 0%nat)
    as (H1 & H2 & H3).
  change (Nat.max 1 (defaultDotCount ts)) with n.
  split; [exact H1|].
  split; [transitivity n; [exact H1 | symmetry; now apply loopTurns_numDots]|].
  split; [exact H3|].
  repeat match goal with
    | |- context [dotSizes ?l] =>
        progress change (dotSizes l)
          with (dotSizes (newDots now n base (150 / 2) (150 * 0.6) n 0))
    end.
  split; [|split].
  - rewrite H2. now rewrite length_map, length_seq.
  - rewrite H2. apply Forall_forall. intros s Hin.
    apply in_map_iff in Hin as (k & <- & _). apply Math_max_lower.
  - rewrite H2. apply nonIncreasing_map_seq. intro k.
    assert (Hstep : 0 <= base / Math_max 1 (inject_Z (Z.of_nat n) - 1) * 0.5).
    { apply Qmult_le_0_compat; [|lra].
      apply Qle_shift_div_l.
      - pose proof (Math_max_lower 1 (inject_Z (Z.of_nat n) - 1)). lra.
      - unfold MIN_DOT_SIZE in Hb. lra. }
    set (stp := base / Math_max 1 (inject_Z (Z.of_nat n) - 1) * 0.5) in *.
    rewrite Nat2Z.inj_succ. unfold Z.succ. rewrite inject_Z_plus.
    change (inject_Z 1) with 1.
    assert (0 <= inject_Z (Z.of_nat k)) by (unfold Qle; simpl; lia).
    unfold Math_max. apply Q.max_le_compat_l. nra.
Qed.

Lemma new_thought_bubble_dots_witness :
  exists b,
    handleAddBubble true (800, 600)
      (mkToolSettings Thought Comic 12 "#000000" "#000000" 30 20 4 15)
      1700000000000 10 400 300 = Some b
    /\ List.length (parts b) = 4%nat
    /\ nonIncreasing (dotSizes (parts b)).
Proof.
  eexists. split; [reflexivity|].
  destruct (new_thought_bubble_dots initialDefaults (800, 600)
              (mkToolSettings Thought Comic 12 "#000000" "#000000" 30 20 4 15)
              1700000000000 10 400 300 _ (conj eq_refl eq_refl)
              eq_refl eq_refl)
    as (H1 & _ & _ & _ & _ & H5).
  split; [exact H1 | exact H5].
Defined.

(* ----------------------------------------------------------------- *)
(** ** The list of bubbles: selection, deletion, update, stacking *)

Lemma bringToFront_spec (i : string) (bs : list Bubble) :
  forall z : Z,
    (z <= snd (bringToFront i z bs))%Z
    /\ map id (fst (bringToFront i z bs)) = map id bs
    /\ (forall b, In b (fst (bringToFront i z bs)) ->
          (id b = i -> (z <= zIndex b < snd (bringToFront i z bs))%Z)
          /\ (id b <> i -> In b bs)).
Proof.
  induction bs as [|b bs IH]; intro z; cbn [bringToFront].
  - cbn. split; [lia|]. split; [reflexivity|]. intros b [].
  - destruct (String.eqb (id b) i) eqn:E.
    + destruct (IH (z + 1)%Z) as (H1 & H2 & H3).
      destruct (bringToFront i (z + 1) bs) as [rest z'].
      cbn [fst snd] in *. split; [lia|]. split.
      * cbn [map]. now rewrite H2.
      * intros b0 [<- | Hin].
        -- cbn [zIndex id with_zIndex]. apply String.eqb_eq in E.
           split; [intros _; lia | intro H; now contradiction H].
        -- destruct (H3 b0 Hin) as [Ha Hb].
           split; [intro H; specialize (Ha H); lia | intro H; right; auto].
    + destruct (IH z) as (H1 & H2 & H3).
      destruct (bringToFront i z bs) as [rest z'].
      cbn [fst snd] in *. split; [lia|]. split.
      * cbn [map]. now rewrite H2.
      * intros b0 [<- | Hin].
        -- apply String.eqb_neq in E.
           split; [intro H; now contradiction E | intros _; now left].
        -- destruct (H3 b0 Hin) as [Ha Hb].
           split; [exact Ha | intro H; right; auto].
Qed.

(** X14: selecting a bubble brings it to the front. When every bubble is
    below the stacking counter, after [handleSelectBubble] the selected
    bubble is strictly above every other bubble, the others are untouched,
    the ids and their order are the same, and every bubble is again below the
    counter. *)
Theorem handleSelectBubble_brings_to_front (st : AppState) (i : string) :
  truthy i = true -> zBelowNext st ->
  let st' := handleSelectBubble st (Some i) in
  selectedBubbleId st' = Some i
  /\ map id (bubbles st') = map id (bubbles st)
  /\ zBelowNext st'
  /\ (forall b, In b (bubbles st') -> id b <> i -> In b (bubbles st))
  /\ (forall b1 b2, In b1 (bubbles st') -> In b2 (bubbles st') ->
        id b1 = i -> id b2 <> i -> (zIndex b2 < zIndex b1)%Z).
Proof.
  intros Hi Hz st'. unfold st', handleSelectBubble, str_or_null. rewrite Hi.
  destruct (bringToFront_spec i (bubbles st) (nextZIndex st)) as (H1 & H2 & H3).
  destruct (bringToFront i (nextZIndex st) (bubbles st)) as [bs z].
  cbn [fst snd] in *. cbn [selectedBubbleId bubbles].
  unfold zBelowNext in *. cbn [bubbles nextZIndex].
  rewrite Forall_forall in Hz.
  split; [reflexivity|]. split; [exact H2|]. split; [|split].
  - apply Forall_forall. intros b Hb. destruct (H3 b Hb) as [Ha Hn].
    destruct (string_dec (id b) i) as [E | E].
    + apply Ha in E. lia.
    + specialize (Hz b (Hn E)). lia.
  - intros b Hb Hne. now apply (H3 b Hb).
  - intros b1 b2 Hb1 Hb2 E1 E2.
    destruct (H3 b1 Hb1) as [Ha1 _]. destruct (H3 b2 Hb2) as [_ Hn2].
    specialize (Ha1 E1). specialize (Hz b2 (Hn2 E2)). lia.
Qed.

Lemma handleSelectBubble_brings_to_front_witness :
  let b1 := with_zIndex (speechBubble 150 90 12 "Un" []) 10 in
  let b2 := with_zIndex (thoughtBubble "bubble-2" None) 11 in
  let st := mkApp None [b1; b2] None defaultTools (800, 600) 12 in
  let st' := handleSelectBubble st (Some "bubble-1") in
  selectedBubbleId st' = Some "bubble-1"
  /\ map id (bubbles st') = map id (bubbles st)
  /\ zBelowNext st'.
Proof.
  intros b1 b2 st st'.
  destruct (handleSelectBubble_brings_to_front st "bubble-1" eq_refl)
    as (H1 & H2 & H3 & _).
  - repeat constructor.
  - split; [exact H1 | split; [exact H2 | exact H3]].
Defined.


(** X16: an update replaces every bubble that has the updated bubble's id by
    the updated bubble and touches no other: the ids and their order stay,
    and an update for an id the list does not hold changes nothing. The tool
    settings follow the updated bubble only when it is the selected one. *)
Theorem handleUpdateBubble_replaces (st : AppState) (u : Bubble) :
  let st' := handleUpdateBubble st u in
  map id (bubbles st') = map id (bubbles st)
  /\ (forall b, In b (bubbles st') -> b = u \/ (In b (bubbles st) /\ id b <> id u))
  /\ (forall b, In b (bubbles st) -> id b <> id u -> In b (bubbles st'))
  /\ (In (id u) (map id (bubbles st)) -> In u (bubbles st'))
  /\ (~ In (id u) (map id (bubbles st)) -> bubbles st' = bubbles st)
  /\ selectedBubbleId st' = selectedBubbleId st
  /\ nextZIndex st' = nextZIndex st
  /\ (selectedBubbleId st <> Some (id u) -> toolSettings st' = toolSettings st).
Proof.
  intro st'. unfold st', handleUpdateBubble.
  cbn [bubbles selectedBubbleId nextZIndex toolSettings].
  split; [|split; [|split; [|split; [|split; [|split; [|split]]]]]];
    try reflexivity.
  - rewrite map_map. apply map_ext_in. intros b _.
    destruct (String.eqb (id b) (id u)) eqn:E; [|reflexivity].
    apply String.eqb_eq in E. now symmetry.
  - intros b Hb. apply in_map_iff in Hb as (b0 & Hb0 & Hin).
    destruct (String.eqb (id b0) (id u)) eqn:E.
    + left. now symmetry.
    + right. subst b0. apply String.eqb_neq in E. split; assumption.
  - intros b Hb Hne. apply in_map_iff. exists b. split; [|assumption].
    apply String.eqb_neq in Hne. now rewrite Hne.
  - intro H. apply in_map_iff in H as (b & Hid & Hb).
    apply in_map_iff. exists b. split; [|assumption].
    apply String.eqb_eq in Hid. now rewrite Hid.
  - intro Hno. rewrite <- (map_id (bubbles st)) at 2.
    apply map_ext_in. intros b Hb.
    destruct (String.eqb (id b) (id u)) eqn:E; [|reflexivity].
    apply String.eqb_eq in E. exfalso. apply Hno. rewrite <- E.
    now apply in_map.
  - intro Hne. destruct (selectedBubbleId st) as [s|];
      cbn [option_string_eqb]; [|reflexivity].
    destruct (String.eqb s (id u)) eqn:E; [|reflexivity].
    apply String.eqb_eq in E. congruence.
Qed.

Lemma handleUpdateBubble_replaces_witness :
  let b1 := speechBubble 150 90 12 "Un" [] in
  let st := mkApp None [b1] (Some "bubble-1") defaultTools (800, 600) 12 in
  let u := with_fontSize b1 20 in
  In u (bubbles (handleUpdateBubble st u)).
Proof.
  intros b1 st u.
  destruct (handleUpdateBubble_replaces st u) as (_ & _ & _ & H & _).
  apply H. left. reflexivity.
Defined.

Lemma onAddBubble_spec (st : AppState) (now : N) (px py : Q) :
  onAddBubble st now px py = st
  \/ exists b, zIndex b = nextZIndex st
       /\ bubbles (onAddBubble st now px py) = bubbles st ++ [b]
       /\ selectedBubbleId (onAddBubble st now px py) = Some (id b)
       /\ nextZIndex (onAddBubble st now px py) = (nextZIndex st + 1)%Z.
Proof.
  unfold onAddBubble.
  destruct (handleAddBubble _ (canvasSize st) (toolSettings st) now
              (nextZIndex st) px py) as [b|] eqn:E; [|now left].
  right. exists b. repeat split.
  unfold handleAddBubble in E. destruct (negb _); [discriminate|].
  injection E as <-. reflexivity.
Qed.

(** X17: the stacking counter stays above every bubble. If every bubble's
    stacking index is below [nextZIndex], it is so again after a bubble is
    added, selected, deleted, after everything is cleared and after a bubble
    of the list is replaced by what a pointer move made of it; and a bubble
    just added is above all the bubbles that were there. *)
Theorem stacking_counter_invariant (st st' : AppState) :
  zBelowNext st -> appStep st st' ->
  zBelowNext st'
  /\ (nextZIndex st <= nextZIndex st' \/ bubbles st' = [])%Z
  /\ forall now px py b,
       st' = onAddBubble st now px py -> st' <> st ->
       In b (bubbles st) ->
       exists new, In new (bubbles st') /\ (zIndex b < zIndex new)%Z.
Proof.
  intros Hz Hstep. split; [|split].
  - destruct Hstep as [st now px py | st i | st i | st | st b i px py Hb].
    + destruct (onAddBubble_spec st now px py) as [-> | (b & Hzb & Hbs & _ & Hn)];
        [assumption|].
      unfold zBelowNext in *. rewrite Hbs, Hn. apply Forall_app. split.
      * eapply Forall_impl; [|exact Hz]. cbn. intros; lia.
      * constructor; [lia | constructor].
    + unfold handleSelectBubble. destruct (str_or_null i) as [s|]; [|exact Hz].
      destruct (bringToFront_spec s (bubbles st) (nextZIndex st)) as (H1 & H2 & H3).
      destruct (bringToFront s (nextZIndex st) (bubbles st)) as [bs z].
      cbn [fst snd] in *. unfold zBelowNext in *. cbn [bubbles nextZIndex].
      rewrite Forall_forall in Hz. apply Forall_forall. intros b Hb.
      destruct (H3 b Hb) as [Ha Hn].
      destruct (string_dec (id b) s) as [E | E].
      * apply Ha in E. lia.
      * specialize (Hz b (Hn E)). lia.
    + unfold zBelowNext, handleDeleteBubble in *. cbn [bubbles nextZIndex].
      rewrite Forall_forall in *. intros b Hb. apply filter_In in Hb. now apply Hz.
    + constructor.
    + unfold zBelowNext, handleUpdateBubble in *. cbn [bubbles nextZIndex].
      rewrite Forall_forall in *. intros c Hc.
      apply in_map_iff in Hc as (c0 & Hc0 & Hin).
      destruct (String.eqb (id c0) (id (handleMouseMove i b px py))).
      * subst c.
        assert (E : zIndex (handleMouseMove i b px py) = zIndex b).
        { unfold handleMouseMove. destruct (mode i) as [[| | | |]|]; reflexivity. }
        rewrite E. now apply Hz.
      * subst c. now apply Hz.
  - destruct Hstep as [st now px py | st i | st i | st | st b i px py Hb].
    + destruct (onAddBubble_spec st now px py) as [-> | (b & _ & _ & _ & Hn)];
        left; lia.
    + left. unfold handleSelectBubble. destruct (str_or_null i) as [s|];
        [|cbn; lia].
      pose proof (bringToFront_spec s (bubbles st) (nextZIndex st)) as (H1 & _).
      destruct (bringToFront s (nextZIndex st) (bubbles st)). cbn in *. lia.
    + left. cbn. lia.
    + right. reflexivity.
    + left. cbn. lia.
  - intros now px py b E Hne Hb. subst st'.
    destruct (onAddBubble_spec st now px py) as [Hsame | (new & Hzn & Hbs & _)];
      [contradiction|].
    exists new. split.
    + rewrite Hbs. apply in_or_app. right. now left.
    + unfold zBelowNext in Hz. rewrite Forall_forall in Hz.
      specialize (Hz b Hb). lia.
Qed.

Lemma stacking_counter_invariant_witness :
  let b1 := with_zIndex (speechBubble 150 90 12 "Un" []) 10 in
  let st := mkApp (Some (mkImage "page.png" 2000 3000)) [b1] None defaultTools
                  (800, 600) 11 in
  zBelowNext (onAddBubble st 1700000000000 400 300).
Proof.
  intros b1 st.
  apply (stacking_counter_invariant st (onAddBubble st 1700000000000 400 300)).
  - repeat constructor.
  - constructor.
Defined.

(* ----------------------------------------------------------------- *)
(** ** The sampled text extent: its range and its bands *)

Lemma min_of_ge (a x : Q) (xs : list Q) :
  a <= x -> Forall (fun v => a <= v) xs -> a <= min_of x xs.
Proof.
  unfold min_of. revert x. induction xs as [|v xs IH]; intros x Hx Hxs;
    [exact Hx|].
  inversion Hxs; subst. cbn [fold_left]. apply IH; [|assumption].
  now apply Q.min_glb.
Qed.

Lemma max_of_le (b x : Q) (xs : list Q) :
  x <= b -> Forall (fun v => v <= b) xs -> max_of x xs <= b.
Proof.
  unfold max_of. revert x. induction xs as [|v xs IH]; intros x Hx Hxs;
    [exact Hx|].
  inversion Hxs; subst. cbn [fold_left]. apply IH; [|assumption].
  now apply Q.max_lub.
Qed.

Lemma min_of_le_max_of (xs : list Q) :
  forall x x', x <= x' -> fold_left Qmin xs x <= fold_left Qmax xs x'.
Proof.
  induction xs as [|v xs IH]; intros x x' H; [exact H|].
  cbn [fold_left]. apply IH.
  apply Qle_trans with x; [apply Q.le_min_l|].
  apply Qle_trans with x'; [exact H | apply Q.le_max_l].
Qed.

(** A crossing is a point of the segment between two sampled points. *)
Lemma crossing_between (ty lx ly px py lo hi : Q) :
  Qltb ly ty <> Qltb py ty ->
  lo <= lx <= hi -> lo <= px <= hi ->
  lo <= lx + (ty - ly) / (py - ly) * (px - lx) <= hi.
Proof.
  intros Hc Hl Hp.
  set (t := (ty - ly) / (py - ly)).
  assert (Ht : 0 <= t <= 1).
  { destruct (Qltb ly ty) eqn:E1; destruct (Qltb py ty) eqn:E2;
      try congruence; bool_to_prop.
    - assert (Hd : 0 < py - ly) by lra.
      unfold t. split.
      + apply Qle_shift_div_l; [assumption | lra].
      + apply Qle_shift_div_r; [assumption | lra].
    - assert (Hd : 0 < ly - py) by lra.
      assert (Et : t == (ly - ty) / (ly - py)).
      { unfold t. field. lra. }
      rewrite Et. split.
      + apply Qle_shift_div_l; [assumption | lra].
      + apply Qle_shift_div_r; [assumption | lra]. }
  clearbody t. nra.
Qed.

Section ExtentRange.
Context {M : MathLib} {D : SvgDom}.

Lemma sampled_distance_range (len : Q) (i : nat) :
  0 <= len -> (i <= 100)%nat ->
  0 <= inject_Z (Z.of_nat i) / 100 * len
  /\ inject_Z (Z.of_nat i) / 100 * len <= len.
Proof.
  intros Hlen Hi.
  assert (Hq : 0 <= inject_Z (Z.of_nat i) /\ inject_Z (Z.of_nat i) <= 100).
  { split; unfold Qle; simpl; lia. }
  split.
  - apply Qmult_le_0_compat; [|assumption].
    apply Qle_shift_div_l; lra.
  - setoid_replace len with (100 / 100 * len) at 2 by field.
    apply Qmult_le_compat_r; [|assumption].
    apply Qmult_le_compat_r; [tauto | unfold Qle; simpl; lia].
Qed.

Lemma findIntersectionsLoop_in_span (p : list tok) (ty len lo hi : Q) :
  0 <= len ->
  (forall d, 0 <= d -> d <= len -> lo <= fst (getPointAtLength p d) <= hi) ->
  forall n i wasAbove last acc, (i + n <= 101)%nat ->
    (forall l, last = Some l ->
               wasAbove = Qltb (snd l) ty /\ lo <= fst l <= hi) ->
    Forall (fun v => lo <= v <= hi) acc ->
    Forall (fun v => lo <= v <= hi)
           (findIntersectionsLoop p ty len n i wasAbove last acc).
Proof.
  intros Hlen Hpts.
  induction n as [|n IH]; intros i wasAbove last acc Hi Hlast Hacc;
    [exact Hacc|].
  cbn [findIntersectionsLoop].
  destruct (sampled_distance_range len i Hlen ltac:(lia)) as [Hd0 Hd1].
  set (dist := inject_Z (Z.of_nat i) / 100 * len) in *.
  pose proof (Hpts dist Hd0 Hd1) as Hx.
  destruct last as [l|].
  - destruct (Hlast l eq_refl) as [Hw Hl].
    apply IH; [lia | intros l' [= <-]; split; [reflexivity | exact Hx] |].
    destruct (negb (Bool.eqb wasAbove (Qltb (snd (getPointAtLength p dist)) ty)))
      eqn:E; [|exact Hacc].
    apply Forall_app. split; [exact Hacc|]. constructor; [|constructor].
    apply crossing_between; try assumption.
    rewrite <- Hw. intro H. rewrite H, Bool.eqb_reflx in E. discriminate.
  - apply IH; [lia | intros l' [= <-]; split; [reflexivity | exact Hx] | exact Hacc].
Qed.

Lemma sampleAt_range (p : list tok) (H lo hi : Q) (i : nat) :
  0 <= getTotalLength p ->
  (forall d, 0 <= d -> d <= getTotalLength p ->
             lo <= fst (getPointAtLength p d) <= hi) ->
  sampleAt p H (getTotalLength p) 20 i = H * 0.5
  \/ 0 <= sampleAt p H (getTotalLength p) 20 i <= (hi - lo) * 0.70.
Proof.
  intros Hlen Hpts. unfold sampleAt, findIntersectionsAtY.
  set (ty := inject_Z (Z.of_nat i) / (inject_Z (Z.of_nat 20) - 1) * H).
  pose proof (findIntersectionsLoop_in_span p ty (getTotalLength p) lo hi
                Hlen Hpts 101 0 false None [] ltac:(lia)
                ltac:(discriminate) ltac:(constructor)) as Hall.
  destruct (findIntersectionsLoop p ty (getTotalLength p) 101 0 false None [])
    as [|x0 [|x1 rest]]; [now left | now left | right].
  inversion Hall as [|? ? Hx0 Hrest]; subst.
  assert (Hlo : lo <= min_of x0 (x1 :: rest)).
  { apply min_of_ge; [tauto|]. eapply Forall_impl; [|exact Hrest]. cbn. tauto. }
  assert (Hhi : max_of x0 (x1 :: rest) <= hi).
  { apply max_of_le; [tauto|]. eapply Forall_impl; [|exact Hrest]. cbn. tauto. }
  pose proof (min_of_le_max_of (x1 :: rest) x0 x0 (Qle_refl _)) as Hmm.
  fold (min_of x0 (x1 :: rest)) in Hmm. fold (max_of x0 (x1 :: rest)) in Hmm.
  split; nra.
Qed.

Lemma calculateTextBounds_sample (b : Bubble) (y : Q) :
  type b <> Descriptive -> type b <> TextOnly ->
  let p := bodyPath (generateBubblePaths b) in
  let k := Qfloor (y / height b * 19) in
  calculateTextBounds b y
  = if ((k <? 0) || (20 <=? k))%Z then width b * 0.5
    else sampleAt p (height b) (getTotalLength p) 20 (Z.to_nat k).
Proof.
  intros Hd Ht p k.
  assert (E : forall samples : list Q,
             List.length samples = 20%nat ->
             Qfloor (y / height b * (inject_Z (Z.of_nat (List.length samples)) - 1))
             = k).
  { intros samples ->. apply Qfloor_comp. unfold Qdiv. ring. }
  assert (N : ((k <? 0) || (20 <=? k))%Z = false ->
              nth (Z.to_nat k) (samplePathAtYPositions p (height b) 20) 0
              = sampleAt p (height b) (getTotalLength p) 20 (Z.to_nat k)).
  { intro Hk. apply orb_false_iff in Hk as [H0 H1].
    apply Z.ltb_ge in H0. apply Z.leb_gt in H1.
    unfold samplePathAtYPositions.
    set (f := sampleAt p (height b) (getTotalLength p) 20).
    rewrite (nth_indep _ 0 (f 0%nat)) by (rewrite length_map, length_seq; lia).
    rewrite map_nth, seq_nth by lia. reflexivity. }
  unfold calculateTextBounds.
  destruct (type b); try contradiction;
    rewrite (E _ (samplePathAtYPositions_length _ _ _));
    rewrite samplePathAtYPositions_length;
    change (Z.of_nat 20) with 20%Z;
    (destruct ((k <? 0) || (20 <=? k))%Z eqn:Hk; [reflexivity | now apply N]).
Qed.

(** X18: outside its fallbacks the sampled extent is at most 70% of the
    outline's horizontal span. If the outline's points have their x between
    [lo] and [hi], every value of the extent function of a non-rectangular
    bubble is half the width (a row outside the table), half the height (a
    row with fewer than two crossings), or lies between 0 and
    [0.7 * (hi - lo)]: each crossing is a point of a chord of the outline. *)
Theorem calculateTextBounds_within_span (b : Bubble) (lo hi y : Q) :
  type b <> Descriptive -> type b <> TextOnly ->
  0 < height b ->
  0 <= getTotalLength (bodyPath (generateBubblePaths b)) ->
  (forall d, 0 <= d -> d <= getTotalLength (bodyPath (generateBubblePaths b)) ->
     lo <= fst (getPointAtLength (bodyPath (generateBubblePaths b)) d) <= hi) ->
  calculateTextBounds b y = width b * 0.5
  \/ calculateTextBounds b y = height b * 0.5
  \/ 0 <= calculateTextBounds b y <= (hi - lo) * 0.70.
Proof.
  intros Hd Ht _ Hlen Hpts.
  rewrite calculateTextBounds_sample by assumption.
  destruct ((_ <? 0) || (20 <=? _))%Z; [now left | right].
  now apply sampleAt_range.
Qed.

Lemma Qfloor_band (q : Q) (k : Z) :
  inject_Z k <= q -> q < inject_Z (k + 1) -> Qfloor q = k.
Proof.
  intros H0 H1.
  assert (A : (k <= Qfloor q)%Z).
  { rewrite <- (Qfloor_Z k). now apply Qfloor_resp_le. }
  assert (B : (Qfloor q < k + 1)%Z).
  { rewrite Zlt_Qlt. eapply Qle_lt_trans; [apply Qfloor_le | exact H1]. }
  lia.
Qed.

(** X19: the extent function is a step function over 20 bands. For a
    non-rectangular bubble of positive height, a row in the band
    [[k/19 * height, (k+1)/19 * height)], [k < 20], gets the extent sampled
    on the row [k/19 * height] (so two rows of one band get the same, and
    the row [y = height] gets the last sample); a row above the bubble or at
    [20/19 * height] and below gets half the width. A Descriptive or
    TextOnly bubble gets 92% of its width on every row. *)
Theorem calculateTextBounds_bands (b : Bubble) (y : Q) :
  0 < height b ->
  let p := bodyPath (generateBubblePaths b) in
  ((type b = Descriptive \/ type b = TextOnly) ->
     calculateTextBounds b y = width b * 0.92)
  /\ (type b <> Descriptive -> type b <> TextOnly ->
      (y < 0 \/ 20 / 19 * height b <= y ->
         calculateTextBounds b y = width b * 0.5)
      /\ forall k : nat, (k < 20)%nat ->
           inject_Z (Z.of_nat k) / 19 * height b <= y ->
           y < inject_Z (Z.of_nat (k + 1)) / 19 * height b ->
           calculateTextBounds b y
           = sampleAt p (height b) (getTotalLength p) 20 k).
Proof.
  intros Hh p. split.
  - unfold calculateTextBounds. intros [-> | ->]; reflexivity.
  - intros Hd Ht.
    pose proof (Qmult_div_r y (height b) ltac:(lra)) as Ey.
    set (q := y / height b) in *.
    rewrite calculateTextBounds_sample by assumption. fold q. clearbody q.
    split.
    + intros [Hy | Hy].
      * assert (Hq : q * 19 < 0) by nra.
        assert (Hk : (Qfloor (q * 19) < 0)%Z).
        { rewrite Zlt_Qlt. eapply Qle_lt_trans; [apply Qfloor_le | exact Hq]. }
        apply Z.ltb_lt in Hk. now rewrite Hk.
      * unfold Qdiv in Hy. change (/ 19) with (1 # 19) in Hy.
        assert (Hq : inject_Z 20 <= q * 19).
        { change (inject_Z 20) with 20. nra. }
        apply Qfloor_resp_le in Hq. rewrite Qfloor_Z in Hq.
        apply Z.leb_le in Hq. rewrite Hq. now rewrite orb_true_r.
    + intros k Hk H0 H1.
      unfold Qdiv in H0, H1. change (/ 19) with (1 # 19) in H0, H1.
      assert (Hz0 : 0 <= inject_Z (Z.of_nat k)) by (unfold Qle; simpl; lia).
      assert (E : Qfloor (q * 19) = Z.of_nat k).
      { apply Qfloor_band.
        - nra.
        - replace (Z.of_nat k + 1)%Z with (Z.of_nat (k + 1)) by lia. nra. }
      rewrite E, Nat2Z.id.
      assert (Hr : ((Z.of_nat k <? 0) || (20 <=? Z.of_nat k))%Z = false).
      { apply orb_false_iff. split; [apply Z.ltb_ge | apply Z.leb_gt]; lia. }
      now rewrite Hr.
Qed.

End ExtentRange.

Lemma boxPoint_x_range (w h d : Q) :
  0 <= w -> 0 <= h -> 0 <= d -> d <= 2 * (w + h) ->
  0 <= fst (boxPoint w h d) <= w.
Proof.
  intros Hw Hh H0 H1. unfold boxPoint.
  destruct (Qle_bool d w) eqn:E1; [bool_to_prop; simpl; lra|].
  destruct (Qle_bool d (w + h)) eqn:E2; [bool_to_prop; simpl; lra|].
  destruct (Qle_bool d (w + h + w)) eqn:E3; bool_to_prop; simpl; lra.
Qed.

Lemma calculateTextBounds_within_span_witness :
  let v := calculateTextBounds (M := polyMath) (D := boxDom) tallBubble 100 in
  v = width tallBubble * 0.5 \/ v = height tallBubble * 0.5
  \/ 0 <= v <= (50 - 0) * 0.70.
Proof.
  apply (calculateTextBounds_within_span (M := polyMath) (D := boxDom)
           tallBubble 0 50 100).
  - discriminate.
  - discriminate.
  - reflexivity.
  - unfold Qle; simpl; lia.
  - intros d H0 H1.
    change (0 <= fst (boxPoint 50 200 d) <= 50).
    change (d <= 2 * (50 + 200)) in H1.
    apply boxPoint_x_range; try assumption; unfold Qle; simpl; lia.
Defined.

Lemma calculateTextBounds_bands_witness :
  calculateTextBounds (M := polyMath) (D := boxDom) tallBubble (-1)
  = width tallBubble * 0.5.
Proof.
  destruct (calculateTextBounds_bands (M := polyMath) (D := boxDom)
              tallBubble (-1) eq_refl) as [_ H].
  destruct (H ltac:(discriminate) ltac:(discriminate)) as [H1 _].
  apply H1. left. reflexivity.
Defined.

(* ----------------------------------------------------------------- *)
(** ** The safe zone of the fitter *)

(** X20: the closed-form safe zone is centred in the bubble. In the current
    module, for a bubble of non-negative size, the margins left and right
    (and above and below) of the zone are equal and not negative, and the
    zone keeps at least half of the width and three quarters of the height.
    In the earlier copy of the module the zone is centred too, and has a
    positive size for every bubble at least as large as the editor's
    minimum of 50 x 30. *)
Theorem getTextBounds_centred (b : Bubble) :
  0 <= width b -> 0 <= height b ->
  let tb := getTextBounds b in
  let old := Legacy.getTextBounds b in
  (tb_x tb + tb_width tb + tb_x tb == width b
   /\ tb_y tb + tb_height tb + tb_y tb == height b
   /\ 0 <= tb_x tb /\ 0 <= tb_y tb
   /\ width b * 0.5 <= tb_width tb /\ height b * 0.75 <= tb_height tb)
  /\ (tb_x old + tb_width old + tb_x old == width b
      /\ tb_y old + tb_height old + tb_y old == height b
      /\ 0 <= tb_x old /\ 0 <= tb_y old
      /\ (MIN_BUBBLE_WIDTH <= width b -> 0 < tb_width old)
      /\ (MIN_BUBBLE_HEIGHT <= height b -> 0 < tb_height old)).
Proof.
  intros Hw Hh tb old. unfold tb, old, getTextBounds, Legacy.getTextBounds,
    MIN_BUBBLE_WIDTH, MIN_BUBBLE_HEIGHT.
  destruct (type b);
    cbn [SAFE_TEXT_ZONES Legacy.SAFE_TEXT_ZONES widthFactor heightFactor
         tb_x tb_y tb_width tb_height];
    unfold Qdiv; change (/ 2) with (1 # 2);
    repeat match goal with |- _ /\ _ => split end; try lra; intros; lra.
Qed.

Lemma getTextBounds_centred_witness :
  let tb := getTextBounds (speechBubble 150 90 12 "Un" []) in
  tb_x tb + tb_width tb + tb_x tb == 150 /\ 0 <= tb_x tb.
Proof.
  destruct (getTextBounds_centred (speechBubble 150 90 12 "Un" []))
    as [(H1 & _ & H3 & _) _].
  - unfold Qle; simpl; lia.
  - unfold Qle; simpl; lia.
  - split; [exact H1 | exact H3].
Defined.

(* ----------------------------------------------------------------- *)
(** ** Measuring: markup and wrapping *)

Lemma hasGt_stripTagsFrom (s : string) :
  forall inTag, hasGt s = false -> hasGt (stripTagsFrom inTag s) = false.
Proof.
  induction s as [|c s IH]; intros inTag H; [reflexivity|].
  cbn [hasGt] in H. apply orb_false_iff in H as [Hc Hs].
  cbn [stripTagsFrom]. rewrite Hc, Hs, andb_false_r.
  destruct inTag; [now apply IH|].
  cbn [hasGt]. rewrite Hc. cbn [orb]. now apply IH.
Qed.

Lemma tagFree_stripTagsFrom (s : string) :
  forall inTag, tagFree (stripTagsFrom inTag s) = true.
Proof.
  induction s as [|c s IH]; intro inTag; [reflexivity|].
  cbn [stripTagsFrom]. destruct inTag.
  - destruct (Ascii.eqb c ">"); apply IH.
  - destruct (Ascii.eqb c "<") eqn:Ec; cbn [andb].
    + destruct (hasGt s) eqn:Hg; [apply IH|].
      cbn [tagFree]. rewrite Ec, (hasGt_stripTagsFrom s false Hg), IH.
      reflexivity.
    + cbn [tagFree]. rewrite Ec, IH. reflexivity.
Qed.

Lemma stripTags_tagFree (s : string) :
  tagFree s = true -> stripTags s = s.
Proof.
  unfold stripTags. induction s as [|c s IH]; intro H; [reflexivity|].
  cbn [tagFree] in H. apply andb_true_iff in H as [Hc Hs].
  cbn [stripTagsFrom]. apply negb_true_iff in Hc. rewrite Hc.
  now rewrite IH.
Qed.

Lemma stripTagsFrom_length (s : string) :
  forall inTag,
    (String.length (stripTagsFrom inTag s) <= String.length s)%nat.
Proof.
  induction s as [|c s IH]; intro inTag; [cbn; lia|].
  cbn [stripTagsFrom].
  pose proof (IH true). pose proof (IH false).
  destruct inTag; [destruct (Ascii.eqb c ">"); cbn [String.length]; lia|].
  destruct (Ascii.eqb c "<" && hasGt s); cbn [String.length]; lia.
Qed.

Section Measuring.
Context {C : Canvas}.

(** X21: markup is not measured. What [measureText] measures holds no tag
    (no ['<'] with a ['>'] after it), is never longer than the text, and is
    the text itself when the text holds no tag; so a text and its tag-less
    form get the same dimensions, and the same fitted size. *)
Theorem measureText_ignores_markup (text_ fontFamily_ : string)
    (fontSize_ maxWidth : Q) (b : Bubble) (minFontSize maxFontSize : Q) :
  tagFree (stripTags text_) = true
  /\ (String.length (stripTags text_) <= String.length text_)%nat
  /\ (tagFree text_ = true -> stripTags text_ = text_)
  /\ measureText (stripTags text_) fontFamily_ fontSize_ maxWidth
     = measureText text_ fontFamily_ fontSize_ maxWidth
  /\ calculateOptimalFontSize (stripTags text_) b fontFamily_
       minFontSize maxFontSize
     = calculateOptimalFontSize text_ b fontFamily_ minFontSize maxFontSize.
Proof.
  assert (Hfree : tagFree (stripTags text_) = true)
    by apply tagFree_stripTagsFrom.
  assert (Hm : forall s w,
             measureText (stripTags text_) fontFamily_ s w
             = measureText text_ fontFamily_ s w).
  { intros s w. unfold measureText.
    now rewrite (stripTags_tagFree _ Hfree). }
  split; [exact Hfree|]. split; [apply stripTagsFrom_length|].
  split; [apply stripTags_tagFree|]. split; [apply Hm|].
  unfold calculateOptimalFontSize. rewrite Hm.
  assert (Hl : forall fuel s,
             fitLoop (stripTags text_) fontFamily_ (getTextBounds b)
                     (fontSize b) minFontSize fuel s
             = fitLoop text_ fontFamily_ (getTextBounds b)
                       (fontSize b) minFontSize fuel s).
  { induction fuel as [|fuel IH]; intro s; [reflexivity|].
    cbn [fitLoop]. rewrite Hm.
    destruct (Qle_bool minFontSize s); [|reflexivity].
    destruct (fitsBounds _ _); [reflexivity | apply IH]. }
  now rewrite Hl.
Qed.

Lemma wrapWords_within (measure : string -> Q) (maxWidth : Q)
    (words : list string) :
  Forall (fun w => measure w <= maxWidth) words ->
  forall lines cur,
    Forall (fun l => measure l <= maxWidth) lines ->
    (truthy cur = true -> measure cur <= maxWidth) ->
    Forall (fun l => measure l <= maxWidth)
           (fst (wrapWords measure maxWidth words lines cur))
    /\ (truthy (snd (wrapWords measure maxWidth words lines cur)) = true ->
        measure (snd (wrapWords measure maxWidth words lines cur)) <= maxWidth).
Proof.
  induction 1 as [|word words Hword Hwords IH]; intros lines cur Hl Hc;
    [split; assumption|].
  cbn [wrapWords].
  destruct (Qltb maxWidth _ && truthy cur) eqn:E.
  - apply andb_true_iff in E as [_ Et]. apply IH.
    + apply Forall_app. split; [assumption|]. constructor; [auto | constructor].
    + intros _. exact Hword.
  - apply IH; [assumption|]. intros _.
    apply andb_false_iff in E as [E | E].
    + now apply Qltb_ge in E.
    + rewrite E in *. exact Hword.
Qed.

Lemma wrapWords_count (measure : string -> Q) (maxWidth : Q)
    (words : list string) :
  forall lines cur,
    (List.length (fst (wrapWords measure maxWidth words lines cur))
     + (if truthy (snd (wrapWords measure maxWidth words lines cur))
        then 1 else 0)
     <= List.length lines + (if truthy cur then 1 else 0)
        + List.length words)%nat.
Proof.
  induction words as [|word words IH]; intros lines cur; [cbn; lia|].
  cbn [wrapWords].
  destruct (Qltb maxWidth _ && truthy cur) eqn:E.
  - apply andb_true_iff in E as [_ Et].
    specialize (IH (lines ++ [cur]) word).
    rewrite length_app in IH. rewrite Et. cbn [List.length] in *.
    destruct (truthy word); lia.
  - match goal with
    | |- context [wrapWords _ _ _ _ ?t] => specialize (IH lines t);
        destruct (truthy t)
    end; cbn [List.length]; destruct (truthy cur); lia.
Qed.

Lemma Math_max_list_le (m : Q) (xs : list Q) :
  Forall (fun q => q <= m) xs -> xle_bool (Math_max_list xs) m = true.
Proof.
  unfold Math_max_list.
  assert (G : forall acc, xle_bool acc m = true ->
                Forall (fun q => q <= m) xs ->
                xle_bool (fold_left (fun a q => xmax a (Num q)) xs acc) m = true).
  { induction xs as [|x xs IH]; intros acc Ha Hxs; [exact Ha|].
    inversion Hxs; subst. cbn [fold_left]. apply IH; [|assumption].
    destruct acc as [|p]; cbn [xmax xle_bool] in *.
    - now apply Qle_bool_iff.
    - apply Qle_bool_iff. apply Qle_bool_iff in Ha. now apply Q.max_lub. }
  apply G. reflexivity.
Qed.

(** X22: word wrapping keeps the lines within the width it is given. With a
    2D context, when no single word of the text is wider than [maxWidth] at
    the size measured, the measured width is at most [maxWidth]: a measured
    width beyond it always comes from one word that does not fit alone. The
    height is the number of lines times the line height, and there are never
    more lines than words. *)
Theorem measureText_wraps_within (ctx : Q -> string -> string -> Q)
    (text_ fontFamily_ : string) (fontSize_ maxWidth : Q) :
  getContext2d = Some ctx ->
  (forall w, In w (splitWs (stripTags text_)) ->
             ctx fontSize_ fontFamily_ w <= maxWidth) ->
  let d := measureText text_ fontFamily_ fontSize_ maxWidth in
  xle_bool (dim_width d) maxWidth = true
  /\ dim_height d
     = inject_Z (Z.of_nat (dim_lines d))
       * (fontSize_ + getLineHeightOffset fontSize_)
  /\ (dim_lines d <= List.length (splitWs (stripTags text_)))%nat.
Proof.
  intros Hctx Hwords d. unfold d, measureText. rewrite Hctx.
  apply Forall_forall in Hwords.
  pose proof (wrapWords_within (ctx fontSize_ fontFamily_) maxWidth _ Hwords
                [] "" ltac:(constructor) ltac:(discriminate)) as [Hl Hc].
  pose proof (wrapWords_count (ctx fontSize_ fontFamily_) maxWidth
                (splitWs (stripTags text_)) [] "") as Hn.
  destruct (wrapWords _ _ _ _ _) as [lines cur].
  cbn [fst snd] in *. cbn [dim_width dim_height dim_lines].
  split; [|split; [reflexivity|]].
  - apply Math_max_list_le. apply Forall_map.
    destruct (truthy cur); [|exact Hl].
    apply Forall_app. split; [exact Hl|]. constructor; [auto | constructor].
  - destruct (truthy cur); [rewrite length_app|];
      cbn [List.length truthy] in *; lia.
Qed.

End Measuring.

Lemma measureText_wraps_within_witness :
  xle_bool (dim_width (measureText (C := monoCanvas) "Un <b>mot</b>" "Arial"
                                   12 (249 # 2)))
           (249 # 2) = true.
Proof.
  eapply (measureText_wraps_within (C := monoCanvas)).
  - reflexivity.
  - intros w Hin. vm_compute in Hin.
    destruct Hin as [<- | [<- | []]]; vm_compute; discriminate.
Defined.

(* ----------------------------------------------------------------- *)
(** ** The fitted size *)

Lemma Qmin_first (p q : Q) : p <= q -> Qmin p q = p.
Proof.
  intro H. unfold Qmin, GenericMinMax.gmin.
  destruct (p ?= q) eqn:E; try reflexivity.
  apply Qgt_alt in E. lra.
Qed.

Section FittedSize.
Context {C : Canvas}.

Lemma fitLoop_some (t ff : string) (tb : TextBounds) (target mn : Q) :
  forall fuel s r,
    fitLoop t ff tb target mn fuel s = Some r ->
    mn <= fit_fontSize r /\ fit_fontSize r <= s
    /\ fitsBounds (measureText t ff (fit_fontSize r) (tb_width tb)) tb = true
    /\ r = mkFit (fit_fontSize r)
                 (dim_width (measureText t ff (fit_fontSize r) (tb_width tb)))
                 (dim_height (measureText t ff (fit_fontSize r) (tb_width tb)))
                 true (fit_fontSize r / target).
Proof.
  induction fuel as [|fuel IH]; intros s r H; [discriminate|].
  cbn [fitLoop] in H.
  destruct (Qle_bool mn s) eqn:Hs; [|discriminate].
  apply Qle_bool_iff in Hs.
  destruct (fitsBounds (measureText t ff s (tb_width tb)) tb) eqn:Hf.
  - injection H as <-. cbn [fit_fontSize]. repeat split; try assumption; lra.
  - apply IH in H as (H1 & H2 & H3 & H4).
    repeat split; try assumption.
    eapply Qle_trans; [exact H2|]. apply Math_max_upper; lra.
Qed.

Lemma fitLoop_hit (t ff : string) (tb : TextBounds) (target mn s : Q)
    (fuel : nat) :
  mn <= s ->
  fitsBounds (measureText t ff s (tb_width tb)) tb = true ->
  fit_fontSize
    (match fitLoop t ff tb target mn (S fuel) s with
     | Some r => r
     | None =>
         mkFit mn (dim_width (measureText t ff mn (tb_width tb)))
               (dim_height (measureText t ff mn (tb_width tb)))
               (Qle_bool (dim_height (measureText t ff mn (tb_width tb)))
                         (tb_height tb))
               (mn / target)
     end) = s.
Proof.
  intros Hs Hf. cbn [fitLoop]. apply Qle_bool_iff in Hs. rewrite Hs, Hf.
  reflexivity.
Qed.

Lemma fitLoop_miss (t ff : string) (tb : TextBounds) (target mn s : Q)
    (fuel : nat) :
  mn <= s ->
  fitsBounds (measureText t ff s (tb_width tb)) tb = false ->
  fitLoop t ff tb target mn (S fuel) s
  = fitLoop t ff tb target mn fuel (Math_max mn (s - 1)).
Proof.
  intros Hs Hf. cbn [fitLoop]. apply Qle_bool_iff in Hs. now rewrite Hs, Hf.
Qed.

Lemma fitLoop_stays_at_min (t ff : string) (tb : TextBounds) (target mn : Q) :
  fitsBounds (measureText t ff mn (tb_width tb)) tb = false ->
  forall fuel, fitLoop t ff tb target mn fuel mn = None.
Proof.
  intros Hf. induction fuel as [|fuel IH]; [reflexivity|].
  cbn [fitLoop]. rewrite Hf.
  destruct (Qle_bool mn mn); [|reflexivity].
  unfold Math_max. rewrite Qmax_first by lra. exact IH.
Qed.

(** X23: the range and the meaning of the fitted size. The size
    [calculateOptimalFontSize] returns is never below [minFontSize] and never
    above the larger of [minFontSize] and the start size
    [min(bubble.fontSize, maxFontSize)]: fitting does not enlarge a text that
    is at least [minFontSize]. The reported width and height are those
    measured at the returned size and the scale factor is its ratio to the
    bubble's size. A returned size above [minFontSize] is one at which the
    text fits in width and height, and [fits = true] always means that the
    height measured at the returned size is within the safe zone. *)
Theorem calculateOptimalFontSize_range (text_ : string) (b : Bubble)
    (fontFamily_ : string) (minFontSize maxFontSize : Q) :
  let r := calculateOptimalFontSize text_ b fontFamily_ minFontSize maxFontSize in
  let d := measureText text_ fontFamily_ (fit_fontSize r)
                       (tb_width (getTextBounds b)) in
  minFontSize <= fit_fontSize r
  /\ fit_fontSize r <= Qmax minFontSize (Qmin (fontSize b) maxFontSize)
  /\ textWidth r = dim_width d /\ textHeight r = dim_height d
  /\ scaleFactor r = fit_fontSize r / fontSize b
  /\ (minFontSize < fit_fontSize r ->
      fits r = true /\ fitsAt text_ b fontFamily_ (fit_fontSize r) = true)
  /\ (fits r = true -> dim_height d <= tb_height (getTextBounds b)).
Proof.
  intros r d. unfold d, r, calculateOptimalFontSize. clear r d.
  destruct (fitLoop _ _ _ _ _ _ _) as [r|] eqn:L.
  - apply fitLoop_some in L as (H1 & H2 & H3 & H4).
    split; [exact H1|]. split.
    { eapply Qle_trans; [exact H2 | apply Q.le_max_r]. }
    destruct r as [fs tw th f sc].
    cbn [fit_fontSize textWidth textHeight scaleFactor fits] in *.
    injection H4 as Etw Eth Ef Esc.
    split; [exact Etw|]. split; [exact Eth|]. split; [exact Esc|].
    split; [intros _; split; [exact Ef | exact H3]|].
    intros _. unfold fitsBounds in H3. apply andb_true_iff in H3 as [H3 _].
    now apply Qle_bool_iff.
  - cbn [fit_fontSize textWidth textHeight scaleFactor fits].
    split; [lra|]. split; [apply Q.le_max_l|].
    repeat split; try lra. now apply Qle_bool_iff.
Qed.

Lemma autoFitBubbleText_cases (b : Bubble) (ff : string) :
  autoFitBubbleText b ff = b
  \/ (autoFitSkips b = false
      /\ autoFitBubbleText b ff
         = with_fontSize b
             (fit_fontSize (calculateOptimalFontSize (text b) b ff 8 40))).
Proof.
  unfold autoFitBubbleText. fold (autoFitSkips b).
  destruct (autoFitSkips b); [now left|].
  destruct (Qeq_bool _ _); [now left | now right].
Qed.

Lemma calculateOptimalFontSize_refit (t : string) (b : Bubble) (ff : string) :
  let s := fit_fontSize (calculateOptimalFontSize t b ff 8 40) in
  fit_fontSize (calculateOptimalFontSize t (with_fontSize b s) ff 8 40) = s.
Proof.
  intro s.
  assert (Hs : 8 <= s /\ s <= 40
               /\ (fitsBounds (measureText t ff s (tb_width (getTextBounds b)))
                              (getTextBounds b) = true
                   \/ s = 8)).
  { unfold s, calculateOptimalFontSize.
    destruct (fitLoop _ _ _ _ _ _ _) as [r|] eqn:L.
    - apply fitLoop_some in L as (H1 & H2 & H3 & _).
      split; [exact H1|]. split; [|now left].
      eapply Qle_trans; [exact H2|]. apply Q.le_min_r.
    - cbn [fit_fontSize]. split; [lra|]. split; [lra | now right]. }
  destruct Hs as (H8 & H40 & Hfit). clearbody s.
  unfold calculateOptimalFontSize.
  change (getTextBounds (with_fontSize b s)) with (getTextBounds b).
  change (fontSize (with_fontSize b s)) with s.
  unfold Math_min. rewrite (Qmin_first s 40 H40).
  destruct (fitsBounds (measureText t ff s (tb_width (getTextBounds b)))
                       (getTextBounds b)) eqn:F.
  - now apply fitLoop_hit.
  - destruct Hfit as [Hfit | ->]; [discriminate|].
    now rewrite fitLoop_stays_at_min.
Qed.

(** X24: fitting is idempotent. Fitting a bubble that [autoFitBubbleText]
    has returned gives that bubble back: the size it chose is found again at
    the first measurement, or is the minimum again. *)
Theorem autoFitBubbleText_idempotent (b : Bubble) (ff : string) :
  autoFitBubbleText (autoFitBubbleText b ff) ff = autoFitBubbleText b ff.
Proof.
  destruct (autoFitBubbleText_cases b ff) as [E | [G E]].
  - rewrite E. exact E.
  - rewrite E.
    set (s := fit_fontSize (calculateOptimalFontSize (text b) b ff 8 40)).
    unfold autoFitBubbleText.
    change (type (with_fontSize b s)) with (type b).
    change (text (with_fontSize b s)) with (text b).
    fold (autoFitSkips b). rewrite G.
    unfold s at 1. rewrite calculateOptimalFontSize_refit. fold s.
    change (fontSize (with_fontSize b s)) with s.
    assert (Es : Qeq_bool s s = true) by (apply Qeq_bool_iff; reflexivity).
    now rewrite Es.
Qed.

(** X25: fitting follows the overflow test. For a bubble the guard does not
    skip, with a size between 8 and 40: when [detectTextOverflow] reports no
    overflow, [autoFitBubbleText] returns the bubble as it is; when it
    reports one and the size is above 8, the returned bubble has a strictly
    smaller size, still at least 8. *)
Theorem autoFitBubbleText_follows_overflow (b : Bubble) (ff : string) :
  autoFitSkips b = false ->
  8 <= fontSize b -> fontSize b <= 40 ->
  (detectTextOverflow (text b) b ff = false -> autoFitBubbleText b ff = b)
  /\ (detectTextOverflow (text b) b ff = true -> 8 < fontSize b ->
      8 <= fontSize (autoFitBubbleText b ff)
      /\ fontSize (autoFitBubbleText b ff) < fontSize b).
Proof.
  intros G H8 H40.
  assert (D : detectTextOverflow (text b) b ff
              = negb (fitsBounds (measureText (text b) ff (fontSize b)
                                    (tb_width (getTextBounds b)))
                                 (getTextBounds b))).
  { unfold detectTextOverflow, fitsBounds, Qltb, xgt_bool.
    now rewrite negb_andb. }
  unfold autoFitBubbleText. fold (autoFitSkips b). rewrite G.
  unfold calculateOptimalFontSize, Math_min.
  rewrite (Qmin_first _ _ H40).
  split.
  - intro Hd. rewrite Hd in D. symmetry in D. apply negb_false_iff in D.
    rewrite fitLoop_hit by assumption.
    assert (Es : Qeq_bool (fontSize b) (fontSize b) = true)
      by (apply Qeq_bool_iff; reflexivity).
    now rewrite Es.
  - intros Hd Hgt. rewrite Hd in D. symmetry in D. apply negb_true_iff in D.
    change 20%nat with (S 19). rewrite fitLoop_miss by assumption.
    assert (Hm : Math_max 8 (fontSize b - 1) < fontSize b).
    { unfold Math_max. destruct (Q.max_spec 8 (fontSize b - 1)) as [[_ E] | [_ E]];
        rewrite E; lra. }
    match goal with
    | |- context [Qeq_bool (fit_fontSize ?r0) _] => set (r := r0)
    end.
    assert (Hr : 8 <= fit_fontSize r /\ fit_fontSize r < fontSize b).
    { unfold r. destruct (fitLoop _ _ _ _ _ _ _) as [r'|] eqn:L.
      - apply fitLoop_some in L as (H1 & H2 & _). split; lra.
      - cbn [fit_fontSize]. split; lra. }
    clearbody r.
    assert (En : Qeq_bool (fit_fontSize r) (fontSize b) = false).
    { apply Qeq_bool_false. lra. }
    rewrite En. cbn [fontSize with_fontSize]. exact Hr.
Qed.

End FittedSize.

Lemma autoFitBubbleText_follows_overflow_witness :
  autoFitBubbleText (C := monoCanvas) (speechBubble 150 90 12 "Un" []) "Arial"
  = speechBubble 150 90 12 "Un" [].
Proof.
  destruct (autoFitBubbleText_follows_overflow (C := monoCanvas)
              (speechBubble 150 90 12 "Un" []) "Arial") as [H _].
  - reflexivity.
  - unfold Qle; simpl; lia.
  - unfold Qle; simpl; lia.
  - apply H. vm_compute. reflexivity.
Defined.

(* ----------------------------------------------------------------- *)
(** ** The rich-text renderer: wrapping and placing *)

Lemma str_app_nil_r (s : string) : (s ++ EmptyString)%string = s.
Proof. induction s as [|c s IH]; [reflexivity|]. cbn. now rewrite IH. Qed.

Lemma str_app_assoc (a b c : string) :
  ((a ++ b) ++ c)%string = (a ++ (b ++ c))%string.
Proof. induction a as [|x a IH]; [reflexivity|]. cbn. now rewrite IH. Qed.

Lemma str_app_length (a b : string) :
  String.length (a ++ b)%string = (String.length a + String.length b)%nat.
Proof. induction a as [|x a IH]; [reflexivity|]. cbn. now rewrite IH. Qed.

Lemma substringFrom_app (a b : string) :
  substringFrom (String.length a) (a ++ b)%string = b.
Proof. induction a as [|x a IH]; [now destruct b|]. cbn. exact IH. Qed.

Lemma joinAll_cons (x : string) (xs : list string) :
  joinAll (x :: xs) = (x ++ joinAll xs)%string.
Proof. reflexivity. Qed.

Lemma joinAll_app (xs ys : list string) :
  joinAll (xs ++ ys) = (joinAll xs ++ joinAll ys)%string.
Proof.
  induction xs as [|x xs IH]; [reflexivity|].
  rewrite <- app_comm_cons, !joinAll_cons, IH. now rewrite str_app_assoc.
Qed.

Lemma splitKeepFrom_join (s : string) :
  forall inSep cur, joinAll (splitKeepFrom inSep cur s) = (cur ++ s)%string.
Proof.
  induction s as [|c s IH]; intros inSep cur; cbn [splitKeepFrom].
  - destruct inSep; cbn; now rewrite ?str_app_nil_r.
  - destruct (isSpace c), inSep; rewrite ?joinAll_cons, IH;
      rewrite ?str_app_assoc; reflexivity.
Qed.

Lemma wsText_breakLine (d : TextStyle) (st : WrapState) :
  wsText (breakLine d st) = wsText st.
Proof.
  unfold wsText, breakLine. cbn [ws_lines ws_currentLine].
  rewrite map_app, joinAll_app. cbn [map]. rewrite joinAll_cons.
  change (joinAll []) with EmptyString.
  change (lineText emptyLine) with EmptyString.
  now rewrite !str_app_nil_r.
Qed.

Lemma wsText_pushNewline (st : WrapState) :
  wsText (pushNewline st) = wsText st.
Proof.
  unfold wsText, pushNewline. cbn [ws_lines ws_currentLine].
  rewrite map_app, joinAll_app. cbn [map]. rewrite joinAll_cons.
  change (joinAll []) with EmptyString.
  change (lineText emptyLine) with EmptyString.
  now rewrite !str_app_nil_r.
Qed.

Lemma wsText_pushSegment (st : WrapState) (t : string) (style : TextStyle)
    (w : Q) :
  wsText (pushSegment st t style w) = (wsText st ++ t)%string.
Proof.
  unfold wsText, pushSegment, lineText.
  cbn [ws_lines ws_currentLine line_segments].
  rewrite map_app, joinAll_app. cbn [map seg_text]. rewrite joinAll_cons.
  change (joinAll []) with EmptyString.
  now rewrite str_app_nil_r, str_app_assoc.
Qed.

(** The chunk loop moves no text and takes the chunk from the front of the
    characters; started on an empty chunk it takes at least one. *)
Lemma chunkLoop_spec (d : TextStyle) (measure : string -> Q) (maxW : Q)
    (chars : string) :
  forall st chunk cw,
    wsText (fst (chunkLoop d measure maxW chars st chunk cw)) = wsText st
    /\ exists rest,
         (chunk ++ chars)%string
         = (fst (snd (chunkLoop d measure maxW chars st chunk cw)) ++ rest)%string
         /\ (String.length rest <= String.length chars)%nat
         /\ (chunk = EmptyString -> chars <> EmptyString ->
             (String.length rest < String.length chars)%nat).
Proof.
  induction chars as [|c chars IH]; intros st chunk cw; cbn [chunkLoop].
  - split; [reflexivity|]. exists EmptyString. cbn [fst snd].
    split; [reflexivity|]. split; [lia|]. intros _ H. now contradiction H.
  - set (st1 := if _ && _ then breakLine d st else st).
    assert (E1 : wsText st1 = wsText st).
    { unfold st1. destruct (_ && _); [apply wsText_breakLine | reflexivity]. }
    destruct (Qle_bool _ maxW || negb (truthy chunk)) eqn:Acc.
    + destruct (IH st1 (chunk ++ String c EmptyString)%string
                   (measure (chunk ++ String c EmptyString)%string))
        as (H1 & rest & H2 & H3 & _).
      split; [now rewrite H1|]. exists rest.
      split; [|split; [cbn [String.length]; lia|intros; cbn [String.length]; lia]].
      rewrite <- H2, str_app_assoc. reflexivity.
    + cbn [fst snd]. split; [exact E1|]. exists (String c chars).
      split; [reflexivity|]. split; [lia|].
      intros -> _. cbn in Acc. rewrite orb_true_r in Acc. discriminate.
Qed.

(** The word loop pushes the whole word, chunk after chunk: the fuel never
    runs out before the word does. *)
Lemma wordLoop_text (d : TextStyle) (measure : string -> Q) (maxW : Q)
    (style : TextStyle) :
  forall fuel word st,
    (String.length word <= fuel)%nat ->
    wsText (wordLoop fuel d measure maxW style word st)
    = (wsText st ++ word)%string.
Proof.
  induction fuel as [|fuel IH]; intros word st Hf.
  - destruct word; [|cbn in Hf; lia]. cbn. now rewrite str_app_nil_r.
  - cbn [wordLoop]. destruct word as [|c word].
    + cbn. now rewrite str_app_nil_r.
    + change (0 <? String.length (String c word))%nat with true. cbv iota.
      destruct (chunkLoop_spec d measure maxW (String c word) st EmptyString 0)
        as (H1 & rest & H2 & H3 & H4).
      specialize (H4 eq_refl ltac:(discriminate)).
      destruct (chunkLoop d measure maxW (String c word) st EmptyString 0)
        as [st' [chunk cw]].
      cbn [fst snd] in *. change (EmptyString ++ String c word)%string
        with (String c word) in H2.
      destruct chunk as [|k chunk].
      { cbn in H2. subst rest. lia. }
      cbn [truthy]. rewrite H2, substringFrom_app, IH.
      * rewrite wsText_pushSegment, H1. now rewrite str_app_assoc.
      * cbn [String.length] in *. lia.
Qed.

Section Wrapping.
Context {K : Context2D}.
Variables (width_ : Q) (defaultStyle : TextStyle)
          (fontMap : string -> option string)
          (getMaxWidthAtY : option (Q -> Q)).

Lemma wrapWord_text (style : TextStyle) (st : WrapState) (word : string) :
  wsText (wrapWord width_ defaultStyle fontMap getMaxWidthAtY style st word)
  = (wsText st ++ word)%string.
Proof.
  unfold wrapWord. destruct (Qltb _ _).
  - apply wordLoop_text. lia.
  - rewrite wsText_pushSegment. destruct (_ && _); [|reflexivity].
    now rewrite wsText_breakLine.
Qed.

Lemma wrapWords_text (style : TextStyle) (words : list string) :
  forall st,
    wsText (fold_left (wrapWord width_ defaultStyle fontMap getMaxWidthAtY style)
                      words st)
    = (wsText st ++ joinAll words)%string.
Proof.
  induction words as [|w words IH]; intro st; cbn [fold_left].
  - cbn. now rewrite str_app_nil_r.
  - rewrite IH, wrapWord_text, joinAll_cons. now rewrite str_app_assoc.
Qed.

Lemma wrapSegment_text (st : WrapState) (seg : TextSegment) :
  wsText (wrapSegment width_ defaultStyle fontMap getMaxWidthAtY st seg)
  = (wsText st ++ (if isNewline seg then EmptyString else seg_text seg))%string.
Proof.
  unfold wrapSegment. destruct (isNewline seg).
  - now rewrite wsText_pushNewline, str_app_nil_r.
  - rewrite wrapWords_text. unfold splitKeep.
    now rewrite splitKeepFrom_join.
Qed.

Lemma wrapSegments_text (segs : list TextSegment) :
  forall st,
    wsText (fold_left (wrapSegment width_ defaultStyle fontMap getMaxWidthAtY)
                      segs st)
    = (wsText st
       ++ joinAll (map seg_text (filter (fun s => negb (isNewline s)) segs)))%string.
Proof.
  induction segs as [|seg segs IH]; intro st; cbn [fold_left filter].
  - cbn. now rewrite str_app_nil_r.
  - rewrite IH, wrapSegment_text. destruct (isNewline seg); cbn [negb map].
    + now rewrite str_app_nil_r.
    + now rewrite joinAll_cons, str_app_assoc.
Qed.

Lemma wrapLines_text (segs : list TextSegment) :
  joinAll (map lineText
               (wrapLines segs width_ defaultStyle fontMap getMaxWidthAtY))
  = joinAll (map seg_text (filter (fun s => negb (isNewline s)) segs)).
Proof.
  unfold wrapLines. cbv zeta.
  pose proof (wrapSegments_text segs (mkWrap [] emptyLine 0)) as H.
  set (st := fold_left _ segs _) in *.
  change (wsText (mkWrap [] emptyLine 0)) with EmptyString in H.
  cbn [String.append] in H. rewrite <- H. unfold wsText.
  destruct (line_segments (ws_currentLine st)) as [|s0 ss] eqn:E.
  - cbn [List.length Nat.ltb Nat.leb].
    assert (Ec : lineText (ws_currentLine st) = EmptyString)
      by (unfold lineText; now rewrite E).
    now rewrite Ec, str_app_nil_r.
  - cbn [List.length Nat.ltb Nat.leb]. rewrite map_app, joinAll_app.
    cbn [map]. rewrite joinAll_cons. change (joinAll []) with EmptyString.
    now rewrite str_app_nil_r.
Qed.

End Wrapping.

Lemma drawSegments_segs (segs : list TextSegment) :
  forall cx by_,
    map draw_seg (drawSegments segs cx by_)
    = filter (fun s => truthy (seg_text s)) segs.
Proof.
  induction segs as [|s segs IH]; intros cx by_; [reflexivity|].
  cbn [drawSegments filter]. destruct (truthy (seg_text s)); cbn [map];
    now rewrite IH.
Qed.

Lemma drawLines_segs (x_ w : Q) (lines : list TextLine) :
  forall dy,
    map draw_seg (drawLines x_ w lines dy)
    = filter (fun s => truthy (seg_text s)) (flat_map line_segments lines).
Proof.
  induction lines as [|l lines IH]; intro dy; [reflexivity|].
  cbn [drawLines flat_map]. rewrite map_app, filter_app.
  now rewrite drawSegments_segs, IH.
Qed.

Lemma joinAll_truthy (segs : list TextSegment) :
  joinAll (map seg_text (filter (fun s => truthy (seg_text s)) segs))
  = joinAll (map seg_text segs).
Proof.
  induction segs as [|s segs IH]; [reflexivity|].
  cbn [filter map]. destruct (seg_text s) eqn:E; cbn [truthy].
  - now rewrite joinAll_cons, IH.
  - cbn [map]. rewrite E, !joinAll_cons. now rewrite IH.
Qed.

Lemma joinAll_flat_map (lines : list TextLine) :
  joinAll (map seg_text (flat_map line_segments lines))
  = joinAll (map lineText lines).
Proof.
  induction lines as [|l lines IH]; [reflexivity|].
  cbn [flat_map map]. rewrite map_app, joinAll_app, joinAll_cons, IH.
  reflexivity.
Qed.

(** X26: the renderer draws every character of the text, once and in
    order. Whatever the widths the context reports and whatever the width
    function of the bubble, the texts of the [fillText] calls of
    [drawRichText], one after the other, are the texts of the parsed segments
    without the line breaks: wrapping, also when it cuts a long word into
    chunks, loses and repeats nothing. *)
Theorem drawRichText_draws_all_text (K : Context2D)
    (segs : list TextSegment) (x_ y_ width_ height_ : Q)
    (defaultStyle : TextStyle) (fontMap : string -> option string)
    (getMaxWidthAtY : option (Q -> Q)) :
  joinAll (map (fun d => seg_text (draw_seg d))
               (drawRichText segs x_ y_ width_ height_ defaultStyle fontMap
                             getMaxWidthAtY))
  = joinAll (map seg_text (filter (fun s => negb (isNewline s)) segs)).
Proof.
  unfold drawRichText, placeLines.
  rewrite <- (map_map draw_seg seg_text), drawLines_segs.
  rewrite joinAll_truthy, joinAll_flat_map. apply wrapLines_text.
Qed.


Lemma sumQ_app (a b : list Q) : sumQ (a ++ b) == sumQ a + sumQ b.
Proof.
  induction a as [|q a IH]; cbn [sumQ fold_right app].
  - change (fold_right Qplus 0 b) with (sumQ b). lra.
  - change (fold_right Qplus 0 (a ++ b)) with (sumQ (a ++ b)).
    change (fold_right Qplus 0 a) with (sumQ a). rewrite IH. lra.
Qed.

Lemma lineOk_emptyLine : lineOk emptyLine.
Proof. split; [reflexivity | constructor]. Qed.

Lemma lineOk_nonempty (l : TextLine) :
  lineOk l -> 0 < line_width l -> line_segments l <> [].
Proof.
  intros [Hw _] Hpos E. rewrite E in Hw. cbn in Hw. lra.
Qed.

Lemma wrapOk_breakLine (strict : bool) (d : TextStyle) (st : WrapState) :
  wrapOk strict st ->
  line_segments (ws_currentLine st) <> [] \/ 0 < line_width (ws_currentLine st) ->
  wrapOk strict (breakLine d st).
Proof.
  intros (H1 & H2 & H3) Hne. unfold wrapOk, breakLine.
  cbn [ws_lines ws_currentLine].
  split; [|split; [apply lineOk_emptyLine|]].
  - apply Forall_app. split; [assumption|]. constructor; [assumption | constructor].
  - intro Hs. apply Forall_app. split; [auto|].
    constructor; [|constructor].
    destruct Hne as [Hne | Hne]; [exact Hne | now apply lineOk_nonempty].
Qed.

Lemma wrapOk_pushSegment (strict : bool) (st : WrapState) (t : string)
    (style : TextStyle) (w : Q) :
  wrapOk strict st -> wrapOk strict (pushSegment st t style w).
Proof.
  intros (H1 & [Hw Hs] & H3). unfold wrapOk, pushSegment.
  cbn [ws_lines ws_currentLine].
  split; [assumption|]. split; [|assumption].
  split; cbn [line_width line_segments line_height].
  - rewrite map_app, sumQ_app, Hw. cbn. lra.
  - apply Forall_app. split.
    + eapply Forall_impl; [|exact Hs]. cbn. intros s [Ha Hb].
      split; [exact Ha|].
      eapply Qle_trans; [exact Hb | apply Math_max_lower].
    + constructor; [|constructor]. cbn [seg_height seg_style].
      split; [reflexivity|]. unfold Math_max. apply Q.le_max_r.
Qed.

Lemma wrapOk_pushNewline (st : WrapState) :
  wrapOk false st -> wrapOk false (pushNewline st).
Proof.
  intros (H1 & H2 & _). unfold wrapOk, pushNewline.
  cbn [ws_lines ws_currentLine].
  split; [|split; [apply lineOk_emptyLine | discriminate]].
  apply Forall_app. split; [assumption|]. constructor; [assumption | constructor].
Qed.

Lemma chunkLoop_ok (strict : bool) (d : TextStyle) (measure : string -> Q)
    (maxW : Q) (chars : string) :
  forall st chunk cw,
    wrapOk strict st ->
    wrapOk strict (fst (chunkLoop d measure maxW chars st chunk cw)).
Proof.
  induction chars as [|c chars IH]; intros st chunk cw H; cbn [chunkLoop];
    [exact H|].
  set (st1 := if _ && _ then breakLine d st else st).
  assert (H1 : wrapOk strict st1).
  { unfold st1. destruct (Qltb _ _ && _) eqn:E; [|exact H].
    apply andb_true_iff in E as [_ E]. apply Nat.ltb_lt in E.
    apply wrapOk_breakLine; [exact H|]. left. intro E0. rewrite E0 in E.
    cbn in E. lia. }
  destruct (_ || _); [now apply IH | exact H1].
Qed.

Lemma wordLoop_ok (strict : bool) (d : TextStyle) (measure : string -> Q)
    (maxW : Q) (style : TextStyle) :
  forall fuel word st,
    wrapOk strict st ->
    wrapOk strict (wordLoop fuel d measure maxW style word st).
Proof.
  induction fuel as [|fuel IH]; intros word st H; [exact H|].
  cbn [wordLoop]. destruct (0 <? String.length word)%nat; [|exact H].
  pose proof (chunkLoop_ok strict d measure maxW word st EmptyString 0 H) as H1.
  destruct (chunkLoop d measure maxW word st EmptyString 0) as [st' [chunk cw]].
  cbn [fst] in H1. destruct (truthy chunk); [|exact H1].
  apply IH. now apply wrapOk_pushSegment.
Qed.

Section WrapBookkeeping.
Context {K : Context2D}.
Variables (width_ : Q) (defaultStyle : TextStyle)
          (fontMap : string -> option string)
          (getMaxWidthAtY : option (Q -> Q)).

Lemma wrapWord_ok (strict : bool) (style : TextStyle) (st : WrapState)
    (word : string) :
  wrapOk strict st ->
  wrapOk strict
    (wrapWord width_ defaultStyle fontMap getMaxWidthAtY style st word).
Proof.
  intro H. unfold wrapWord. destruct (Qltb _ _); [now apply wordLoop_ok|].
  apply wrapOk_pushSegment.
  destruct (Qltb _ _ && Qltb 0 _) eqn:E; [|exact H].
  apply andb_true_iff in E as [_ E]. apply Qltb_lt in E.
  apply wrapOk_breakLine; [exact H | now right].
Qed.

Lemma wrapSegment_ok (strict : bool) (st : WrapState) (seg : TextSegment) :
  (strict = true -> isNewline seg = false) ->
  wrapOk strict st ->
  wrapOk strict
    (wrapSegment width_ defaultStyle fontMap getMaxWidthAtY st seg).
Proof.
  intros Hn H. unfold wrapSegment. destruct (isNewline seg).
  - destruct strict; [now discriminate Hn|]. now apply wrapOk_pushNewline.
  - generalize (splitKeep (seg_text seg)). intro words. revert st H.
    induction words as [|w words IH]; intros st H; [exact H|].
    cbn [fold_left]. apply IH. now apply wrapWord_ok.
Qed.

Lemma wrapSegments_ok (strict : bool) (segs : list TextSegment) :
  (strict = true -> Forall (fun s => isNewline s = false) segs) ->
  forall st,
    wrapOk strict st ->
    wrapOk strict
      (fold_left (wrapSegment width_ defaultStyle fontMap getMaxWidthAtY)
                 segs st).
Proof.
  induction segs as [|seg segs IH]; intros Hn st H; [exact H|].
  cbn [fold_left]. apply IH.
  - intro Hs. specialize (Hn Hs). now inversion Hn.
  - apply wrapSegment_ok; [|exact H].
    intro Hs. specialize (Hn Hs). now inversion Hn.
Qed.

End WrapBookkeeping.

(** X27: the lines the wrapping produces are well kept. The width of every
    line is the sum of the widths of its segments, every segment has its
    font size as height, and every line is at least as high as the line gap
    [fontSize + getLineHeightOffset(fontSize)] of each of its segments. A
    line without segments comes from an explicit line break only: when no
    segment is a line break, no line is empty. *)
Theorem wrapLines_bookkeeping (K : Context2D) (segs : list TextSegment)
    (width_ : Q) (defaultStyle : TextStyle)
    (fontMap : string -> option string) (getMaxWidthAtY : option (Q -> Q)) :
  let lines := wrapLines segs width_ defaultStyle fontMap getMaxWidthAtY in
  Forall lineOk lines
  /\ (Forall (fun s => isNewline s = false) segs ->
      Forall (fun l => line_segments l <> []) lines).
Proof.
  intro lines. unfold lines, wrapLines. cbv zeta.
  assert (H0 : forall strict, wrapOk strict (mkWrap [] emptyLine 0)).
  { intro strict. split; [constructor|].
    split; [apply lineOk_emptyLine | intros _; constructor]. }
  split.
  - pose proof (wrapSegments_ok width_ defaultStyle fontMap getMaxWidthAtY
                  false segs ltac:(discriminate) _ (H0 false)) as (H1 & H2 & _).
    destruct (0 <? _)%nat; [|exact H1].
    apply Forall_app. split; [exact H1|]. constructor; [exact H2 | constructor].
  - intro Hn.
    pose proof (wrapSegments_ok width_ defaultStyle fontMap getMaxWidthAtY
                  true segs ltac:(intros _; exact Hn) _ (H0 true))
      as (_ & _ & H3).
    specialize (H3 eq_refl).
    destruct (0 <? _)%nat eqn:E; [|exact H3].
    apply Forall_app. split; [exact H3|]. constructor; [|constructor].
    apply Nat.ltb_lt in E. intro E0. rewrite E0 in E. cbn in E. lia.
Qed.

Lemma fold_left_heights (lines : list TextLine) :
  forall acc,
    fold_left (fun a line => a + line_height line) lines acc
    == acc + sumHeights lines.
Proof.
  induction lines as [|l lines IH]; intro acc; cbn [fold_left].
  - unfold sumHeights. cbn. lra.
  - rewrite IH. unfold sumHeights. cbn [map sumQ fold_right].
    change (fold_right Qplus 0 (map line_height lines))
      with (sumQ (map line_height lines)). lra.
Qed.

Lemma drawSegments_at (spre spost : list TextSegment) (s : TextSegment)
    (by_ : Q) :
  truthy (seg_text s) = true ->
  forall cx,
    exists X,
      In (mkDraw s X by_) (drawSegments (spre ++ s :: spost) cx by_)
      /\ X == cx + drawnWidth spre.
Proof.
  intro Hs. induction spre as [|p spre IH]; intro cx.
  - exists cx. cbn [app drawSegments]. rewrite Hs.
    split; [now left | unfold drawnWidth; cbn; lra].
  - cbn [app drawSegments]. unfold drawnWidth. cbn [filter].
    destruct (truthy (seg_text p)).
    + destruct (IH (cx + seg_width p)) as (X & Hin & HX).
      exists X. split; [now right|]. rewrite HX. unfold drawnWidth.
      cbn [map sumQ fold_right].
      change (fold_right Qplus 0 ?l) with (sumQ l). lra.
    + destruct (IH cx) as (X & Hin & HX). exists X. split; assumption.
Qed.

Lemma drawLines_at (x_ w : Q) (pre post : list TextLine) (l : TextLine)
    (spre spost : list TextSegment) (s : TextSegment) :
  line_segments l = spre ++ s :: spost -> truthy (seg_text s) = true ->
  forall dy,
    exists X Y,
      In (mkDraw s X Y) (drawLines x_ w (pre ++ l :: post) dy)
      /\ X == Math_max x_ (x_ + (w - line_width l) / 2) + drawnWidth spre
      /\ Y == dy + sumHeights pre + line_height l / 2.
Proof.
  intros El Hs. induction pre as [|p pre IH]; intro dy.
  - cbn [app drawLines]. rewrite El.
    destruct (drawSegments_at spre spost s (dy + line_height l / 2) Hs
                (Math_max x_ (x_ + (w - line_width l) / 2))) as (X & Hin & HX).
    exists X, (dy + line_height l / 2).
    split; [apply in_or_app; now left|]. split; [exact HX|].
    unfold sumHeights. cbn. lra.
  - cbn [app drawLines].
    destruct (IH (dy + line_height p)) as (X & Y & Hin & HX & HY).
    exists X, Y. split; [apply in_or_app; now right|]. split; [exact HX|].
    rewrite HY. unfold sumHeights. cbn [map sumQ fold_right].
    change (fold_right Qplus 0 ?q) with (sumQ q). lra.
Qed.

(** X28: where the lines are drawn. The [fillText] calls draw the segments
    that have a text, in order. The block of lines is centred vertically in
    the box: the baseline of a line is at the middle of its band, the bands
    follow one another from [y + (height - total) / 2] on. A line not wider
    than the box is centred horizontally, a wider one starts at the left
    border; within a line every drawn segment starts where the one before
    it ends. *)
Theorem placeLines_positions (x_ y_ width_ height_ : Q)
    (pre post : list TextLine) (l : TextLine)
    (spre spost : list TextSegment) (s : TextSegment) :
  line_segments l = spre ++ s :: spost -> truthy (seg_text s) = true ->
  let lines := pre ++ l :: post in
  map draw_seg (placeLines x_ y_ width_ height_ lines)
  = filter (fun s => truthy (seg_text s)) (flat_map line_segments lines)
  /\ exists X Y,
       In (mkDraw s X Y) (placeLines x_ y_ width_ height_ lines)
       /\ Y == y_ + (height_ - sumHeights lines) / 2
               + sumHeights pre + line_height l / 2
       /\ (line_width l <= width_ ->
           X == x_ + (width_ - line_width l) / 2 + drawnWidth spre)
       /\ (width_ < line_width l -> X == x_ + drawnWidth spre).
Proof.
  intros El Hs lines. unfold placeLines. split; [apply drawLines_segs|].
  destruct (drawLines_at x_ width_ pre post l spre spost s El Hs
              (y_ + (height_ - fold_left (fun a line => a + line_height line)
                                         lines 0) / 2))
    as (X & Y & Hin & HX & HY).
  exists X, Y. split; [exact Hin|]. split; [|split].
  - rewrite HY, fold_left_heights. unfold Qdiv. lra.
  - intro Hle. rewrite HX. unfold Math_max. rewrite Q.max_r; [reflexivity|].
    unfold Qdiv. change (/ 2) with (1 # 2). lra.
  - intro Hlt. rewrite HX. unfold Math_max. rewrite Q.max_l; [reflexivity|].
    unfold Qdiv. change (/ 2) with (1 # 2). lra.
Qed.

Lemma placeLines_positions_witness :
  exists X Y,
    In (mkDraw (mkSeg "Un" plainStyle 14.4 12) X Y)
       (placeLines 0 0 100 50 [oneWordLine])
    /\ Y == 25 /\ X == 42.8.
Proof.
  destruct (placeLines_positions 0 0 100 50 [] [] oneWordLine [] []
              (mkSeg "Un" plainStyle 14.4 12) eq_refl eq_refl)
    as (_ & X & Y & Hin & HY & HX & _).
  exists X, Y. split; [exact Hin|]. split.
  - rewrite HY. vm_compute. reflexivity.
  - rewrite HX; [vm_compute; reflexivity | vm_compute; discriminate].
Defined.

(* ----------------------------------------------------------------- *)
(** ** The font size by wheel and keys, the end of an edit *)

(** X29: the wheel and the size keys keep the font size between
    [MIN_FONT_SIZE] (5) and [MAX_FONT_SIZE] (40) and touch nothing else. A
    size in that range moves by exactly the step when there is room for it
    and stops at the bound otherwise; no update is sent when the size would
    not change. The wheel steps by 2, down when [deltaY > 0]. *)
Theorem stepFontSize_clamped (b : Bubble) (delta : Q) :
  MIN_FONT_SIZE <= fontSize b -> fontSize b <= MAX_FONT_SIZE ->
  match stepFontSize b delta with
  | Some b' =>
      sameExceptFontSize b' b
      /\ MIN_FONT_SIZE <= fontSize b' /\ fontSize b' <= MAX_FONT_SIZE
      /\ ~ fontSize b' == fontSize b
      /\ (MIN_FONT_SIZE <= fontSize b + delta ->
          fontSize b + delta <= MAX_FONT_SIZE ->
          fontSize b' == fontSize b + delta)
      /\ (fontSize b + delta < MIN_FONT_SIZE -> fontSize b' == MIN_FONT_SIZE)
      /\ (MAX_FONT_SIZE < fontSize b + delta -> fontSize b' == MAX_FONT_SIZE)
  | None =>
      delta == 0
      \/ (delta < 0 /\ fontSize b == MIN_FONT_SIZE)
      \/ (0 < delta /\ fontSize b == MAX_FONT_SIZE)
  end
  /\ forall deltaY,
       handleWheel b deltaY
       = stepFontSize b (if Qltb 0 deltaY then -2 else 2).
Proof.
  intros Hmin Hmax. split; [|reflexivity].
  unfold stepFontSize, MIN_FONT_SIZE, MAX_FONT_SIZE, Math_max, Math_min in *.
  set (n := Qmax 5 (Qmin 40 (fontSize b + delta))).
  assert (Hn : (5 <= fontSize b + delta -> fontSize b + delta <= 40 ->
                n == fontSize b + delta)
               /\ (fontSize b + delta < 5 -> n == 5)
               /\ (40 < fontSize b + delta -> n == 40)
               /\ 5 <= n /\ n <= 40).
  { unfold n.
    destruct (Q.min_spec 40 (fontSize b + delta)) as [[? E1] | [? E1]];
      destruct (Q.max_spec 5 (Qmin 40 (fontSize b + delta))) as [[? E2] | [? E2]];
      rewrite E1 in *; rewrite E2; repeat split; intros; lra. }
  clearbody n. destruct Hn as (H1 & H2 & H3 & H4 & H5).
  destruct (Qeq_bool n (fontSize b)) eqn:E; cbn [negb].
  - apply Qeq_bool_iff in E.
    destruct (Qlt_le_dec delta 0) as [Hd | Hd].
    + right. left. split; [exact Hd|].
      destruct (Qlt_le_dec (fontSize b + delta) 5); [rewrite <- E; auto|].
      specialize (H1 ltac:(assumption) ltac:(lra)). lra.
    + destruct (Qlt_le_dec 0 delta) as [Hp | Hp]; [|left; lra].
      right. right. split; [exact Hp|].
      destruct (Qlt_le_dec 40 (fontSize b + delta)); [rewrite <- E; auto|].
      specialize (H1 ltac:(lra) ltac:(assumption)). lra.
  - apply Qeq_bool_false in E. cbn [fontSize with_fontSize].
    split; [unfold sameExceptFontSize; cbn; repeat split|].
    repeat split; assumption.
Qed.

Lemma stepFontSize_clamped_witness :
  match handleWheel (speechBubble 150 90 39 "Un" []) (-100) with
  | Some b' => fontSize b' == 40
  | None => False
  end.
Proof.
  destruct (stepFontSize_clamped (speechBubble 150 90 39 "Un" []) 2)
    as [H _].
  - vm_compute; discriminate.
  - vm_compute; discriminate.
  - change (handleWheel (speechBubble 150 90 39 "Un" []) (-100))
      with (stepFontSize (speechBubble 150 90 39 "Un" []) 2).
    destruct (stepFontSize (speechBubble 150 90 39 "Un" []) 2) as [b'|] eqn:E.
    + destruct H as (_ & _ & _ & _ & _ & _ & H). apply H.
      vm_compute. reflexivity.
    + vm_compute in E. discriminate.
Defined.

Lemma allSpace_truthy (s : string) :
  allSpace s = false -> truthy s = true.
Proof. destruct s; [discriminate | reflexivity]. Qed.

(** X30: the end of an edit never stores a blank text. When
    [handleTextBlur] sends an update, the text it stores is the edited HTML,
    or the placeholder when the HTML is blank or a lone [<br>]; it is never
    empty, never white space only and never a lone [<br>], and nothing but
    the text changes. No update is sent when the HTML is the bubble's text.
    A bubble whose text was emptied is one the font fitter leaves alone. *)
Theorem handleTextBlur_never_blank (C : Canvas) (b : Bubble)
    (currentHTML fontFamily_ : string) :
  match handleTextBlur b currentHTML with
  | Some b' =>
      currentHTML <> text b
      /\ b' = with_text b (text b')
      /\ allSpace (text b') = false /\ text b' <> "<br>"
      /\ (allSpace currentHTML = false -> currentHTML <> "<br>" ->
          text b' = currentHTML)
      /\ (allSpace currentHTML = true \/ currentHTML = "<br>" ->
          text b' = "Votre texte ici"
          /\ autoFitBubbleText b' fontFamily_ = b')
  | None => currentHTML = text b
  end.
Proof.
  unfold handleTextBlur.
  destruct (String.eqb currentHTML (text b)) eqn:E; cbn [negb].
  - now apply String.eqb_eq.
  - apply String.eqb_neq in E. split; [exact E|]. split; [reflexivity|].
    cbn [text with_text].
    destruct (allSpace currentHTML) eqn:Ea; cbn [orb].
    + split; [reflexivity|]. split; [discriminate|].
      split; [discriminate|]. intros _. split; [reflexivity|].
      unfold autoFitBubbleText. cbn [text with_text].
      rewrite String.eqb_refl. now rewrite orb_true_r.
    + destruct (String.eqb currentHTML "<br>") eqn:Eb.
      * split; [reflexivity|]. split; [discriminate|].
        split; [intros _ H; apply String.eqb_eq in Eb; contradiction|].
        intros _. split; [reflexivity|].
        unfold autoFitBubbleText. cbn [text with_text].
        rewrite String.eqb_refl. now rewrite orb_true_r.
      * apply String.eqb_neq in Eb.
        split; [exact Ea|]. split; [exact Eb|]. split; [reflexivity|].
        intros [H | H]; [discriminate | contradiction].
Qed.
